(** * Voxel block storage and the load-block task

    A shallow embedding of [voxel_buffer.cpp] (class [VoxelBuffer]) and of
    [streams/load_block_data_task.cpp] (class [LoadBlockDataTask]), with the
    properties of the design document stated and settled against it.

    Conventions of the embedding:
    - C++ integers are [Z]; where the source computes in a fixed width the
      wrap-around is written with [to_uint8], [to_uint32], [to_uint64];
    - a channel buffer ([uint8_t *data]) is an [option (list Z)] of bytes,
      [None] being the null pointer;
    - a method takes [this] as its first argument; one that mutates it
      returns the new object in an [Outcome], which also carries what the
      error macros printed;
    - [CRASH_COND] and a [memset]/[memcpy] that leaves its buffer end the run
      with [Aborted]. *)

From Stdlib Require Import ZArith List Lia Bool SpecFloat.
From stdpp Require Import base list.

Open Scope Z_scope.

(** ** Outcomes: printed errors and aborted runs *)

(** What the error macros of the engine print. *)
Inductive LogEntry : Type :=
| ERR_FAIL_INDEX
| ERR_FAIL_COND
| ERR_PRINT
| WARN_PRINT
| PRINT_VERBOSE.

(** How a run ends when it does not return: a [CRASH_COND] that fires, an
    access outside a buffer, the use of a null pointer. *)
Inductive Fault : Type :=
| CRASH
| OUT_OF_BOUNDS
| NULL_POINTER.

Inductive Outcome (A : Type) : Type :=
| Finished (a : A) (log : list LogEntry)
| Aborted (f : Fault).

Arguments Finished {A} a log.
Arguments Aborted {A} f.

Definition ret {A : Type} (a : A) : Outcome A := Finished a [].

Definition bind {A B : Type} (m : Outcome A) (k : A -> Outcome B) : Outcome B :=
  match m with
  | Finished a l =>
      match k a with
      | Finished b l' => Finished b (l ++ l')
      | Aborted f => Aborted f
      end
  | Aborted f => Aborted f
  end.

(** An error macro that prints and returns from the method. *)
Definition fail_with {A : Type} (e : LogEntry) (a : A) : Outcome A := Finished a [e].

Notation "'let*' x ':=' m 'in' k" := (bind m (fun x => k))
  (at level 10, x name, m at level 200, k at level 200).

(** The value a finished run returns. *)
Definition result {A : Type} (d : A) (m : Outcome A) : A :=
  match m with Finished a _ => a | Aborted _ => d end.

Definition printed {A : Type} (m : Outcome A) : list LogEntry :=
  match m with Finished _ l => l | Aborted _ => [] end.

(** [for (i = lo; i < hi; ++i) body] *)
Fixpoint for_loop {S : Type} (n : nat) (i : Z) (body : Z -> S -> Outcome S) (s : S)
  : Outcome S :=
  match n with
  | O => ret s
  | Datatypes.S n' => let* s' := body i s in for_loop n' (i + 1) body s'
  end.

Definition for_range {S : Type} (lo hi : Z) (body : Z -> S -> Outcome S) (s : S)
  : Outcome S :=
  for_loop (Z.to_nat (hi - lo)) lo body s.

(** The same loop for a body that cannot fail. *)
Fixpoint iterate {S : Type} (n : nat) (i : Z) (body : Z -> S -> S) (s : S) : S :=
  match n with
  | O => s
  | Datatypes.S n' => iterate n' (i + 1) body (body i s)
  end.

(** ** Fixed-width integers *)

Definition to_uint8 (v : Z) : Z := v mod 2 ^ 8.
Definition to_uint32 (v : Z) : Z := v mod 2 ^ 32.
Definition to_uint64 (v : Z) : Z := v mod 2 ^ 64.

(** [int] and [int32_t]: the two's complement value that 32-bit arithmetic
    leaves. *)
Definition to_int32 (v : Z) : Z := (v + 2 ^ 31) mod 2 ^ 32 - 2 ^ 31.

(** ** Encoding *)

Inductive Depth : Type :=
| DEPTH_1_BIT
| DEPTH_8_BIT
| DEPTH_16_BIT
| DEPTH_24_BIT
| DEPTH_32_BIT
| DEPTH_64_BIT.

Definition Depth_eqb (a b : Depth) : bool :=
  match a, b with
  | DEPTH_1_BIT, DEPTH_1_BIT
  | DEPTH_8_BIT, DEPTH_8_BIT
  | DEPTH_16_BIT, DEPTH_16_BIT
  | DEPTH_24_BIT, DEPTH_24_BIT
  | DEPTH_32_BIT, DEPTH_32_BIT
  | DEPTH_64_BIT, DEPTH_64_BIT => true
  | _, _ => false
  end.

#[global] Instance Depth_eq_dec : EqDecision Depth.
Proof. solve_decision. Defined.

(** [g_depth_bit_counts] *)
Definition get_depth_bit_count (d : Depth) : Z :=
  match d with
  | DEPTH_1_BIT => 1
  | DEPTH_8_BIT => 8
  | DEPTH_16_BIT => 16
  | DEPTH_24_BIT => 24
  | DEPTH_32_BIT => 32
  | DEPTH_64_BIT => 64
  end.

(** [g_depth_max_values] *)
Definition get_max_value_for_depth (d : Depth) : Z :=
  match d with
  | DEPTH_1_BIT => 1
  | DEPTH_8_BIT => 0xff
  | DEPTH_16_BIT => 0xffff
  | DEPTH_24_BIT => 0xffffff
  | DEPTH_32_BIT => 0xffffffff
  | DEPTH_64_BIT => 0xffffffffffffffff
  end.

Definition clamp_value_for_depth (value : Z) (d : Depth) : Z :=
  let max_val := get_max_value_for_depth d in
  if value >=? max_val then max_val else value.

(** [real_t] is the 32-bit IEEE format ([prec = 24], [emax = 128]); its
    arithmetic is the specification of the standard library. *)
Definition real_t : Type := spec_float.

Definition real_of_Z (v : Z) : real_t := binary_normalize 24 128 v 0 false.
Definition real_sub (a b : real_t) : real_t := SFsub 24 128 a b.
Definition real_div (a b : real_t) : real_t := SFdiv 24 128 a b.

(** A [real_t] converted to [uint64_t]: the fractional part is discarded;
    the behaviour is undefined ([None]) when what is left is not a value of
    the type. *)
Definition real_to_uint64 (f : real_t) : option Z :=
  match f with
  | S754_zero _ => Some 0
  | S754_finite s m e =>
      let mag := if 0 <=? e then Zpos m * 2 ^ e else Zpos m / 2 ^ (- e) in
      let t := if s then - mag else mag in
      if (0 <=? t) && (t <? 2 ^ 64) then Some t else None
  | S754_infinity _ => None
  | S754_nan => None
  end.

Section Marshalling.

(** [MarshallFloat] and [MarshallDouble] ([core/io/marshalls.h]) are unions
    of the engine: [float_of_bits i] is the [real_t] whose representation is
    [i], [double_bits_of_uint64 v] the representation of the [double] that
    [v] converts to. *)
Variable float_of_bits : Z -> real_t.
Variable double_bits_of_uint64 : Z -> Z.

(** [raw_voxel_to_real] is declared to return [uint64_t]: the value of each
    [return] converts to that type. *)
Definition raw_voxel_to_real (value : Z) (d : Depth) : option Z :=
  match d with
  | DEPTH_1_BIT => Some (to_uint64 (if negb (value =? 0) then 1 else -1))
  | DEPTH_8_BIT =>
      real_to_uint64 (real_div (real_sub (real_of_Z value) (real_of_Z 0x7f)) (real_of_Z 0x7f))
  | DEPTH_16_BIT =>
      real_to_uint64
        (real_div (real_sub (real_of_Z value) (real_of_Z 0x7fff)) (real_of_Z 0x7fff))
  | DEPTH_24_BIT =>
      real_to_uint64
        (real_div (real_sub (real_of_Z value) (real_of_Z 0x7fffff)) (real_of_Z 0x7fffff))
  | DEPTH_32_BIT => real_to_uint64 (float_of_bits (to_uint32 value))
  | DEPTH_64_BIT => Some (double_bits_of_uint64 value)
  end.

End Marshalling.

(** ** Raw memory *)

Abbreviation Bytes := (list Z).

(** [d[i]] on a [uint8_t *].  Positions outside the buffer are undefined in
    the source; the model reads 0 there, and [index_in_volume] below shows
    that a validated position of a well-formed block is inside the buffer. *)
Definition load8 (d : Bytes) (i : Z) : Z := default 0 (d !! Z.to_nat i).

(** [d[i] = v] on a [uint8_t *] (the value is cut to eight bits). *)
Definition store8 (d : Bytes) (i : Z) (v : Z) : Bytes := <[Z.to_nat i := to_uint8 v]> d.

(** Element [i] of the buffer read as an array of an unsigned type of
    [width] bytes (the casts to [uint16_t], [uint32_t], [uint64_t]), least
    significant byte first. *)
Fixpoint load_le (width : nat) (d : Bytes) (off : Z) : Z :=
  match width with
  | O => 0
  | Datatypes.S w => load8 d off + 2 ^ 8 * load_le w d (off + 1)
  end.

Definition typed_load (width : nat) (d : Bytes) (i : Z) : Z :=
  load_le width d (i * Z.of_nat width).

(** Assignment to element [i] of the buffer seen as such an array. *)
Fixpoint store_le (width : nat) (d : Bytes) (off : Z) (v : Z) : Bytes :=
  match width with
  | O => d
  | Datatypes.S w => store_le w (store8 d off v) (off + 1) (v / 2 ^ 8)
  end.

Definition typed_store (width : nat) (d : Bytes) (i : Z) (v : Z) : Bytes :=
  store_le width d (i * Z.of_nat width) v.

(** [memset(d, c, n)] *)
Definition memset (d : Bytes) (c : Z) (n : Z) : Outcome Bytes :=
  if (0 <=? n) && (n <=? Z.of_nat (length d))
  then ret (replicate (Z.to_nat n) (to_uint8 c) ++ drop (Z.to_nat n) d)
  else Aborted OUT_OF_BOUNDS.

(** [memcpy(dst, src, n)] *)
Definition memcpy (dst src : Bytes) (n : Z) : Outcome Bytes :=
  if (0 <=? n) && (n <=? Z.of_nat (length dst)) && (n <=? Z.of_nat (length src))
  then ret (take (Z.to_nat n) src ++ drop (Z.to_nat n) dst)
  else Aborted OUT_OF_BOUNDS.

(** [memset(d + off, c, n)] *)
Definition memset_at (d : Bytes) (off c n : Z) : Outcome Bytes :=
  if (0 <=? off) && (0 <=? n) && (off + n <=? Z.of_nat (length d))
  then ret (take (Z.to_nat off) d ++ replicate (Z.to_nat n) (to_uint8 c)
              ++ drop (Z.to_nat (off + n)) d)
  else Aborted OUT_OF_BOUNDS.

(** [memcpy(dst + doff, src + soff, n)] *)
Definition memcpy_at (dst : Bytes) (doff : Z) (src : Bytes) (soff n : Z) : Outcome Bytes :=
  if (0 <=? doff) && (0 <=? soff) && (0 <=? n)
     && (doff + n <=? Z.of_nat (length dst)) && (soff + n <=? Z.of_nat (length src))
  then ret (take (Z.to_nat doff) dst
              ++ take (Z.to_nat n) (drop (Z.to_nat soff) src)
              ++ drop (Z.to_nat (doff + n)) dst)
  else Aborted OUT_OF_BOUNDS.

(** ** Data model *)

Record Vector3i : Type := mkVector3i { vx : Z; vy : Z; vz : Z }.

Definition Vector3i_eqb (a b : Vector3i) : bool :=
  (vx a =? vx b) && (vy a =? vy b) && (vz a =? vz b).

Definition Vector3i_add (a b : Vector3i) : Vector3i :=
  mkVector3i (vx a + vx b) (vy a + vy b) (vz a + vz b).

Definition Vector3i_sub (a b : Vector3i) : Vector3i :=
  mkVector3i (vx a - vx b) (vy a - vy b) (vz a - vz b).

Definition Vector3i_shr (a : Vector3i) (n : Z) : Vector3i :=
  mkVector3i (Z.shiftr (vx a) n) (Z.shiftr (vy a) n) (Z.shiftr (vz a) n).

Definition Vector3i_shl (a : Vector3i) (n : Z) : Vector3i :=
  mkVector3i (Z.shiftl (vx a) n) (Z.shiftl (vy a) n) (Z.shiftl (vz a) n).

(** Modelled from the spec: [Vector3i::clamp_to] is declared in a header that
    is not part of the sources.  The design document clamps a minimum corner
    to [[0, size]] and a maximum corner to [[0, size+1]], the upper bound
    being exclusive (a minimum corner is a position of the block). *)
Definition clamp_axis (v lo hi : Z) : Z :=
  let v := if v <? lo then lo else v in
  if v >=? hi then hi - 1 else v.

Definition clamp_to (v lo hi : Vector3i) : Vector3i :=
  mkVector3i (clamp_axis (vx v) (vx lo) (vx hi))
             (clamp_axis (vy v) (vy lo) (vy hi))
             (clamp_axis (vz v) (vz lo) (vz hi)).

(** Modelled from the spec: [Vector3i::sort_min_max] is declared in the same
    header; it sorts the two corners, so that on each axis the first holds
    the smaller coordinate. *)
Definition sort_min_max (a b : Vector3i) : Vector3i * Vector3i :=
  (mkVector3i (Z.min (vx a) (vx b)) (Z.min (vy a) (vy b)) (Z.min (vz a) (vz b)),
   mkVector3i (Z.max (vx a) (vx b)) (Z.max (vy a) (vy b)) (Z.max (vz a) (vz b))).

Definition Vector3i_zero : Vector3i := mkVector3i 0 0 0.
Definition Vector3i_one : Vector3i := mkVector3i 1 1 1.

Record Channel : Type := mkChannel {
  data : option Bytes;
  defval : Z;
  depth : Depth;
  size_in_bytes : Z
}.

(** Modelled from the spec: the member initialisers of [Channel] are in the
    header; a channel starts uniform, at depth D8, with [defval] 0. *)
Definition Channel_default : Channel :=
  mkChannel None 0 DEPTH_8_BIT 0.

Definition MAX_CHANNELS : nat := 8.

Definition CHANNEL_TYPE : nat := 0.
Definition CHANNEL_SDF : nat := 1.
Definition CHANNEL_DATA2 : nat := 2.

Record VoxelBuffer : Type := mkVoxelBuffer {
  _channels : list Channel;
  _size : Vector3i
}.

(** [_channels[i]] *)
Definition channel_at (b : VoxelBuffer) (i : nat) : Channel :=
  default Channel_default (_channels b !! i).

Definition set_channel (b : VoxelBuffer) (i : nat) (c : Channel) : VoxelBuffer :=
  mkVoxelBuffer (<[i := c]> (_channels b)) (_size b).

Definition has_data (c : Channel) : bool :=
  match data c with Some _ => true | None => false end.

Definition get_volume (b : VoxelBuffer) : Z :=
  to_uint32 (vx (_size b) * vy (_size b) * vz (_size b)).

(** Modelled from the spec: [validate_pos] and [index] are inline members of
    the header.  A position is in range when each coordinate is in
    [[0, size)]; [index(x,y,z) = z*sx*sy + x*sy + y]. *)
Definition validate_pos (b : VoxelBuffer) (x y z : Z) : bool :=
  (0 <=? x) && (0 <=? y) && (0 <=? z) &&
  (x <? vx (_size b)) && (y <? vy (_size b)) && (z <? vz (_size b)).

Definition index (b : VoxelBuffer) (x y z : Z) : Z :=
  to_uint32 (z * vx (_size b) * vy (_size b) + x * vy (_size b) + y).

(** [VoxelBuffer::VoxelBuffer()] *)
Definition VoxelBuffer_new : VoxelBuffer :=
  set_channel (mkVoxelBuffer (replicate MAX_CHANNELS Channel_default) (mkVector3i 0 0 0))
    CHANNEL_SDF (mkChannel None 255 DEPTH_8_BIT 0).

Definition set_data (c : Channel) (d : option Bytes) (n : Z) : Channel :=
  mkChannel d (defval c) (depth c) n.

Definition set_defval (c : Channel) (v : Z) : Channel :=
  mkChannel (data c) v (depth c) (size_in_bytes c).

(** The [switch] of [get_voxel] on the depth of the channel: the voxel of
    index [i] read from the buffer. *)
Definition read_voxel (dp : Depth) (d : Bytes) (i : Z) : Z :=
  match dp with
  | DEPTH_1_BIT => Z.shiftr (load8 d (Z.shiftr i 3)) (Z.land i 7)
  | DEPTH_8_BIT => load8 d i
  | DEPTH_16_BIT => typed_load 2 d i
  | DEPTH_24_BIT =>
      Z.lor (Z.lor (load8 d (to_uint32 (i * 3)))
                   (Z.shiftl (load8 d (to_uint32 (i * 3 + 1))) 8))
            (Z.shiftl (load8 d (to_uint32 (i * 3 + 2))) 16)
  | DEPTH_32_BIT => typed_load 4 d i
  | DEPTH_64_BIT => typed_load 8 d i
  end.

(** The [switch] of [set_voxel]: the buffer after [value] is written at the
    voxel of index [i]. *)
Definition write_voxel (dp : Depth) (d : Bytes) (i : Z) (value : Z) : Bytes :=
  match dp with
  | DEPTH_1_BIT =>
      let prev := load8 d (Z.shiftr i 3) in
      let m := to_uint8 (Z.shiftl 1 (Z.land i 7)) in
      if negb (value =? 0)
      then store8 d (Z.shiftr i 3) (Z.lor prev m)
      else store8 d (Z.shiftr i 3) (Z.land prev (Z.lnot m))
  | DEPTH_8_BIT => store8 d i value
  | DEPTH_16_BIT => typed_store 2 d i value
  | DEPTH_24_BIT =>
      let d := store8 d (to_uint32 (i * 3)) (Z.land value 0xff) in
      let d := store8 d (to_uint32 (i * 3 + 1)) (Z.land (Z.shiftr value 8) 0xff) in
      store8 d (to_uint32 (i * 3 + 2)) (Z.land (Z.shiftr value 16) 0xff)
  | DEPTH_32_BIT => typed_store 4 d i value
  | DEPTH_64_BIT => typed_store 8 d i value
  end.

(** The [switch] of [fill]: the buffer of [size_in_bytes] bytes of a block
    of [volume] voxels, overwritten with [defval0]. *)
Definition fill_voxels (dp : Depth) (d : Bytes) (volume size_in_bytes defval0 : Z)
  : Outcome Bytes :=
  match dp with
  | DEPTH_1_BIT => memset d (if defval0 =? 0 then 0 else 0xff) size_in_bytes
  | DEPTH_8_BIT => memset d defval0 size_in_bytes
  | DEPTH_16_BIT =>
      ret (iterate (Z.to_nat volume) 0 (fun i d => typed_store 2 d i defval0) d)
  | DEPTH_24_BIT =>
      let b0 := Z.land defval0 0xff in
      let b1 := Z.land (Z.shiftr defval0 8) 0xff in
      let b2 := Z.land (Z.shiftr defval0 16) 0xff in
      ret (iterate (Z.to_nat volume) 0
             (fun i d =>
                let p := to_uint32 (i * 3) in
                store8 (store8 (store8 d p b0) (p + 1) b1) (p + 2) b2) d)
  | DEPTH_32_BIT =>
      ret (iterate (Z.to_nat volume) 0 (fun i d => typed_store 4 d i defval0) d)
  | DEPTH_64_BIT =>
      ret (iterate (Z.to_nat volume) 0 (fun i d => typed_store 8 d i defval0) d)
  end.

(** The bytes a voxel takes at the depths that are whole bytes (0 at D1). *)
Definition bytes_per_voxel (dp : Depth) : Z := get_depth_bit_count dp / 8.

(** ** Channel storage *)

Section Storage.

(** The memory pool ([voxel_memory_pool.h]) is outside the sources.  It hands
    out buffers that it does not initialise: [pool_bytes n k] is the byte
    found at offset [k] of a buffer of [n] bytes obtained from it. *)
Variable pool_bytes : Z -> nat -> Z.

Definition allocate_channel_data (size : Z) : Bytes :=
  map (fun k => to_uint8 (pool_bytes size k)) (seq 0 (Z.to_nat size)).

Definition get_size_in_bytes_for_volume (size : Vector3i) (d : Depth) : Outcome Z :=
  let volume := to_uint32 (vx size * vy size * vz size) in
  let bits := to_uint32 (volume * get_depth_bit_count d) in
  let size_in_bytes := Z.shiftr bits 3 in
  if Depth_eqb d DEPTH_1_BIT && (to_uint32 (size_in_bytes * 8) <? volume) then
    let size_in_bytes := to_uint32 (size_in_bytes + 1) in
    if to_uint32 (size_in_bytes * 8) <? volume then Aborted CRASH
    else ret size_in_bytes
  else ret size_in_bytes.

Definition create_channel_noinit (b : VoxelBuffer) (i : nat) (size : Vector3i)
  : Outcome VoxelBuffer :=
  let channel := channel_at b i in
  let* size_in_bytes := get_size_in_bytes_for_volume size (depth channel) in
  ret (set_channel b i
         (set_data channel (Some (allocate_channel_data size_in_bytes)) size_in_bytes)).

Definition delete_channel (b : VoxelBuffer) (i : nat) : Outcome VoxelBuffer :=
  let channel := channel_at b i in
  match data channel with
  | None => fail_with ERR_FAIL_COND b
  | Some _ => ret (set_channel b i (set_data channel None 0))
  end.

Definition fill (b : VoxelBuffer) (defval0 : Z) (channel_index : nat)
  : Outcome VoxelBuffer :=
  if negb (channel_index <? MAX_CHANNELS)%nat then fail_with ERR_FAIL_INDEX b else
  let channel := channel_at b channel_index in
  let defval0 := clamp_value_for_depth defval0 (depth channel) in
  match data channel with
  | None =>
      if defval channel =? defval0 then ret b
      else ret (set_channel b channel_index (set_defval channel defval0))
  | Some _ =>
      let* b := create_channel_noinit b channel_index (_size b) in
      let channel := channel_at b channel_index in
      let volume := get_volume b in
      let d := default [] (data channel) in
      let* d' := fill_voxels (depth channel) d volume (size_in_bytes channel) defval0 in
      ret (set_channel b channel_index (set_data channel (Some d') (size_in_bytes channel)))
  end.

Definition create_channel (b : VoxelBuffer) (i : nat) (size : Vector3i) (defval0 : Z)
  : Outcome VoxelBuffer :=
  let* b := create_channel_noinit b i size in
  fill b defval0 i.

Definition create (b : VoxelBuffer) (sx sy sz : Z) : Outcome VoxelBuffer :=
  if (sx <=? 0) || (sy <=? 0) || (sz <=? 0) then ret b else
  let new_size := mkVector3i sx sy sz in
  if negb (Vector3i_eqb new_size (_size b)) then
    let* b :=
      for_range 0 (Z.of_nat MAX_CHANNELS)
        (fun i b =>
           let channel := channel_at b (Z.to_nat i) in
           if has_data channel then
             let* b := delete_channel b (Z.to_nat i) in
             create_channel b (Z.to_nat i) new_size (defval channel)
           else ret b) b in
    ret (mkVoxelBuffer (_channels b) new_size)
  else ret b.

(** [clear()], which the destructor calls. *)
Definition clear (b : VoxelBuffer) : Outcome VoxelBuffer :=
  for_range 0 (Z.of_nat MAX_CHANNELS)
    (fun i b =>
       if has_data (channel_at b (Z.to_nat i)) then delete_channel b (Z.to_nat i)
       else ret b) b.

Definition clear_channel (b : VoxelBuffer) (channel_index : nat) (clear_value : Z)
  : Outcome VoxelBuffer :=
  if negb (channel_index <? MAX_CHANNELS)%nat then fail_with ERR_FAIL_INDEX b else
  let* b :=
    if has_data (channel_at b channel_index) then delete_channel b channel_index
    else ret b in
  let channel := channel_at b channel_index in
  ret (set_channel b channel_index
         (set_defval channel (clamp_value_for_depth clear_value (depth channel)))).

(** [set_default_values(values)]: [values] is a [FixedArray] of
    [MAX_CHANNELS] entries, given here as the list of its entries. *)
Definition set_default_values (b : VoxelBuffer) (values : list Z) : VoxelBuffer :=
  iterate MAX_CHANNELS 0
    (fun i b =>
       let channel := channel_at b (Z.to_nat i) in
       set_channel b (Z.to_nat i)
         (set_defval channel
            (clamp_value_for_depth (default 0 (values !! Z.to_nat i)) (depth channel)))) b.

(** [get_voxel] is [const]; what [ERR_FAIL_INDEX_V] prints for a channel
    index out of range is not recorded, only the 0 it returns. *)
Definition get_voxel (b : VoxelBuffer) (x y z : Z) (channel_index : nat) : Z :=
  if negb (channel_index <? MAX_CHANNELS)%nat then 0 else
  let channel := channel_at b channel_index in
  match validate_pos b x y z, data channel with
  | true, Some d =>
      let i := index b x y z in
      read_voxel (depth channel) d i
  | _, _ => defval channel
  end.

Definition set_voxel (b : VoxelBuffer) (value : Z) (x y z : Z) (channel_index : nat)
  : Outcome VoxelBuffer :=
  if negb (channel_index <? MAX_CHANNELS)%nat then fail_with ERR_FAIL_INDEX b else
  if negb (validate_pos b x y z) then fail_with ERR_FAIL_COND b else
  let channel := channel_at b channel_index in
  let value := clamp_value_for_depth value (depth channel) in
  let* st :=
    match data channel with
    | None =>
        if negb (defval channel =? value)
        then let* b := create_channel b channel_index (_size b) (defval channel) in
             ret (b, true)
        else ret (b, false)
    | Some _ => ret (b, true)
    end in
  let '(b, do_set) := st in
  if do_set then
    let channel := channel_at b channel_index in
    let d := default [] (data channel) in
    let i := index b x y z in
    let d' := write_voxel (depth channel) d i value in
    ret (set_channel b channel_index (set_data channel (Some d') (size_in_bytes channel)))
  else ret b.

(** This version does not cause errors if out of bounds.  The call passes
    [(x, y, z, value, channel_index)] to the five-argument [set_voxel], whose
    parameters are [(value, x, y, z, channel_index)]; [x] converts to
    [uint64_t]. *)
Definition try_set_voxel (b : VoxelBuffer) (x y z : Z) (value : Z) (channel_index : nat)
  : Outcome VoxelBuffer :=
  if negb (channel_index <? MAX_CHANNELS)%nat then fail_with ERR_FAIL_INDEX b else
  if negb (validate_pos b x y z) then ret b else
  set_voxel b (to_uint64 x) y z value channel_index.

(** Modelled from the spec: the overloads taking a [Vector3i] are inline
    members of the header and forward the coordinates of the position. *)
Definition get_voxel_v (b : VoxelBuffer) (pos : Vector3i) (channel_index : nat) : Z :=
  get_voxel b (vx pos) (vy pos) (vz pos) channel_index.

Definition set_voxel_v (b : VoxelBuffer) (value : Z) (pos : Vector3i) (channel_index : nat)
  : Outcome VoxelBuffer :=
  set_voxel b value (vx pos) (vy pos) (vz pos) channel_index.

(** [fill_area].  [pos] is default-constructed and the loops assign [pos.z]
    and [pos.x] only, so a row starts at [index(pos.x, 0 + min.y, pos.z)].
    The counters that the source declares [unsigned int] are compared with
    the [int] bounds after these convert ([to_uint32]). *)
Definition fill_area (b : VoxelBuffer) (defval0 : Z) (min max : Vector3i)
    (channel_index : nat) : Outcome VoxelBuffer :=
  if negb (channel_index <? MAX_CHANNELS)%nat then fail_with ERR_FAIL_INDEX b else
  let '(min, max) := sort_min_max min max in
  let min := clamp_to min Vector3i_zero (Vector3i_add (_size b) Vector3i_one) in
  let max := clamp_to max Vector3i_zero (Vector3i_add (_size b) Vector3i_one) in
  let area_size := Vector3i_sub max min in
  if (vx area_size =? 0) || (vy area_size =? 0) || (vz area_size =? 0) then ret b else
  let channel := channel_at b channel_index in
  let defval0 := clamp_value_for_depth defval0 (depth channel) in
  let* st :=
    match data channel with
    | None =>
        if defval channel =? defval0 then ret (b, false)
        else let* b := create_channel b channel_index (_size b) (defval channel) in
             ret (b, true)
    | Some _ => ret (b, true)
    end in
  let '(b, do_fill) := st in
  if negb do_fill then ret b else
  let volume := get_volume b in
  for_range (vz min) (vz max) (fun pz b =>
  for_range (vx min) (vx max) (fun px b =>
    let dst_ri := index b px (vy Vector3i_zero + vy min) pz in
    if dst_ri >=? volume then Aborted CRASH else
    let channel := channel_at b channel_index in
    let d := default [] (data channel) in
    let stored (d' : Bytes) :=
      set_channel b channel_index (set_data channel (Some d') (size_in_bytes channel)) in
    let row (width : nat) :=
      iterate (Z.to_nat (to_uint32 (vy area_size))) 0
        (fun i d => typed_store width d (to_uint32 (dst_ri + i)) defval0) d in
    match depth channel with
    | DEPTH_8_BIT =>
        let* d' := memset_at d dst_ri defval0 (vy area_size * 1) in
        ret (stored d')
    | DEPTH_16_BIT => ret (stored (row 2%nat))
    | DEPTH_32_BIT => ret (stored (row 4%nat))
    | DEPTH_64_BIT => ret (stored (row 8%nat))
    | DEPTH_1_BIT | DEPTH_24_BIT =>
        for_range (to_uint32 (vy min)) (to_uint32 (vy max))
          (fun y b => set_voxel b defval0 px y pz channel_index) b
    end) b) b.

Section Reals.

Variable float_of_bits : Z -> real_t.
Variable double_bits_of_uint64 : Z -> Z.

(** [get_voxel_f] returns a [real_t]: the [uint64_t] it gets converts back. *)
Definition get_voxel_f (b : VoxelBuffer) (x y z : Z) (channel_index : nat)
  : option real_t :=
  if negb (channel_index <? MAX_CHANNELS)%nat then Some (real_of_Z 0) else
  option_map real_of_Z
    (raw_voxel_to_real float_of_bits double_bits_of_uint64
       (get_voxel b x y z channel_index) (depth (channel_at b channel_index))).

End Reals.

(** ** Uniformity *)

(** The template [is_uniform<T>(p_data, size)], [T] of [width] bytes. *)
Definition is_uniform_T (width : nat) (p_data : Bytes) (size : Z) : bool :=
  let v0 := typed_load width p_data 0 in
  forallb (fun i => typed_load width p_data (Z.of_nat i) =? v0)
          (seq 1 (Z.to_nat size - 1)).

Definition is_uniform (b : VoxelBuffer) (channel_index : nat) : bool :=
  if negb (channel_index <? MAX_CHANNELS)%nat then true else
  let channel := channel_at b channel_index in
  match data channel with
  | None => true
  | Some d =>
      let volume := get_volume b in
      match depth channel with
      | DEPTH_1_BIT => is_uniform_T 1 d (Z.shiftr volume 3)
      | DEPTH_8_BIT => is_uniform_T 1 d volume
      | DEPTH_16_BIT => is_uniform_T 2 d volume
      | DEPTH_24_BIT => is_uniform_T 1 d (to_uint32 (volume * 3))
      | DEPTH_32_BIT => is_uniform_T 4 d volume
      | DEPTH_64_BIT => is_uniform_T 8 d volume
      end
  end.

Definition compress_uniform_channels (b : VoxelBuffer) : Outcome VoxelBuffer :=
  for_range 0 (Z.of_nat MAX_CHANNELS)
    (fun i b =>
       let channel := channel_at b (Z.to_nat i) in
       match data channel with
       | Some d =>
           if is_uniform b (Z.to_nat i)
           then clear_channel b (Z.to_nat i) (load8 d 0)
           else ret b
       | None => ret b
       end) b.

Definition decompress_channel (b : VoxelBuffer) (channel_index : nat)
  : Outcome VoxelBuffer :=
  if negb (channel_index <? MAX_CHANNELS)%nat then fail_with ERR_FAIL_INDEX b else
  let channel := channel_at b channel_index in
  if has_data channel then ret b
  else create_channel b channel_index (_size b) (defval channel).

Inductive Compression : Type :=
| COMPRESSION_NONE
| COMPRESSION_UNIFORM.

Definition get_channel_compression (b : VoxelBuffer) (channel_index : nat) : Compression :=
  if negb (channel_index <? MAX_CHANNELS)%nat then COMPRESSION_NONE else
  match data (channel_at b channel_index) with
  | None => COMPRESSION_UNIFORM
  | Some _ => COMPRESSION_NONE
  end.

(** [new_depth] is a [Depth], so [ERR_FAIL_INDEX(new_depth, DEPTH_COUNT)]
    cannot fire.  The method re-clamps [defval] and assigns nothing else. *)
Definition set_channel_depth (b : VoxelBuffer) (channel_index : nat) (new_depth : Depth)
  : Outcome VoxelBuffer :=
  if negb (channel_index <? MAX_CHANNELS)%nat then fail_with ERR_FAIL_INDEX b else
  let channel := channel_at b channel_index in
  if Depth_eqb (depth channel) new_depth then ret b else
  let* b :=
    if has_data channel
    then let* b := fail_with WARN_PRINT b in delete_channel b channel_index
    else ret b in
  let channel := channel_at b channel_index in
  ret (set_channel b channel_index
         (set_defval channel (clamp_value_for_depth (defval channel) new_depth))).

Definition get_channel_depth (b : VoxelBuffer) (channel_index : nat) : Depth :=
  if negb (channel_index <? MAX_CHANNELS)%nat then DEPTH_8_BIT
  else depth (channel_at b channel_index).

(** ** Copies *)

(** [copy_from(const VoxelBuffer &other, unsigned int channel_index)].  The
    two blocks are distinct objects. *)
Definition copy_from_channel (b other : VoxelBuffer) (channel_index : nat)
  : Outcome VoxelBuffer :=
  if negb (channel_index <? MAX_CHANNELS)%nat then fail_with ERR_FAIL_INDEX b else
  if negb (Vector3i_eqb (_size other) (_size b)) then fail_with ERR_FAIL_COND b else
  let channel := channel_at b channel_index in
  let other_channel := channel_at other channel_index in
  if negb (Depth_eqb (depth other_channel) (depth channel)) then fail_with ERR_FAIL_COND b else
  let* b :=
    match data other_channel with
    | Some other_data =>
        let* b :=
          if has_data channel then ret b
          else create_channel_noinit b channel_index (_size b) in
        let channel := channel_at b channel_index in
        let* d' := memcpy (default [] (data channel)) other_data (get_volume b * 1) in
        ret (set_channel b channel_index
               (set_data channel (Some d') (size_in_bytes channel)))
    | None =>
        if has_data channel then delete_channel b channel_index else ret b
    end in
  let channel := channel_at b channel_index in
  ret (set_channel b channel_index
         (mkChannel (data channel) (defval other_channel) (depth other_channel)
                    (size_in_bytes channel))).

(** [copy_from(const VoxelBuffer &other)] *)
Definition copy_from (b other : VoxelBuffer) : Outcome VoxelBuffer :=
  for_range 0 (Z.of_nat MAX_CHANNELS)
    (fun i b => copy_from_channel b other (Z.to_nat i)) b.

(** [copy_from(other, src_min, src_max, dst_min, channel_index)], the copy of
    an area.  The two blocks are distinct objects.  In the row-by-row copy
    [pos] is default-constructed and the loops assign [pos.z] and [pos.x]
    only, so the rows start at [pos.y + src_min.y] and [pos.y + dst_min.y]
    with [pos.y = 0]. *)
Definition copy_from_area (b other : VoxelBuffer) (src_min src_max dst_min : Vector3i)
    (channel_index : nat) : Outcome VoxelBuffer :=
  if negb (channel_index <? MAX_CHANNELS)%nat then fail_with ERR_FAIL_INDEX b else
  let channel := channel_at b channel_index in
  let other_channel := channel_at other channel_index in
  if negb (Depth_eqb (depth other_channel) (depth channel)) then fail_with ERR_FAIL_COND b else
  if negb (has_data channel) && negb (has_data other_channel)
     && (defval channel =? defval other_channel)
  then ret b else
  let '(src_min, src_max) := sort_min_max src_min src_max in
  let src_min := clamp_to src_min Vector3i_zero (_size other) in
  let src_max := clamp_to src_max Vector3i_zero (Vector3i_add (_size other) Vector3i_one) in
  let dst_min := clamp_to dst_min Vector3i_zero (_size b) in
  let area_size := Vector3i_sub src_max src_min in
  if Vector3i_eqb area_size (_size b) && Vector3i_eqb area_size (_size other) then
    copy_from_channel b other channel_index
  else
    match data other_channel with
    | Some other_data =>
        let* b :=
          if has_data channel then ret b
          else create_channel b channel_index (_size b) (defval channel) in
        if Depth_eqb (depth channel) DEPTH_8_BIT then
          for_range 0 (vz area_size) (fun pz b =>
          for_range 0 (vx area_size) (fun px b =>
            let src_ri :=
              index other (px + vx src_min) (vy Vector3i_zero + vy src_min)
                    (pz + vz src_min) in
            let dst_ri :=
              index b (px + vx dst_min) (vy Vector3i_zero + vy dst_min)
                    (pz + vz dst_min) in
            let channel := channel_at b channel_index in
            let* d' :=
              memcpy_at (default [] (data channel)) dst_ri other_data src_ri
                        (vy area_size * 1) in
            ret (set_channel b channel_index
                   (set_data channel (Some d') (size_in_bytes channel)))) b) b
        else
          for_range 0 (vz area_size) (fun pz b =>
          for_range 0 (vx area_size) (fun px b =>
          for_range 0 (vy area_size) (fun py b =>
            let pos := mkVector3i px py pz in
            let v := get_voxel_v other (Vector3i_add src_min pos) channel_index in
            set_voxel_v b v (Vector3i_add dst_min pos) channel_index) b) b) b
    | None =>
        if negb (defval channel =? defval other_channel) then
          let* b :=
            if has_data channel then ret b
            else create_channel b channel_index (_size b) (defval channel) in
          fill_area b (defval other_channel) dst_min (Vector3i_add dst_min area_size)
                    channel_index
        else ret b
    end.

Definition duplicate (b : VoxelBuffer) : Outcome VoxelBuffer :=
  let d := VoxelBuffer_new in
  let* d := create d (vx (_size b)) (vy (_size b)) (vz (_size b)) in
  copy_from d b.

(** The loop of [equals] over the channels, from [channel_index] on, [n]
    channels being left. *)
Fixpoint equals_from (b p_other : VoxelBuffer) (n : nat) (channel_index : nat)
  : Outcome bool :=
  match n with
  | O => ret true
  | Datatypes.S n' =>
      let channel := channel_at b channel_index in
      let other_channel := channel_at p_other channel_index in
      if negb (Bool.eqb (negb (has_data channel)) (negb (has_data other_channel)))
      then ret false
      else if negb (Depth_eqb (depth channel) (depth other_channel)) then ret false
      else
        match data channel with
        | None =>
            if negb (defval channel =? defval other_channel) then ret false
            else equals_from b p_other n' (Datatypes.S channel_index)
        | Some d =>
            if negb (size_in_bytes channel =? size_in_bytes other_channel)
            then Aborted CRASH
            else
              let od := default [] (data other_channel) in
              if forallb (fun i => load8 d (Z.of_nat i) =? load8 od (Z.of_nat i))
                         (seq 0 (Z.to_nat (size_in_bytes channel)))
              then equals_from b p_other n' (Datatypes.S channel_index)
              else ret false
        end
  end.

(** [equals(const VoxelBuffer *p_other)], for a pointer that is not null. *)
Definition equals (b p_other : VoxelBuffer) : Outcome bool :=
  if negb (Vector3i_eqb (_size p_other) (_size b)) then ret false
  else equals_from b p_other MAX_CHANNELS 0.

(** ** Downscaling *)

(** The nearest-neighbour loops of [downscale_to] for one channel: [this] is
    the source, [dst] the block written. *)
Definition downscale_channel (b dst : VoxelBuffer) (src_min dst_min dst_max : Vector3i)
    (channel_index : nat) : Outcome VoxelBuffer :=
  let src_channel := channel_at b channel_index in
  for_range (vz dst_min) (vz dst_max) (fun pz dst =>
  for_range (vx dst_min) (vx dst_max) (fun px dst =>
  for_range (vy dst_min) (vy dst_max) (fun py dst =>
    let pos := mkVector3i px py pz in
    let src_pos :=
      Vector3i_add src_min (Vector3i_shl (Vector3i_sub pos dst_min) 1) in
    if negb (validate_pos b (vx src_pos) (vy src_pos) (vz src_pos))
    then Aborted CRASH
    else
      let v :=
        if has_data src_channel then get_voxel_v b pos channel_index
        else defval src_channel in
      set_voxel_v dst v pos channel_index) dst) dst) dst.

(** [this] is the source, [dst] the block written; they are distinct
    objects. *)
Definition downscale_to (b dst : VoxelBuffer) (src_min src_max dst_min : Vector3i)
  : Outcome VoxelBuffer :=
  let src_min := clamp_to src_min Vector3i_zero (_size b) in
  let src_max := clamp_to src_max Vector3i_zero (Vector3i_add (_size b) Vector3i_one) in
  let dst_max := Vector3i_add dst_min (Vector3i_shr (Vector3i_sub src_max src_min) 1) in
  let dst_min := clamp_to dst_min Vector3i_zero (_size dst) in
  let dst_max := clamp_to dst_max Vector3i_zero (Vector3i_add (_size dst) Vector3i_one) in
  for_range 0 (Z.of_nat MAX_CHANNELS)
    (fun ci dst =>
       let channel_index := Z.to_nat ci in
       let src_channel := channel_at b channel_index in
       let dst_channel := channel_at dst channel_index in
       if negb (has_data src_channel) && negb (has_data dst_channel)
          && (defval src_channel =? defval dst_channel)
       then ret dst
       else downscale_channel b dst src_min dst_min dst_max channel_index) dst.

(** ** The blocks of a program *)


End Storage.

(** ** The invariants of the data model *)

Definition channel_ok (size : Vector3i) (c : Channel) : bool :=
  (0 <=? defval c) && (defval c <=? get_max_value_for_depth (depth c)) &&
  match data c with
  | None => size_in_bytes c =? 0
  | Some d =>
      match get_size_in_bytes_for_volume size (depth c) with
      | Finished n _ => Z.of_nat (length d) =? n
      | Aborted _ => false
      end
      && (size_in_bytes c =? Z.of_nat (length d))
      && forallb (fun x => (0 <=? x) && (x <? 2 ^ 8)) d
  end.

(** A block as the data model describes it: eight channels, a positive size
    whose volume the 32-bit computations of the source hold at every depth,
    each [defval] within its depth and each buffer of the size of the
    volume. *)
Definition well_formed (b : VoxelBuffer) : bool :=
  (length (_channels b) =? MAX_CHANNELS)%nat &&
  (0 <? vx (_size b)) && (0 <? vy (_size b)) && (0 <? vz (_size b)) &&
  (vx (_size b) * vy (_size b) * vz (_size b) * 64 <? 2 ^ 32) &&
  forallb (channel_ok (_size b)) (_channels b).

(** A byte. *)
Definition is_byte (x : Z) : Prop := 0 <= x < 2 ^ 8.

(** What [well_formed] says, as a proposition. *)
Record WellFormed (b : VoxelBuffer) : Prop := {
  wf_channels : length (_channels b) = MAX_CHANNELS;
  wf_size : 0 < vx (_size b) /\ 0 < vy (_size b) /\ 0 < vz (_size b);
  wf_volume : vx (_size b) * vy (_size b) * vz (_size b) * 64 < 2 ^ 32;
  wf_channel_ok : forall i, (i < MAX_CHANNELS)%nat ->
                            channel_ok (_size b) (channel_at b i) = true
}.

(** [d] is [d0] after channel [c] was written at the positions of [W], each
    with the value [val] gives there, clamped to the depth of the channel:
    the block is well formed, of the same size and depths, it reads as [d0]
    in the other channels and at the other positions. *)
Definition written (d0 d : VoxelBuffer) (c : nat) (val : Z -> Z -> Z -> Z)
    (W : Z -> Z -> Z -> Prop) : Prop :=
  well_formed d = true /\
  _size d = _size d0 /\
  (forall i, depth (channel_at d i) = depth (channel_at d0 i)) /\
  (forall c' x y z, c' <> c -> get_voxel d x y z c' = get_voxel d0 x y z c') /\
  (forall x y z, validate_pos d0 x y z = true -> ~ W x y z ->
                 get_voxel d x y z c = get_voxel d0 x y z c) /\
  (forall x y z, W x y z ->
                 get_voxel d x y z c
                   = clamp_value_for_depth (val x y z) (depth (channel_at d0 c))).

(** The ranges of a call of [downscale_to] along one axis: the source range
    lies in the source, the destination range in the destination. *)
Definition axis_in_range (size_src size_dst smin smax dmin : Z) : Prop :=
  0 <= smin < size_src /\ smin <= smax <= size_src /\
  0 <= dmin < size_dst /\ dmin + (smax - smin) / 2 <= size_dst.

(** The block that [create(sx, sy, sz)] makes of a new [VoxelBuffer]. *)
Definition fresh_block (sx sy sz : Z) : VoxelBuffer :=
  mkVoxelBuffer (_channels VoxelBuffer_new) (mkVector3i sx sy sz).

(** Blocks with channels of other depths than D8, given by their state. *)
Definition block_1_bit : VoxelBuffer :=
  set_channel (fresh_block 2 2 2) CHANNEL_TYPE (mkChannel None 1 DEPTH_1_BIT 0).

Definition block_16_bit_uniform : VoxelBuffer :=
  set_channel (fresh_block 2 2 2) CHANNEL_DATA2 (mkChannel None 0x1234 DEPTH_16_BIT 0).

Definition block_16_bit : VoxelBuffer :=
  set_channel (fresh_block 8 8 8) CHANNEL_DATA2 (mkChannel None 0 DEPTH_16_BIT 0).

Definition block_1_bit_alternating : VoxelBuffer :=
  set_channel (fresh_block 4 2 2) CHANNEL_TYPE
    (mkChannel (Some [0x55; 0x55]) 0 DEPTH_1_BIT 2).

(** A pool whose recycled buffers hold the byte 0xAA. *)
Definition pool_0xAA : Z -> nat -> Z := fun _ _ => 0xAA.

(** ** Views used by the properties *)

(** A channel after [clear]: its buffer is gone, the rest is kept. *)
Definition cleared (ch : Channel) : Channel :=
  if has_data ch then set_data ch None 0 else ch.

(** A channel after the block was re-created: a channel that had a buffer
    has a new one, of the bytes of the volume of [b], in which every voxel
    reads the [defval] of the channel. *)
Definition recreated (b : VoxelBuffer) (ch ch' : Channel) : Prop :=
  match data ch with
  | None => ch' = ch
  | Some _ =>
      exists d,
        ch' = mkChannel (Some d) (defval ch) (depth ch) (Z.of_nat (length d)) /\
        Z.of_nat (length d) = get_volume b * bytes_per_voxel (depth ch) /\
        forall j, 0 <= j < get_volume b -> read_voxel (depth ch) d j = defval ch
  end.

(** The element width of the scan of [is_uniform] at the depths that are
    scanned voxel by voxel. *)
Definition scanned_by_voxel (dp : Depth) : bool :=
  match dp with
  | DEPTH_8_BIT | DEPTH_16_BIT | DEPTH_32_BIT | DEPTH_64_BIT => true
  | DEPTH_1_BIT | DEPTH_24_BIT => false
  end.

(** Two channels that the loop of [equals] passes. *)
Definition same_channel (ch och : Channel) : Prop :=
  depth ch = depth och /\
  match data ch, data och with
  | None, None => defval ch = defval och
  | Some d, Some od =>
      size_in_bytes ch = size_in_bytes och /\
      forall k, 0 <= k < size_in_bytes ch -> load8 d k = load8 od k
  | _, _ => False
  end.

(** The positions between two corners, whatever their order. *)
Definition in_area (min max : Vector3i) (x y z : Z) : Prop :=
  Z.min (vx min) (vx max) <= x < Z.max (vx min) (vx max) /\
  Z.min (vy min) (vy max) <= y < Z.max (vy min) (vy max) /\
  Z.min (vz min) (vz max) <= z < Z.max (vz min) (vz max).

(** The ranges of the copy of an area along one axis: the source range lies
    in the source, the destination range, of the same length, in the
    destination. *)
Definition copy_axis_in_range (size_src size_dst smin smax dmin : Z) : Prop :=
  0 <= smin < size_src /\ smin <= smax <= size_src /\
  0 <= dmin < size_dst /\ dmin + (smax - smin) <= size_dst.

(** The test of the copy of an area for its range being the whole of both
    blocks ([area_size == _size && area_size == other._size]), on the
    corners sorted and clamped as the method does. *)
Definition copies_whole_blocks (b other : VoxelBuffer) (src_min src_max : Vector3i) : bool :=
  let '(src_min, src_max) := sort_min_max src_min src_max in
  let src_min := clamp_to src_min Vector3i_zero (_size other) in
  let src_max := clamp_to src_max Vector3i_zero (Vector3i_add (_size other) Vector3i_one) in
  let area_size := Vector3i_sub src_max src_min in
  Vector3i_eqb area_size (_size b) && Vector3i_eqb area_size (_size other).



(** The 2x2x2 block whose TYPE channel holds the bytes 1 to 8. *)
Definition block_8_bit_ramp : VoxelBuffer :=
  set_channel (fresh_block 2 2 2) CHANNEL_TYPE
    (mkChannel (Some [1; 2; 3; 4; 5; 6; 7; 8]) 0 DEPTH_8_BIT 8).

(** The 2x2x2 block whose TYPE channel holds eight times the byte 7. *)
Definition block_8_bit_sevens : VoxelBuffer :=
  set_channel (fresh_block 2 2 2) CHANNEL_TYPE
    (mkChannel (Some [7; 7; 7; 7; 7; 7; 7; 7]) 0 DEPTH_8_BIT 8).



(** * The load-block task *)

Module LoadBlockDataTask.

Set Implicit Arguments.

Inductive Result : Type :=
| RESULT_ERROR
| RESULT_BLOCK_NOT_FOUND
| RESULT_BLOCK_FOUND.

Definition Result_eqb (a b : Result) : bool :=
  match a, b with
  | RESULT_ERROR, RESULT_ERROR
  | RESULT_BLOCK_NOT_FOUND, RESULT_BLOCK_NOT_FOUND
  | RESULT_BLOCK_FOUND, RESULT_BLOCK_FOUND => true
  | _, _ => false
  end.

Inductive OutputType : Type :=
| TYPE_LOADED
| TYPE_GENERATED
| TYPE_SAVED.

Section Task.

(** The collaborators of the task are outside the sources; their data are
    kept abstract. *)
Variable VoxelBufferInternal : Type.
Variable InstanceBlockData : Type.
Variable VolumeID : Type.
Variable VoxelData : Type.
Variable PriorityDependency : Type.
Variable VoxelGenerator : Type.
Variable Callback : Type.
Variable UserData : Type.

(** [make_shared_instance<VoxelBufferInternal>()] followed by
    [create(s, s, s)]. *)
Variable new_block : Z -> VoxelBufferInternal.

(** The stream interface: a voxel query gets the buffer, the origin and the
    lod and answers with the buffer and a result; an instance query gets the
    lod and the position and answers with its payload and a result. *)
Record VoxelStream : Type := mkVoxelStream {
  load_voxel_block : VoxelBufferInternal -> Vector3i -> Z -> VoxelBufferInternal * Result;
  supports_instance_blocks : bool;
  load_instance_blocks : Z -> Vector3i -> option InstanceBlockData * Result
}.

Record StreamingDependency : Type := mkStreamingDependency {
  stream : option VoxelStream;
  generator : option VoxelGenerator;
  valid : bool
}.

(** A [std::shared_ptr<StreamingDependency>] that is not null is a reference
    into the store of the dependencies, which the volumes share with the
    tasks. *)
Definition DependencyRef : Type := nat.

Record BlockTaskParams : Type := mkBlockTaskParams {
  params_voxels : option VoxelBufferInternal;
  params_volume_id : VolumeID;
  params_block_position : Vector3i;
  params_lod_index : Z;
  params_block_size : Z;
  params_stream_dependency : option DependencyRef;
  params_priority_dependency : PriorityDependency;
  params_use_gpu : bool;
  params_data : option VoxelData
}.

Record BlockDataOutput : Type := mkBlockDataOutput {
  o_voxels : option VoxelBufferInternal;
  o_instances : option InstanceBlockData;
  o_position : Vector3i;
  o_lod_index : Z;
  o_dropped : bool;
  o_max_lod_hint : bool;
  o_initial_load : bool;
  o_type : OutputType
}.

Record VolumeCallbacks : Type := mkVolumeCallbacks {
  data_output_callback : option Callback;
  callbacks_data : UserData
}.

(** What the task does to its collaborators, in order. *)
Inductive Event : Type :=
| StreamLoadVoxelBlock (origin_in_voxels : Vector3i) (lod : Z)
| StreamLoadInstanceBlocks (lod : Z) (position : Vector3i)
| PushAsyncTask (g : VoxelGenerator) (params : BlockTaskParams)
| DataOutputCallback (f : Callback) (user_data : UserData) (o : BlockDataOutput).

(** [VoxelEngine::get_singleton()] and the shared dependencies. *)
Record World : Type := mkWorld {
  is_volume_valid : VolumeID -> bool;
  get_volume_callbacks : VolumeID -> VolumeCallbacks;
  dependencies : DependencyRef -> StreamingDependency
}.

Record Task : Type := mkTask {
  _priority_dependency : PriorityDependency;
  _position : Vector3i;
  _volume_id : VolumeID;
  _lod_index : Z;
  _block_size : Z;
  _request_instances : bool;
  _generate_cache_data : bool;
  _generator_use_gpu : bool;
  _stream_dependency : option DependencyRef;
  _voxel_data : option VoxelData;
  _voxels : option VoxelBufferInternal;
  _instances : option InstanceBlockData;
  _has_run : bool;
  _too_far : bool;
  _requested_generator_task : bool;
  _max_lod_hint : bool
}.

(** The constructor; the members it does not list keep the initial values of
    the header. *)
Definition Task_new (p_volume_id : VolumeID) (p_block_pos : Vector3i) (p_lod p_block_size : Z)
    (p_request_instances : bool) (p_stream_dependency : option DependencyRef)
    (p_priority_dependency : PriorityDependency) (generate_cache_data generator_use_gpu : bool)
    (vdata : option VoxelData) : Task :=
  mkTask p_priority_dependency p_block_pos p_volume_id p_lod p_block_size
         p_request_instances generate_cache_data generator_use_gpu
         p_stream_dependency vdata None None false false false false.

Definition set_voxels (t : Task) (v : option VoxelBufferInternal) : Task :=
  mkTask (_priority_dependency t) (_position t) (_volume_id t) (_lod_index t)
         (_block_size t) (_request_instances t) (_generate_cache_data t)
         (_generator_use_gpu t) (_stream_dependency t) (_voxel_data t)
         v (_instances t) (_has_run t) (_too_far t)
         (_requested_generator_task t) (_max_lod_hint t).

Definition set_instances (t : Task) (i : option InstanceBlockData) : Task :=
  mkTask (_priority_dependency t) (_position t) (_volume_id t) (_lod_index t)
         (_block_size t) (_request_instances t) (_generate_cache_data t)
         (_generator_use_gpu t) (_stream_dependency t) (_voxel_data t)
         (_voxels t) i (_has_run t) (_too_far t)
         (_requested_generator_task t) (_max_lod_hint t).

Definition set_has_run (t : Task) (r : bool) : Task :=
  mkTask (_priority_dependency t) (_position t) (_volume_id t) (_lod_index t)
         (_block_size t) (_request_instances t) (_generate_cache_data t)
         (_generator_use_gpu t) (_stream_dependency t) (_voxel_data t)
         (_voxels t) (_instances t) r (_too_far t)
         (_requested_generator_task t) (_max_lod_hint t).

Definition set_requested_generator_task (t : Task) (r : bool) : Task :=
  mkTask (_priority_dependency t) (_position t) (_volume_id t) (_lod_index t)
         (_block_size t) (_request_instances t) (_generate_cache_data t)
         (_generator_use_gpu t) (_stream_dependency t) (_voxel_data t)
         (_voxels t) (_instances t) (_has_run t) (_too_far t)
         r (_max_lod_hint t).

(** Modelled from the spec: the operators of [Vector3i] are declared in a
    header that is not part of the sources.  The components of a [Vector3i]
    are [int32_t]; [a << n] and [a * k] work component by component, in the
    32-bit two's complement arithmetic of the machine.  (C++ leaves a signed
    overflow undefined, and a shift by 32 bits or more: the properties below
    that speak of the origin take a lod index below 32.) *)
Definition Vector3i_shl_int32 (a : Vector3i) (n : Z) : Vector3i :=
  mkVector3i (to_int32 (Z.shiftl (vx a) n)) (to_int32 (Z.shiftl (vy a) n))
             (to_int32 (Z.shiftl (vz a) n)).

Definition Vector3i_mul_int32 (a : Vector3i) (k : Z) : Vector3i :=
  mkVector3i (to_int32 (vx a * k)) (to_int32 (vy a * k)) (to_int32 (vz a * k)).

(** [(_position << _lod_index) * _block_size] *)
Definition origin_in_voxels (t : Task) : Vector3i :=
  Vector3i_mul_int32 (Vector3i_shl_int32 (_position t) (_lod_index t)) (_block_size t).

Definition is_null {A : Type} (p : option A) : bool :=
  match p with None => true | Some _ => false end.

(** The dispatch of [run] on the result of the voxel query. *)
Definition run_dispatch (sd : StreamingDependency) (t : Task) (voxel_result : Result)
  : Outcome (Task * list Event) :=
  match voxel_result with
  | RESULT_ERROR => fail_with ERR_PRINT (t, [])
  | RESULT_BLOCK_NOT_FOUND =>
      if _generate_cache_data t then
        match generator sd with
        | Some g =>
            let params :=
              mkBlockTaskParams (_voxels t) (_volume_id t) (_position t) (_lod_index t)
                (_block_size t) (_stream_dependency t) (_priority_dependency t)
                (_generator_use_gpu t) (_voxel_data t) in
            ret (set_requested_generator_task t true, [PushAsyncTask g params])
        | None => ret (t, [])
        end
      else ret (set_voxels t None, [])
  | RESULT_BLOCK_FOUND => ret (t, [])
  end.

(** [run]; the result pairs the task with what it did.  An [ERR_FAIL_COND]
    leaves the method before [_has_run] is set. *)
Definition run (w : World) (t : Task) : Outcome (Task * list Event) :=
  match _stream_dependency t with
  | None => Aborted CRASH
  | Some dep =>
      let sd := dependencies w dep in
      match stream sd with
      | None => Aborted CRASH
      | Some stream =>
          let origin := origin_in_voxels t in
          if negb (is_null (_voxels t)) then fail_with ERR_FAIL_COND (t, []) else
          let voxels := new_block (_block_size t) in
          let '(voxels, voxel_result) :=
            load_voxel_block stream voxels origin (_lod_index t) in
          let t := set_voxels t (Some voxels) in
          let* st := run_dispatch sd t voxel_result in
          let '(t, ev1) := st in
          let ev := StreamLoadVoxelBlock origin (_lod_index t) :: ev1 in
          if _request_instances t && supports_instance_blocks stream then
            if negb (is_null (_instances t)) then fail_with ERR_FAIL_COND (t, ev) else
            let '(instances_data, instances_result) :=
              load_instance_blocks stream (_lod_index t) (_position t) in
            let ev := ev ++ [StreamLoadInstanceBlocks (_lod_index t) (_position t)] in
            let* t :=
              if Result_eqb instances_result RESULT_ERROR then fail_with ERR_PRINT t
              else if Result_eqb voxel_result RESULT_BLOCK_FOUND
                   then ret (set_instances t instances_data)
                   else ret t in
            ret (set_has_run t true, ev)
          else ret (set_has_run t true, ev)
      end
  end.

Definition set_too_far (t : Task) (r : bool) : Task :=
  mkTask (_priority_dependency t) (_position t) (_volume_id t) (_lod_index t)
         (_block_size t) (_request_instances t) (_generate_cache_data t)
         (_generator_use_gpu t) (_stream_dependency t) (_voxel_data t)
         (_voxels t) (_instances t) (_has_run t) r
         (_requested_generator_task t) (_max_lod_hint t).

(** [PriorityDependency] is outside the sources: [evaluate dep lod band]
    is the priority that [evaluate] returns, with the squared distance to
    the closest viewer that it stores through its last argument. *)
Variable TaskPriority : Type.
Variable evaluate : PriorityDependency -> Z -> Z -> TaskPriority * real_t.
Variable drop_distance_squared : PriorityDependency -> real_t.
Variable TASK_PRIORITY_LOAD_BAND2 : Z.

(** [a > b] on [float]: false when either is not a number. *)
Definition real_gt (a b : real_t) : bool := SFltb b a.

Definition get_priority (t : Task) : Task * TaskPriority :=
  let '(p, closest_viewer_distance_sq) :=
    evaluate (_priority_dependency t) (_lod_index t) TASK_PRIORITY_LOAD_BAND2 in
  (set_too_far t
     (real_gt closest_viewer_distance_sq (drop_distance_squared (_priority_dependency t))),
   p).

Definition is_cancelled (w : World) (t : Task) : Outcome bool :=
  match _stream_dependency t with
  | None => Aborted NULL_POINTER
  | Some dep => ret (negb (valid (dependencies w dep)) || _too_far t)
  end.

Definition apply_result (w : World) (t : Task) : Outcome (Task * list Event) :=
  if is_volume_valid w (_volume_id t) then
    match _stream_dependency t with
    | None => Aborted NULL_POINTER
    | Some dep =>
        if valid (dependencies w dep) && negb (_requested_generator_task t) then
          let o :=
            mkBlockDataOutput (_voxels t) (_instances t) (_position t) (_lod_index t)
              (negb (_has_run t)) (_max_lod_hint t) false TYPE_LOADED in
          let t := set_instances t None in
          let callbacks := get_volume_callbacks w (_volume_id t) in
          match data_output_callback callbacks with
          | None => Aborted CRASH
          | Some f => ret (t, [DataOutputCallback f (callbacks_data callbacks) o])
          end
        else ret (t, [])
    end
  else fail_with PRINT_VERBOSE (t, []).

(** The bundles handed to a volume callback, in order. *)
Definition outputs (ev : list Event) : list BlockDataOutput :=
  flat_map (fun e => match e with DataOutputCallback _ _ o => [o] | _ => [] end) ev.

(** The condition under which [apply_result] emits, [dep] being the
    dependency of the task. *)
Definition emits (w : World) (t : Task) (dep : DependencyRef) : bool :=
  is_volume_valid w (_volume_id t) && valid (dependencies w dep)
  && negb (_requested_generator_task t).

(** The voxel query of [run]. *)
Definition voxel_query (s : VoxelStream) (t : Task) : VoxelBufferInternal * Result :=
  load_voxel_block s (new_block (_block_size t))
    (origin_in_voxels t)
    (_lod_index t).

(** The part of [run] about instances keeps the rest of the task. *)
Definition same_but_instances (t t' : Task) : Prop :=
  _voxels t' = _voxels t /\ _requested_generator_task t' = _requested_generator_task t /\
  _too_far t' = _too_far t /\ _stream_dependency t' = _stream_dependency t /\
  _volume_id t' = _volume_id t /\ _position t' = _position t /\
  _lod_index t' = _lod_index t /\ _max_lod_hint t' = _max_lod_hint t.

End Task.

Unset Implicit Arguments.

Arguments StreamLoadVoxelBlock {_ _ _ _ _ _ _ _} origin_in_voxels lod.
Arguments StreamLoadInstanceBlocks {_ _ _ _ _ _ _ _} lod position.
Arguments PushAsyncTask {_ _ _ _ _ _ _ _} g params.
Arguments DataOutputCallback {_ _ _ _ _ _ _ _} f user_data o.
Arguments outputs {_ _ _ _ _ _ _ _} ev.

(** A concrete setting: blocks, volume ids, generators, callbacks and user
    data are numbers, an instance payload is a number. *)
Definition block_of_size (s : Z) : Z := s.

(** A stream that has no voxel block but has an instance block. *)
Definition stream_without_voxels : VoxelStream Z nat :=
  mkVoxelStream (fun b _ _ => (b, RESULT_BLOCK_NOT_FOUND)) true
                (fun _ _ => (Some 7%nat, RESULT_BLOCK_FOUND)).

(** A stream that has the voxel block. *)
Definition stream_with_voxels : VoxelStream Z nat :=
  mkVoxelStream (fun b _ _ => (b, RESULT_BLOCK_FOUND)) false
                (fun _ _ => (None, RESULT_BLOCK_NOT_FOUND)).

(** Every volume is registered, with callback 1 and user data 2; every
    dependency has the given stream, generator and validity. *)
Definition world_with (s : VoxelStream Z nat) (g : option nat) (is_valid : bool)
  : World Z nat nat nat nat nat :=
  mkWorld (fun _ => true) (fun _ => mkVolumeCallbacks (Some 1%nat) 2%nat)
          (fun _ => mkStreamingDependency (Some s) g is_valid).

(** A task for block (1, 2, 3) of volume 0 at lod 0, blocks of 16 voxels. *)
Definition task_with (request_instances generate_cache_data : bool)
  : Task Z nat nat unit unit :=
  Task_new Z nat 0%nat (mkVector3i 1 2 3) 0 16 request_instances (Some 0%nat) tt
           generate_cache_data false None.

(** A stream that has the voxel blocks of the origins whose [x] is not
    negative, and no other. *)
Definition stream_of_positive_origins : VoxelStream Z nat :=
  mkVoxelStream
    (fun b origin _ =>
       (b, if 0 <=? vx origin then RESULT_BLOCK_FOUND else RESULT_BLOCK_NOT_FOUND))
    false (fun _ _ => (None, RESULT_BLOCK_NOT_FOUND)).

(** A task for block (2^27, 0, 0) at lod 0, blocks of 16 voxels: [2^27 * 16]
    is [2^31], one more than an [int32_t] holds. *)
Definition task_far (generate_cache_data : bool) : Task Z nat nat unit unit :=
  Task_new Z nat 0%nat (mkVector3i (2 ^ 27) 0 0) 0 16 false (Some 0%nat) tt
           generate_cache_data false None.

End LoadBlockDataTask.

(** * Properties *)

Ltac split_all := repeat match goal with |- _ /\ _ => split end.

(** Closed equations and disequations between values of the embedding are
    settled by evaluation. *)
Ltac by_evaluation :=
  lazymatch goal with
  | |- @eq _ _ _ => vm_compute; reflexivity
  | |- ~ (@eq _ _ _) => vm_compute; discriminate
  end.

(** ** Bytes *)

Lemma length_store8 (d : Bytes) (i v : Z) : length (store8 d i v) = length d.
Proof. unfold store8. apply length_insert. Qed.

Lemma load8_store8_eq (d : Bytes) (i v : Z) :
  0 <= i < Z.of_nat (length d) -> load8 (store8 d i v) i = to_uint8 v.
Proof.
  intros H. unfold load8, store8.
  rewrite list_lookup_insert_eq by lia. reflexivity.
Qed.

Lemma load8_store8_ne (d : Bytes) (i j v : Z) :
  0 <= i -> 0 <= j -> i <> j -> load8 (store8 d i v) j = load8 d j.
Proof.
  intros Hi Hj Hne. unfold load8, store8.
  rewrite list_lookup_insert_ne by lia. reflexivity.
Qed.

Lemma length_store_le (w : nat) : forall (d : Bytes) (off v : Z),
  length (store_le w d off v) = length d.
Proof.
  induction w as [|w IH]; intros d off v; cbn [store_le]; [reflexivity|].
  rewrite IH. apply length_store8.
Qed.

Lemma load8_store_le_outside (w : nat) : forall (d : Bytes) (off v j : Z),
  0 <= off -> 0 <= j -> j < off \/ off + Z.of_nat w <= j ->
  load8 (store_le w d off v) j = load8 d j.
Proof.
  induction w as [|w IH]; intros d off v j Hoff Hj Hout; cbn [store_le]; [reflexivity|].
  rewrite IH by lia. apply load8_store8_ne; lia.
Qed.

Lemma load_le_ext (w : nat) : forall (d d' : Bytes) (off : Z),
  (forall j, off <= j < off + Z.of_nat w -> load8 d j = load8 d' j) ->
  load_le w d off = load_le w d' off.
Proof.
  induction w as [|w IH]; intros d d' off H; cbn [load_le]; [reflexivity|].
  rewrite (H off) by lia. rewrite (IH d d' (off + 1)); [reflexivity|].
  intros j Hj. apply H. lia.
Qed.

Lemma load_le_store_le_disjoint (w w' : nat) (d : Bytes) (off off' v : Z) :
  0 <= off -> 0 <= off' ->
  off + Z.of_nat w <= off' \/ off' + Z.of_nat w' <= off ->
  load_le w (store_le w' d off' v) off = load_le w d off.
Proof.
  intros Hoff Hoff' Hdis. apply load_le_ext. intros j Hj.
  apply load8_store_le_outside; lia.
Qed.

Lemma load_le_store_le_eq (w : nat) : forall (d : Bytes) (off v : Z),
  0 <= off -> off + Z.of_nat w <= Z.of_nat (length d) ->
  load_le w (store_le w d off v) off = v mod 2 ^ (8 * Z.of_nat w).
Proof.
  induction w as [|w IH]; intros d off v Hoff Hlen; cbn [load_le store_le].
  - rewrite Z.mod_1_r. reflexivity.
  - rewrite load8_store_le_outside by lia.
    rewrite load8_store8_eq by lia.
    rewrite IH by (rewrite ?length_store8; lia).
    unfold to_uint8.
    replace (8 * Z.of_nat (S w)) with (8 + 8 * Z.of_nat w) by lia.
    rewrite Z.pow_add_r by lia.
    rewrite Z.rem_mul_r by lia. reflexivity.
Qed.

Lemma load8_range (d : Bytes) (i : Z) :
  Forall (fun x => 0 <= x < 2 ^ 8) d -> 0 <= load8 d i < 2 ^ 8.
Proof.
  intros H. unfold load8. destruct (d !! Z.to_nat i) as [x|] eqn:E; cbn; [|lia].
  rewrite Forall_forall in H. apply H.
  eapply list_elem_of_lookup_2. exact E.
Qed.

Lemma testbit_255 (n : Z) : 0 <= n -> Z.testbit 255 n = (n <? 8).
Proof.
  intros H. change 255 with (Z.ones 8).
  destruct (n <? 8) eqn:E.
  - apply Z.ones_spec_low. lia.
  - apply Z.ones_spec_high. lia.
Qed.

Lemma lor_of_bytes_24 (v : Z) :
  0 <= v < 2 ^ 24 ->
  Z.lor (Z.lor (Z.land v 255) (Z.shiftl (Z.land (Z.shiftr v 8) 255) 8))
        (Z.shiftl (Z.land (Z.shiftr v 16) 255) 16) = v.
Proof.
  intros Hv. apply Z.bits_inj'. intros n Hn.
  rewrite !Z.lor_spec, !Z.land_spec, testbit_255 by lia.
  rewrite !Z.shiftl_spec by lia.
  destruct (Z.ltb_spec n 8) as [H8|H8].
  - rewrite andb_true_r.
    rewrite (Z.testbit_neg_r _ (n - 8)) by lia.
    rewrite (Z.testbit_neg_r _ (n - 16)) by lia.
    rewrite !orb_false_r. reflexivity.
  - rewrite andb_false_r, orb_false_l.
    destruct (Z.ltb_spec n 16) as [H16|H16].
    + rewrite Z.land_spec, Z.shiftr_spec, testbit_255 by lia.
      rewrite (Z.testbit_neg_r _ (n - 16)) by lia.
      replace (n - 8 + 8) with n by lia.
      replace (n - 8 <? 8) with true by (symmetry; apply Z.ltb_lt; lia).
      rewrite andb_true_r, orb_false_r. reflexivity.
    + rewrite !Z.land_spec, !Z.shiftr_spec, !testbit_255 by lia.
      replace (n - 8 <? 8) with false by (symmetry; apply Z.ltb_ge; lia).
      rewrite andb_false_r, orb_false_l.
      replace (n - 16 + 16) with n by lia.
      destruct (Z.ltb_spec (n - 16) 8) as [H24|H24].
      * rewrite andb_true_r. reflexivity.
      * rewrite andb_false_r. symmetry.
        apply (Z.bits_above_log2 v n); [lia|].
        destruct (Z.eq_dec v 0) as [->|Hnz]; [change (Z.log2 0) with 0; lia|].
        apply Z.log2_lt_pow2; [lia|].
        apply Z.lt_le_trans with (2 ^ 24); [lia|].
        apply Z.pow_le_mono_r; lia.
Qed.

Lemma land_255_range (v : Z) : 0 <= Z.land v 255 < 2 ^ 8.
Proof.
  change 255 with (Z.ones 8). rewrite Z.land_ones by lia.
  apply Z.mod_pos_bound. lia.
Qed.

Lemma to_uint8_small (v : Z) : 0 <= v < 2 ^ 8 -> to_uint8 v = v.
Proof. intros H. unfold to_uint8. apply Z.mod_small. exact H. Qed.

Lemma to_uint32_small (v : Z) : 0 <= v < 2 ^ 32 -> to_uint32 v = v.
Proof. intros H. unfold to_uint32. apply Z.mod_small. exact H. Qed.

Lemma bytes_per_voxel_pos (dp : Depth) : dp <> DEPTH_1_BIT -> 1 <= bytes_per_voxel dp <= 8.
Proof. destruct dp; intros H; try congruence; vm_compute; split; discriminate. Qed.

Lemma max_value_bytes (dp : Depth) :
  dp <> DEPTH_1_BIT ->
  get_max_value_for_depth dp = 2 ^ (8 * bytes_per_voxel dp) - 1.
Proof. destruct dp; intros H; try congruence; reflexivity. Qed.

Ltac bytes_per_voxel_values :=
  change (bytes_per_voxel DEPTH_8_BIT) with 1 in *;
  change (bytes_per_voxel DEPTH_16_BIT) with 2 in *;
  change (bytes_per_voxel DEPTH_24_BIT) with 3 in *;
  change (bytes_per_voxel DEPTH_32_BIT) with 4 in *;
  change (bytes_per_voxel DEPTH_64_BIT) with 8 in *.

Lemma length_write_voxel (dp : Depth) (d : Bytes) (i v : Z) :
  length (write_voxel dp d i v) = length d.
Proof.
  destruct dp; cbn [write_voxel]; unfold typed_store;
    rewrite ?length_store_le, ?length_store8; try reflexivity.
  destruct (negb (v =? 0)); apply length_store8.
Qed.

Lemma read_write_voxel_eq (dp : Depth) (d : Bytes) (i v : Z) :
  dp <> DEPTH_1_BIT ->
  0 <= i -> (i + 1) * bytes_per_voxel dp <= Z.of_nat (length d) ->
  Z.of_nat (length d) < 2 ^ 32 ->
  0 <= v <= get_max_value_for_depth dp ->
  read_voxel dp (write_voxel dp d i v) i = v.
Proof.
  intros Hdp Hi Hlen H32 Hv.
  destruct dp; try congruence; cbn [read_voxel write_voxel];
    bytes_per_voxel_values; cbn in Hv.
  - rewrite load8_store8_eq by lia. apply to_uint8_small. lia.
  - unfold typed_load, typed_store. rewrite load_le_store_le_eq by lia.
    apply Z.mod_small. cbn. lia.
  - rewrite !to_uint32_small by lia.
    rewrite (load8_store8_ne _ (i * 3 + 2)), (load8_store8_ne _ (i * 3 + 1)) by lia.
    rewrite (load8_store8_ne _ (i * 3 + 2)) by lia.
    rewrite !load8_store8_eq by (rewrite ?length_store8; lia).
    rewrite !to_uint8_small by apply land_255_range.
    apply lor_of_bytes_24. lia.
  - unfold typed_load, typed_store. rewrite load_le_store_le_eq by lia.
    apply Z.mod_small. cbn. lia.
  - unfold typed_load, typed_store. rewrite load_le_store_le_eq by lia.
    apply Z.mod_small. cbn. lia.
Qed.

Lemma read_write_voxel_ne (dp : Depth) (d : Bytes) (i j v : Z) :
  dp <> DEPTH_1_BIT ->
  0 <= i -> 0 <= j -> i <> j ->
  (i + 1) * bytes_per_voxel dp <= Z.of_nat (length d) ->
  (j + 1) * bytes_per_voxel dp <= Z.of_nat (length d) ->
  Z.of_nat (length d) < 2 ^ 32 ->
  read_voxel dp (write_voxel dp d i v) j = read_voxel dp d j.
Proof.
  intros Hdp Hi Hj Hne Hli Hlj H32.
  destruct dp; try congruence; cbn [read_voxel write_voxel];
    bytes_per_voxel_values.
  - apply load8_store8_ne; lia.
  - unfold typed_load, typed_store. apply load_le_store_le_disjoint; lia.
  - rewrite !to_uint32_small by lia.
    rewrite !load8_store8_ne by lia. reflexivity.
  - unfold typed_load, typed_store. apply load_le_store_le_disjoint; lia.
  - unfold typed_load, typed_store. apply load_le_store_le_disjoint; lia.
Qed.

(** ** Loops *)

Lemma iterate_invariant {A : Type} (P : Z -> A -> Prop) (body : Z -> A -> A) :
  forall (n : nat) (i0 : Z) (s : A),
    P i0 s ->
    (forall i s, i0 <= i < i0 + Z.of_nat n -> P i s -> P (i + 1) (body i s)) ->
    P (i0 + Z.of_nat n) (iterate n i0 body s).
Proof.
  induction n as [|n IH]; intros i0 s H0 Hstep; cbn [iterate].
  - replace (i0 + Z.of_nat 0) with i0 by lia. exact H0.
  - replace (i0 + Z.of_nat (S n)) with (i0 + 1 + Z.of_nat n) by lia.
    apply IH.
    + apply Hstep; [lia | exact H0].
    + intros i s' Hi. apply Hstep. lia.
Qed.

Lemma iterate_ext {A : Type} (body body' : Z -> A -> A) :
  forall (n : nat) (i0 : Z) (s : A),
    (forall i s, i0 <= i < i0 + Z.of_nat n -> body i s = body' i s) ->
    iterate n i0 body s = iterate n i0 body' s.
Proof.
  induction n as [|n IH]; intros i0 s H; cbn [iterate]; [reflexivity|].
  rewrite H by lia. apply IH. intros i s' Hi. apply H. lia.
Qed.

Lemma iterate_write_voxel (dp : Depth) (n : Z) (d : Bytes) (v : Z) :
  dp <> DEPTH_1_BIT ->
  0 <= n -> n * bytes_per_voxel dp <= Z.of_nat (length d) ->
  Z.of_nat (length d) < 2 ^ 32 ->
  0 <= v <= get_max_value_for_depth dp ->
  let d' := iterate (Z.to_nat n) 0 (fun i d => write_voxel dp d i v) d in
  length d' = length d /\
  forall j, 0 <= j < n -> read_voxel dp d' j = v.
Proof.
  intros Hdp Hn Hlen H32 Hv d'.
  pose proof (bytes_per_voxel_pos dp Hdp) as Hb.
  assert (H : length d' = length d /\
              forall j, 0 <= j < 0 + Z.of_nat (Z.to_nat n) -> read_voxel dp d' j = v).
  { subst d'.
    apply (iterate_invariant
             (fun i d1 => length d1 = length d /\
                          forall j, 0 <= j < i -> read_voxel dp d1 j = v)).
    - split; [reflexivity | intros j Hj; lia].
    - intros i d1 Hi [Hl Hr]. split.
      + rewrite length_write_voxel. exact Hl.
      + intros j Hj. destruct (Z.eq_dec j i) as [->|Hne].
        * apply read_write_voxel_eq; try assumption; try lia; rewrite Hl; nia.
        * rewrite read_write_voxel_ne; try assumption; try lia; try (rewrite Hl; nia).
          apply Hr. lia. }
  destruct H as [Hl Hr]. split; [exact Hl|].
  intros j Hj. apply Hr. lia.
Qed.

Lemma to_uint8_is_byte (v : Z) : is_byte (to_uint8 v).
Proof. unfold is_byte, to_uint8. apply Z.mod_pos_bound. lia. Qed.

Lemma Forall_store8 (d : Bytes) (i v : Z) :
  Forall is_byte d -> Forall is_byte (store8 d i v).
Proof. intros H. unfold store8. apply Forall_insert; [exact H | apply to_uint8_is_byte]. Qed.

Lemma Forall_store_le (w : nat) : forall (d : Bytes) (off v : Z),
  Forall is_byte d -> Forall is_byte (store_le w d off v).
Proof.
  induction w as [|w IH]; intros d off v H; cbn [store_le]; [exact H|].
  apply IH. apply Forall_store8. exact H.
Qed.

Lemma Forall_write_voxel (dp : Depth) (d : Bytes) (i v : Z) :
  Forall is_byte d -> Forall is_byte (write_voxel dp d i v).
Proof.
  intros H. destruct dp; cbn [write_voxel]; unfold typed_store;
    try (apply Forall_store_le; exact H);
    repeat apply Forall_store8; try exact H.
  destruct (negb (v =? 0)); apply Forall_store8; exact H.
Qed.

Lemma Forall_allocate (pool_bytes : Z -> nat -> Z) (n : Z) :
  Forall is_byte (allocate_channel_data pool_bytes n).
Proof.
  unfold allocate_channel_data. apply Forall_forall. intros x Hx.
  apply list_elem_of_fmap in Hx. destruct Hx as (k & -> & _). apply to_uint8_is_byte.
Qed.

Lemma length_allocate (pool_bytes : Z -> nat -> Z) (n : Z) :
  0 <= n -> Z.of_nat (length (allocate_channel_data pool_bytes n)) = n.
Proof.
  intros H. unfold allocate_channel_data. rewrite length_map, length_seq. lia.
Qed.

Lemma iterate_write_voxel_bytes (dp : Depth) (v : Z) :
  forall (n : nat) (i0 : Z) (d : Bytes),
    Forall is_byte d ->
    Forall is_byte (iterate n i0 (fun i d => write_voxel dp d i v) d).
Proof.
  induction n as [|n IH]; intros i0 d H; cbn [iterate]; [exact H|].
  apply IH. apply Forall_write_voxel. exact H.
Qed.

(** The loops of [fill] write each voxel as [set_voxel] does. *)
Lemma fill_voxels_is_write (dp : Depth) (d : Bytes) (volume size v : Z) :
  dp <> DEPTH_1_BIT -> dp <> DEPTH_8_BIT ->
  0 <= volume -> volume * bytes_per_voxel dp < 2 ^ 32 ->
  fill_voxels dp d volume size v
    = Finished (iterate (Z.to_nat volume) 0 (fun i d => write_voxel dp d i v) d) [].
Proof.
  intros H1 H8 Hv H32. destruct dp; try congruence; cbn [fill_voxels]; try reflexivity.
  bytes_per_voxel_values. unfold ret. f_equal. apply iterate_ext. intros i d1 Hi. cbn [write_voxel].
  rewrite !to_uint32_small by lia. reflexivity.
Qed.

Lemma load8_replicate (n : nat) (c : Z) (d : Bytes) (j : Z) :
  0 <= j < Z.of_nat n -> load8 (replicate n c ++ d) j = c.
Proof.
  intros H. unfold load8. rewrite lookup_app_l by (rewrite length_replicate; lia).
  rewrite lookup_replicate_2 by lia. reflexivity.
Qed.

Lemma fill_voxels_bytes (dp : Depth) (d : Bytes) (volume v : Z) :
  dp <> DEPTH_1_BIT ->
  0 <= volume -> Z.of_nat (length d) = volume * bytes_per_voxel dp ->
  Z.of_nat (length d) < 2 ^ 32 ->
  Forall is_byte d ->
  0 <= v <= get_max_value_for_depth dp ->
  exists d',
    fill_voxels dp d volume (Z.of_nat (length d)) v = Finished d' [] /\
    length d' = length d /\
    Forall is_byte d' /\
    forall j, 0 <= j < volume -> read_voxel dp d' j = v.
Proof.
  intros Hdp Hvol Hlen H32 Hb Hv.
  pose proof (bytes_per_voxel_pos dp Hdp) as Hbpv.
  destruct (decide (dp = DEPTH_8_BIT)) as [->|H8].
  - bytes_per_voxel_values. cbn [fill_voxels]. unfold memset.
    replace ((0 <=? Z.of_nat (length d)) && (Z.of_nat (length d) <=? Z.of_nat (length d)))
      with true by (symmetry; apply andb_true_intro; split; lia).
    rewrite Nat2Z.id. rewrite drop_all, app_nil_r.
    eexists. split; [reflexivity|]. split; [apply length_replicate|]. split.
    + apply Forall_replicate. apply to_uint8_is_byte.
    + intros j Hj. cbn [read_voxel]. cbn in Hv.
      rewrite <- (app_nil_r (replicate _ _)). rewrite load8_replicate by lia.
      apply to_uint8_small. lia.
  - rewrite fill_voxels_is_write by (try assumption; lia).
    eexists. split; [reflexivity|].
    destruct (iterate_write_voxel dp volume d v) as [Hl Hr]; try assumption; try lia.
    split; [exact Hl|]. split; [|exact Hr].
    apply iterate_write_voxel_bytes. exact Hb.
Qed.

(** ** Blocks *)

Lemma channel_at_set_channel_eq (b : VoxelBuffer) (i : nat) (c : Channel) :
  (i < length (_channels b))%nat -> channel_at (set_channel b i c) i = c.
Proof.
  intros H. unfold channel_at, set_channel. cbn [_channels].
  rewrite list_lookup_insert_eq by exact H. reflexivity.
Qed.

Lemma channel_at_set_channel_ne (b : VoxelBuffer) (i j : nat) (c : Channel) :
  i <> j -> channel_at (set_channel b i c) j = channel_at b j.
Proof.
  intros H. unfold channel_at, set_channel. cbn [_channels].
  rewrite list_lookup_insert_ne by exact H. reflexivity.
Qed.

Lemma set_channel_set_channel (b : VoxelBuffer) (i : nat) (c c' : Channel) :
  set_channel (set_channel b i c) i c' = set_channel b i c'.
Proof.
  unfold set_channel. cbn [_channels _size]. rewrite list_insert_insert_eq. reflexivity.
Qed.

Lemma length_set_channel (b : VoxelBuffer) (i : nat) (c : Channel) :
  length (_channels (set_channel b i c)) = length (_channels b).
Proof. unfold set_channel. cbn [_channels]. apply length_insert. Qed.

Lemma forallb_insert {A : Type} (f : A -> bool) (l : list A) (i : nat) (x : A) :
  forallb f l = true -> f x = true -> forallb f (<[i := x]> l) = true.
Proof.
  revert i. induction l as [|a l IH]; intros i Hl Hx; [exact Hl|].
  cbn [forallb] in Hl. apply andb_prop in Hl. destruct Hl as [Ha Hl].
  destruct i as [|i]; cbn; rewrite ?Hx, ?Ha; cbn; [exact Hl | apply IH; assumption].
Qed.

Lemma forallb_lookup {A : Type} (f : A -> bool) (l : list A) (i : nat) (x : A) :
  forallb f l = true -> l !! i = Some x -> f x = true.
Proof.
  revert i. induction l as [|a l IH]; intros i Hl Hi; [discriminate|].
  cbn [forallb] in Hl. apply andb_prop in Hl. destruct Hl as [Ha Hl].
  destruct i as [|i]; cbn in Hi; [congruence | eapply IH; eassumption].
Qed.

Lemma well_formed_spec (b : VoxelBuffer) : well_formed b = true -> WellFormed b.
Proof.
  unfold well_formed. intros H.
  repeat (apply andb_prop in H; destruct H as [H ?]).
  apply Nat.eqb_eq in H.
  split; [exact H | lia | lia |].
  intros i Hi. unfold channel_at.
  destruct (_channels b !! i) as [c|] eqn:E.
  - cbn. eapply forallb_lookup; eassumption.
  - apply lookup_ge_None in E. lia.
Qed.

Lemma well_formed_set_channel (b : VoxelBuffer) (i : nat) (c : Channel) :
  well_formed b = true -> channel_ok (_size b) c = true ->
  well_formed (set_channel b i c) = true.
Proof.
  unfold well_formed. intros H Hc. cbn [set_channel _channels _size].
  repeat (apply andb_prop in H; destruct H as [H ?]).
  repeat (apply andb_true_intro; split); try assumption.
  - rewrite length_insert. exact H.
  - apply forallb_insert; assumption.
Qed.

Lemma get_volume_small (b : VoxelBuffer) :
  WellFormed b -> get_volume b = vx (_size b) * vy (_size b) * vz (_size b).
Proof.
  intros [_ (Hx & Hy & Hz) Hv _]. unfold get_volume. apply to_uint32_small. nia.
Qed.

Lemma volume_pos (b : VoxelBuffer) : WellFormed b -> 0 < get_volume b.
Proof.
  intros H. rewrite get_volume_small by exact H.
  destruct H as [_ (Hx & Hy & Hz) _ _]. nia.
Qed.

Lemma validate_pos_spec (b : VoxelBuffer) (x y z : Z) :
  validate_pos b x y z = true ->
  0 <= x < vx (_size b) /\ 0 <= y < vy (_size b) /\ 0 <= z < vz (_size b).
Proof.
  unfold validate_pos. intros H.
  repeat (apply andb_prop in H; destruct H as [H ?]). lia.
Qed.

Lemma linear_index_bound (sx sy sz x y z : Z) :
  0 <= x < sx -> 0 <= y < sy -> 0 <= z < sz ->
  0 <= z * sx * sy + x * sy + y < sx * sy * sz.
Proof.
  intros Hx Hy Hz.
  assert (H1 : 0 <= x * sy) by nia.
  assert (H2 : x * sy <= (sx - 1) * sy) by nia.
  assert (H3 : 0 <= z * (sx * sy)) by nia.
  assert (H4 : z * (sx * sy) <= (sz - 1) * (sx * sy)) by nia.
  nia.
Qed.

Lemma linear_index_injective (sx sy sz x y z x' y' z' : Z) :
  0 <= x < sx -> 0 <= y < sy -> 0 <= z < sz ->
  0 <= x' < sx -> 0 <= y' < sy -> 0 <= z' < sz ->
  z * sx * sy + x * sy + y = z' * sx * sy + x' * sy + y' ->
  x = x' /\ y = y' /\ z = z'.
Proof.
  intros Hx Hy Hz Hx' Hy' Hz' H.
  assert (Hr : 0 <= x * sy + y < sx * sy) by nia.
  assert (Hr' : 0 <= x' * sy + y' < sx * sy) by nia.
  assert (Ez : z = z').
  { destruct (Z.lt_trichotomy z z') as [Hlt | [Heq | Hgt]]; [|exact Heq|].
    - assert ((z + 1) * (sx * sy) <= z' * (sx * sy)) by nia. nia.
    - assert ((z' + 1) * (sx * sy) <= z * (sx * sy)) by nia. nia. }
  subst z'.
  assert (Ex : x = x').
  { destruct (Z.lt_trichotomy x x') as [Hlt | [Heq | Hgt]]; [|exact Heq|].
    - assert ((x + 1) * sy <= x' * sy) by nia. nia.
    - assert ((x' + 1) * sy <= x * sy) by nia. nia. }
  subst x'. split; [reflexivity|]. split; [lia | reflexivity].
Qed.

Lemma index_linear (b : VoxelBuffer) (x y z : Z) :
  WellFormed b -> validate_pos b x y z = true ->
  index b x y z = z * vx (_size b) * vy (_size b) + x * vy (_size b) + y.
Proof.
  intros [_ (Hx & Hy & Hz) Hv _] Hp. apply validate_pos_spec in Hp.
  unfold index. apply to_uint32_small.
  pose proof (linear_index_bound (vx (_size b)) (vy (_size b)) (vz (_size b)) x y z) as H.
  lia.
Qed.

Lemma index_in_volume (b : VoxelBuffer) (x y z : Z) :
  WellFormed b -> validate_pos b x y z = true ->
  0 <= index b x y z < get_volume b.
Proof.
  intros Hwf Hp. rewrite index_linear, get_volume_small by assumption.
  apply validate_pos_spec in Hp. apply linear_index_bound; lia.
Qed.

Lemma index_injective (b : VoxelBuffer) (x y z x' y' z' : Z) :
  WellFormed b -> validate_pos b x y z = true -> validate_pos b x' y' z' = true ->
  index b x y z = index b x' y' z' -> x = x' /\ y = y' /\ z = z'.
Proof.
  intros Hwf Hp Hp'. rewrite !index_linear by assumption.
  apply validate_pos_spec in Hp. apply validate_pos_spec in Hp'.
  apply (linear_index_injective _ _ (vz (_size b))); lia.
Qed.

Lemma clamp_value_small (v : Z) (dp : Depth) :
  v <= get_max_value_for_depth dp -> clamp_value_for_depth v dp = v.
Proof.
  intros H. unfold clamp_value_for_depth.
  destruct (Z.geb_spec v (get_max_value_for_depth dp)); lia.
Qed.

Lemma clamp_value_range (v : Z) (dp : Depth) :
  0 <= v -> 0 <= clamp_value_for_depth v dp <= get_max_value_for_depth dp.
Proof.
  intros H. unfold clamp_value_for_depth.
  destruct (Z.geb_spec v (get_max_value_for_depth dp)); [|lia].
  destruct dp; cbn; lia.
Qed.

Lemma size_in_bytes_byte_depths (b : VoxelBuffer) (dp : Depth) :
  WellFormed b -> dp <> DEPTH_1_BIT ->
  get_size_in_bytes_for_volume (_size b) dp
    = Finished (get_volume b * bytes_per_voxel dp) [].
Proof.
  intros Hwf Hdp. pose proof (volume_pos b Hwf) as Hpos.
  pose proof (get_volume_small b Hwf) as Hvol.
  destruct Hwf as [_ _ Hv _]. rewrite <- Hvol in Hv.
  unfold get_size_in_bytes_for_volume. fold (get_volume b).
  replace (Depth_eqb dp DEPTH_1_BIT) with false by (destruct dp; (congruence || reflexivity)).
  cbn [andb]. unfold ret. f_equal.
  rewrite to_uint32_small by (destruct dp; cbn; lia).
  rewrite Z.shiftr_div_pow2 by lia.
  destruct dp; try congruence; bytes_per_voxel_values; cbn [get_depth_bit_count].
  - replace (get_volume b * 8) with (get_volume b * 1 * 2 ^ 3) by lia. apply Z.div_mul. lia.
  - replace (get_volume b * 16) with (get_volume b * 2 * 2 ^ 3) by lia. apply Z.div_mul. lia.
  - replace (get_volume b * 24) with (get_volume b * 3 * 2 ^ 3) by lia. apply Z.div_mul. lia.
  - replace (get_volume b * 32) with (get_volume b * 4 * 2 ^ 3) by lia. apply Z.div_mul. lia.
  - replace (get_volume b * 64) with (get_volume b * 8 * 2 ^ 3) by lia. apply Z.div_mul. lia.
Qed.

Lemma forallb_is_byte (d : Bytes) :
  forallb (fun x => (0 <=? x) && (x <? 2 ^ 8)) d = true <-> Forall is_byte d.
Proof.
  unfold is_byte. induction d as [|a d IH]; cbn [forallb].
  - split; [constructor | reflexivity].
  - rewrite andb_true_iff, IH, Forall_cons. rewrite andb_true_iff. intuition lia.
Qed.

(** What [channel_ok] says of a channel whose depth is whole bytes. *)
Lemma channel_ok_defval (size : Vector3i) (c : Channel) :
  channel_ok size c = true -> 0 <= defval c <= get_max_value_for_depth (depth c).
Proof.
  unfold channel_ok. intros H.
  repeat (apply andb_prop in H; destruct H as [H ?]). lia.
Qed.

Lemma channel_ok_data (b : VoxelBuffer) (c : Channel) (d : Bytes) :
  WellFormed b -> channel_ok (_size b) c = true ->
  data c = Some d -> depth c <> DEPTH_1_BIT ->
  Z.of_nat (length d) = get_volume b * bytes_per_voxel (depth c) /\
  size_in_bytes c = Z.of_nat (length d) /\
  Forall is_byte d.
Proof.
  intros Hwf H Hd Hdp. unfold channel_ok in H. rewrite Hd in H.
  rewrite size_in_bytes_byte_depths in H by assumption.
  apply andb_prop in H. destruct H as [_ H].
  apply andb_prop in H. destruct H as [H Hbytes].
  apply andb_prop in H. destruct H as [Hlen Hsize].
  apply forallb_is_byte in Hbytes. split; [lia|]. split; [lia | assumption].
Qed.

Lemma channel_ok_intro (b : VoxelBuffer) (d : Bytes) (v : Z) (dp : Depth) :
  WellFormed b -> dp <> DEPTH_1_BIT ->
  0 <= v <= get_max_value_for_depth dp ->
  Z.of_nat (length d) = get_volume b * bytes_per_voxel dp ->
  Forall is_byte d ->
  channel_ok (_size b) (mkChannel (Some d) v dp (Z.of_nat (length d))) = true.
Proof.
  intros Hwf Hdp Hv Hl Hb. unfold channel_ok. cbn [defval depth data size_in_bytes].
  rewrite size_in_bytes_byte_depths by assumption.
  repeat (apply andb_true_intro; split); try lia.
  apply forallb_is_byte. exact Hb.
Qed.

Lemma buffer_below_2_32 (b : VoxelBuffer) (dp : Depth) :
  WellFormed b -> dp <> DEPTH_1_BIT -> get_volume b * bytes_per_voxel dp < 2 ^ 32.
Proof.
  intros Hwf Hdp. pose proof (bytes_per_voxel_pos dp Hdp).
  pose proof (volume_pos b Hwf). rewrite get_volume_small in * by assumption.
  destruct Hwf as [_ _ Hv _]. nia.
Qed.

Section StorageProperties.

Variable pool_bytes : Z -> nat -> Z.

(** [create_channel] on a uniform channel: the channel gets a buffer in
    which every voxel reads [v]. *)
Lemma create_channel_uniform (b : VoxelBuffer) (c : nat) (v : Z) :
  WellFormed b -> (c < MAX_CHANNELS)%nat ->
  depth (channel_at b c) <> DEPTH_1_BIT ->
  0 <= v <= get_max_value_for_depth (depth (channel_at b c)) ->
  exists d,
    create_channel pool_bytes b c (_size b) v
      = Finished (set_channel b c (mkChannel (Some d) (defval (channel_at b c))
                                             (depth (channel_at b c))
                                             (Z.of_nat (length d)))) [] /\
    Z.of_nat (length d) = get_volume b * bytes_per_voxel (depth (channel_at b c)) /\
    Forall is_byte d /\
    forall j, 0 <= j < get_volume b -> read_voxel (depth (channel_at b c)) d j = v.
Proof.
  intros Hwf Hc Hdp Hv.
  pose proof (wf_channels b Hwf) as Hlen.
  pose proof (volume_pos b Hwf) as Hpos.
  pose proof (bytes_per_voxel_pos _ Hdp) as Hbpv.
  pose proof (buffer_below_2_32 b _ Hwf Hdp) as H32.
  set (ch := channel_at b c) in *. set (dp := depth ch) in *.
  set (n := get_volume b * bytes_per_voxel dp) in *.
  set (a := allocate_channel_data pool_bytes n).
  assert (Ha : Z.of_nat (length a) = n) by (apply length_allocate; nia).
  destruct (fill_voxels_bytes dp a (get_volume b) v) as (d & Hfill & Hld & Hbd & Hrd);
    try assumption; try lia.
  { apply Forall_allocate. }
  exists d. split; [|split; [rewrite Hld; exact Ha | split; assumption]].
  unfold create_channel, create_channel_noinit. fold ch. fold dp.
  rewrite size_in_bytes_byte_depths by assumption. fold n. cbn [bind ret app].
  fold a. unfold fill.
  replace (c <? MAX_CHANNELS)%nat with true by (symmetry; apply Nat.ltb_lt; exact Hc).
  cbn [negb]. rewrite channel_at_set_channel_eq by lia.
  cbn [set_data depth data defval size_in_bytes].
  rewrite clamp_value_small by exact (proj2 Hv).
  unfold create_channel_noinit.
  rewrite channel_at_set_channel_eq by lia.
  cbn [set_data depth data defval size_in_bytes].
  change (_size (set_channel b c _)) with (_size b).
  rewrite size_in_bytes_byte_depths by assumption. fold n. cbn [bind ret app].
  fold a.
  rewrite set_channel_set_channel, channel_at_set_channel_eq by lia.
  cbn [set_data depth data defval size_in_bytes option.default default].
  change (get_volume (set_channel b c _)) with (get_volume b).
  rewrite Ha in Hfill. subst a n dp ch. unfold id.
  rewrite Hfill. cbn [bind ret app].
  rewrite set_channel_set_channel. cbn [set_data data defval depth size_in_bytes].
  rewrite Hld, Ha. reflexivity.
Qed.

End StorageProperties.

Lemma get_voxel_set_channel (b : VoxelBuffer) (c : nat) (ch : Channel) (x y z : Z) :
  (c < MAX_CHANNELS)%nat -> length (_channels b) = MAX_CHANNELS ->
  validate_pos b x y z = true ->
  get_voxel (set_channel b c ch) x y z c =
    match data ch with
    | Some d => read_voxel (depth ch) d (index b x y z)
    | None => defval ch
    end.
Proof.
  intros Hc Hlen Hp. unfold get_voxel.
  replace (c <? MAX_CHANNELS)%nat with true by (symmetry; apply Nat.ltb_lt; exact Hc).
  cbn [negb]. rewrite channel_at_set_channel_eq by lia.
  change (validate_pos (set_channel b c ch) x y z) with (validate_pos b x y z).
  rewrite Hp. reflexivity.
Qed.

Lemma get_voxel_in_range (b : VoxelBuffer) (c : nat) (x y z : Z) :
  (c < MAX_CHANNELS)%nat -> validate_pos b x y z = true ->
  get_voxel b x y z c =
    match data (channel_at b c) with
    | Some d => read_voxel (depth (channel_at b c)) d (index b x y z)
    | None => defval (channel_at b c)
    end.
Proof.
  intros Hc Hp. unfold get_voxel.
  replace (c <? MAX_CHANNELS)%nat with true by (symmetry; apply Nat.ltb_lt; exact Hc).
  cbn [negb]. rewrite Hp. reflexivity.
Qed.

Section SetVoxel.

Variable pool_bytes : Z -> nat -> Z.

(** The block [set_voxel] returns at a position in range: either the block
    it got (a uniform channel that already holds the value), or the block
    with the voxel written in the buffer [d0] of the channel, which is the
    buffer it had or a new one in which every voxel reads [defval]. *)
Lemma set_voxel_in_range (b : VoxelBuffer) (v x y z : Z) (c : nat) :
  WellFormed b -> (c < MAX_CHANNELS)%nat -> validate_pos b x y z = true -> 0 <= v ->
  let ch := channel_at b c in
  let v' := clamp_value_for_depth v (depth ch) in
  depth ch <> DEPTH_1_BIT ->
  (data ch = None /\ defval ch = v' /\
   set_voxel pool_bytes b v x y z c = Finished b [])
  \/
  exists d0,
    (data ch = Some d0 \/
     data ch = None /\ forall j, 0 <= j < get_volume b -> read_voxel (depth ch) d0 j = defval ch) /\
    Z.of_nat (length d0) = get_volume b * bytes_per_voxel (depth ch) /\
    Forall is_byte d0 /\
    set_voxel pool_bytes b v x y z c
      = Finished (set_channel b c
                    (mkChannel (Some (write_voxel (depth ch) d0 (index b x y z) v'))
                               (defval ch) (depth ch) (Z.of_nat (length d0)))) [].
Proof.
  intros Hwf Hc Hp Hv ch v' Hdp.
  pose proof (wf_channels b Hwf) as Hlen.
  pose proof (wf_channel_ok b Hwf c Hc) as Hok. fold ch in Hok.
  unfold set_voxel.
  replace (c <? MAX_CHANNELS)%nat with true by (symmetry; apply Nat.ltb_lt; exact Hc).
  rewrite Hp. cbn [negb]. fold ch. fold v'.
  destruct (data ch) as [d|] eqn:Ed.
  - right. exists d.
    destruct (channel_ok_data b ch d Hwf Hok Ed Hdp) as (Hl & Hs & Hb).
    split; [left; reflexivity|]. split; [exact Hl|]. split; [exact Hb|].
    cbn [bind ret app]. fold ch. rewrite Ed. cbn [default from_option id].
    unfold set_data. rewrite Hs. reflexivity.
  - destruct (Z.eqb_spec (defval ch) v') as [E|E]; cbn [negb bind ret app].
    + left. auto.
    + right.
      destruct (create_channel_uniform pool_bytes b c (defval ch) Hwf Hc Hdp
                  (channel_ok_defval _ _ Hok)) as (d0 & Hcreate & Hl & Hb & Hr).
      exists d0. split; [right; split; [reflexivity | exact Hr]|].
      split; [exact Hl|]. split; [exact Hb|].
      fold ch in Hcreate. rewrite Hcreate. cbn [bind ret app].
      rewrite channel_at_set_channel_eq by lia.
      cbn [data depth defval size_in_bytes set_data default from_option id].
      rewrite set_channel_set_channel. reflexivity.
Qed.

(** The round trip of the document at every depth of whole bytes:
    [get_voxel] after [set_voxel] returns the clamped value, the block stays
    well formed, nothing is printed, every other position and channel reads
    as before (for a channel that was uniform, its [defval]), and the size
    and the depths are those of the block. *)
Theorem set_get_voxel_whole_bytes (b : VoxelBuffer) (v x y z : Z) (c : nat) :
  well_formed b = true -> (c < MAX_CHANNELS)%nat ->
  validate_pos b x y z = true -> 0 <= v ->
  depth (channel_at b c) <> DEPTH_1_BIT ->
  exists b',
    set_voxel pool_bytes b v x y z c = Finished b' [] /\
    well_formed b' = true /\
    get_voxel b' x y z c = clamp_value_for_depth v (depth (channel_at b c)) /\
    (forall x' y' z',
        validate_pos b x' y' z' = true -> (x', y', z') <> (x, y, z) ->
        get_voxel b' x' y' z' c = get_voxel b x' y' z' c) /\
    (forall c' x' y' z', c' <> c -> get_voxel b' x' y' z' c' = get_voxel b x' y' z' c') /\
    _size b' = _size b /\
    (forall c', depth (channel_at b' c') = depth (channel_at b c')).
Proof.
  intros Hwfb Hc Hp Hv Hdp. pose proof (well_formed_spec b Hwfb) as Hwf.
  pose proof (wf_channels b Hwf) as Hlen.
  pose proof (wf_channel_ok b Hwf c Hc) as Hok.
  pose proof (index_in_volume b x y z Hwf Hp) as Hi.
  pose proof (buffer_below_2_32 b _ Hwf Hdp) as H32.
  pose proof (bytes_per_voxel_pos _ Hdp) as Hbpv.
  pose proof (clamp_value_range v (depth (channel_at b c)) Hv) as Hv'.
  destruct (set_voxel_in_range b v x y z c Hwf Hc Hp Hv Hdp)
    as [(Ed & Edef & Hset) | (d0 & Hd0 & Hl & Hb & Hset)].
  - exists b. split; [exact Hset|]. split; [exact Hwfb|].
    split; [|repeat split; intros; reflexivity].
    rewrite get_voxel_in_range, Ed by assumption. exact Edef.
  - eexists. split; [exact Hset|]. split; [|split; [|split; [|split; [|split]]]].
    + apply well_formed_set_channel; [exact Hwfb|].
      rewrite <- (length_write_voxel (depth (channel_at b c)) d0 (index b x y z)
                    (clamp_value_for_depth v (depth (channel_at b c)))).
      apply channel_ok_intro; try assumption.
      * apply (channel_ok_defval _ _ Hok).
      * rewrite length_write_voxel. exact Hl.
      * apply Forall_write_voxel. exact Hb.
    + rewrite get_voxel_set_channel by assumption. cbn [data depth].
      apply read_write_voxel_eq; try assumption; try lia. nia.
    + intros x' y' z' Hp' Hne.
      pose proof (index_in_volume b x' y' z' Hwf Hp') as Hi'.
      rewrite get_voxel_set_channel by assumption. cbn [data depth].
      rewrite read_write_voxel_ne; try assumption; try lia; try nia.
      * rewrite get_voxel_in_range by assumption.
        destruct Hd0 as [-> | [-> Hr]]; [reflexivity | apply Hr; lia].
      * intros E. apply (index_injective b) in E; try assumption.
        destruct E as (-> & -> & ->). apply Hne. reflexivity.
    + intros c' x' y' z' Hne. unfold get_voxel.
      rewrite channel_at_set_channel_ne by congruence. reflexivity.
    + reflexivity.
    + intros c'. destruct (Nat.eq_dec c' c) as [->|Hne].
      * rewrite channel_at_set_channel_eq by lia. reflexivity.
      * rewrite channel_at_set_channel_ne by congruence. reflexivity.
Qed.

End SetVoxel.

(** ** Loops that can fail *)

Lemma for_loop_invariant {A : Type} (P : Z -> A -> Prop) (body : Z -> A -> Outcome A) :
  forall (n : nat) (i0 : Z) (s : A),
    P i0 s ->
    (forall i s, i0 <= i < i0 + Z.of_nat n -> P i s ->
                 exists s', body i s = Finished s' [] /\ P (i + 1) s') ->
    exists s', for_loop n i0 body s = Finished s' [] /\ P (i0 + Z.of_nat n) s'.
Proof.
  induction n as [|n IH]; intros i0 s H0 Hstep; cbn [for_loop].
  - exists s. split; [reflexivity|]. replace (i0 + Z.of_nat 0) with i0 by lia. exact H0.
  - destruct (Hstep i0 s) as (s1 & E1 & H1); [lia | exact H0 |].
    destruct (IH (i0 + 1) s1 H1) as (s' & E' & H').
    { intros i s2 Hi. apply Hstep. lia. }
    exists s'. rewrite E1. cbn [bind]. rewrite E'. cbn [app].
    split; [reflexivity|].
    replace (i0 + Z.of_nat (S n)) with (i0 + 1 + Z.of_nat n) by lia. exact H'.
Qed.

(** ** Uniform channels *)

Lemma clear_channel_result (b : VoxelBuffer) (c : nat) (v : Z) :
  (c < MAX_CHANNELS)%nat -> length (_channels b) = MAX_CHANNELS ->
  clear_channel b c v
    = Finished (set_channel b c
                  (mkChannel None
                     (clamp_value_for_depth v (depth (channel_at b c)))
                     (depth (channel_at b c))
                     (if has_data (channel_at b c) then 0
                      else size_in_bytes (channel_at b c)))) [].
Proof.
  intros Hc Hlen. unfold clear_channel, delete_channel, has_data.
  replace (c <? MAX_CHANNELS)%nat with true by (symmetry; apply Nat.ltb_lt; exact Hc).
  cbn [negb]. destruct (data (channel_at b c)) as [d|] eqn:E; cbn [bind ret app].
  - rewrite channel_at_set_channel_eq, set_channel_set_channel by lia. reflexivity.
  - unfold set_defval. rewrite E. reflexivity.
Qed.

Lemma is_uniform_set_channel_ne (b : VoxelBuffer) (i j : nat) (ch : Channel) :
  i <> j -> is_uniform (set_channel b i ch) j = is_uniform b j.
Proof.
  intros H. unfold is_uniform. rewrite channel_at_set_channel_ne by exact H.
  reflexivity.
Qed.

(** One turn of the loop of [compress_uniform_channels]. *)
Lemma compress_step (b : VoxelBuffer) (i : nat) :
  (i < MAX_CHANNELS)%nat -> length (_channels b) = MAX_CHANNELS ->
  let ch := channel_at b i in
  exists b',
    match data ch with
    | Some d =>
        if is_uniform b i then clear_channel b i (load8 d 0) else ret b
    | None => ret b
    end = Finished b' [] /\
    b' = (if has_data ch && is_uniform b i
          then set_channel b i
                 (mkChannel None
                    (clamp_value_for_depth (load8 (default [] (data ch)) 0) (depth ch))
                    (depth ch) 0)
          else b).
Proof.
  intros Hi Hlen ch. unfold has_data. fold ch.
  destruct (data ch) as [d|] eqn:E; [|exists b; split; reflexivity].
  destruct (is_uniform b i); [|exists b; split; reflexivity].
  rewrite clear_channel_result by assumption. fold ch. unfold has_data. rewrite E.
  eexists. split; reflexivity.
Qed.


Lemma compress_uniform_channels_spec (b : VoxelBuffer) :
  length (_channels b) = MAX_CHANNELS ->
  exists b',
    compress_uniform_channels b = Finished b' [] /\
    _size b' = _size b /\ length (_channels b') = MAX_CHANNELS /\
    forall i, (i < MAX_CHANNELS)%nat ->
      channel_at b' i =
        (if has_data (channel_at b i) && is_uniform b i
         then mkChannel None
                (clamp_value_for_depth (load8 (default [] (data (channel_at b i))) 0)
                                       (depth (channel_at b i)))
                (depth (channel_at b i)) 0
         else channel_at b i).
Proof.
  intros Hlen. unfold compress_uniform_channels, for_range.
  destruct (for_loop_invariant
              (fun k b1 =>
                 _size b1 = _size b /\ length (_channels b1) = MAX_CHANNELS /\
                 forall i, (i < MAX_CHANNELS)%nat ->
                   channel_at b1 i =
                     (if (Z.of_nat i <? k) && has_data (channel_at b i) && is_uniform b i
                      then mkChannel None
                             (clamp_value_for_depth
                                (load8 (default [] (data (channel_at b i))) 0)
                                (depth (channel_at b i)))
                             (depth (channel_at b i)) 0
                      else channel_at b i))
              (fun i b =>
                 match data (channel_at b (Z.to_nat i)) with
                 | Some d =>
                     if is_uniform b (Z.to_nat i)
                     then clear_channel b (Z.to_nat i) (load8 d 0) else ret b
                 | None => ret b
                 end)
              (Z.to_nat (Z.of_nat MAX_CHANNELS - 0)) 0 b)
    as (b' & E & Hs & Hl & Hch).
  - split; [reflexivity|]. split; [exact Hlen|]. intros i Hi.
    replace (Z.of_nat i <? 0) with false by (symmetry; apply Z.ltb_ge; lia). reflexivity.
  - intros k b1 Hk (Hs & Hl & Hch). cbn in Hk.
    destruct (compress_step b1 (Z.to_nat k)) as (b2 & E & ->); [cbn; lia | exact Hl |].
    exists (if has_data (channel_at b1 (Z.to_nat k)) && is_uniform b1 (Z.to_nat k)
            then set_channel b1 (Z.to_nat k)
                   (mkChannel None
                      (clamp_value_for_depth
                         (load8 (default [] (data (channel_at b1 (Z.to_nat k)))) 0)
                         (depth (channel_at b1 (Z.to_nat k))))
                      (depth (channel_at b1 (Z.to_nat k))) 0)
            else b1).
    split; [exact E|].
    assert (Hk1 : channel_at b1 (Z.to_nat k) = channel_at b (Z.to_nat k)).
    { rewrite Hch by (cbn; lia).
      replace (Z.of_nat (Z.to_nat k) <? k) with false by (symmetry; apply Z.ltb_ge; lia).
      reflexivity. }
    assert (Hu : is_uniform b1 (Z.to_nat k) = is_uniform b (Z.to_nat k)).
    { unfold is_uniform, get_volume. rewrite Hk1, Hs. reflexivity. }
    rewrite Hk1, Hu.
    destruct (has_data (channel_at b (Z.to_nat k)) && is_uniform b (Z.to_nat k)) eqn:Ek.
    + split; [exact Hs|]. split; [rewrite length_set_channel; exact Hl|].
      intros i Hi. destruct (Nat.eq_dec i (Z.to_nat k)) as [->|Hne].
      * rewrite channel_at_set_channel_eq by lia.
        replace (Z.of_nat (Z.to_nat k) <? k + 1) with true by (symmetry; apply Z.ltb_lt; lia).
        cbn [andb]. rewrite Ek. reflexivity.
      * rewrite channel_at_set_channel_ne by congruence. rewrite Hch by exact Hi.
        replace (Z.of_nat i <? k + 1) with (Z.of_nat i <? k); [reflexivity|].
        destruct (Z.ltb_spec (Z.of_nat i) k), (Z.ltb_spec (Z.of_nat i) (k + 1));
          try reflexivity; lia.
    + split; [exact Hs|]. split; [exact Hl|].
      intros i Hi. rewrite Hch by exact Hi.
      destruct (Nat.eq_dec i (Z.to_nat k)) as [->|Hne].
      * rewrite <- !andb_assoc, !Ek, !andb_false_r. reflexivity.
      * replace (Z.of_nat i <? k + 1) with (Z.of_nat i <? k); [reflexivity|].
        destruct (Z.ltb_spec (Z.of_nat i) k), (Z.ltb_spec (Z.of_nat i) (k + 1));
          try reflexivity; lia.
  - exists b'. split; [exact E|]. split; [exact Hs|]. split; [exact Hl|].
    intros i Hi. rewrite Hch by exact Hi.
    replace (Z.of_nat i <? 0 + Z.of_nat (Z.to_nat (Z.of_nat MAX_CHANNELS - 0))) with true;
      [reflexivity|].
    change (0 + Z.of_nat (Z.to_nat (Z.of_nat MAX_CHANNELS - 0))) with 8.
    symmetry. apply Z.ltb_lt. unfold MAX_CHANNELS in Hi. lia.
Qed.


Lemma index_surjective (b : VoxelBuffer) (i : Z) :
  WellFormed b -> 0 <= i < get_volume b ->
  exists x y z, validate_pos b x y z = true /\ index b x y z = i.
Proof.
  intros Hwf Hi. rewrite get_volume_small in Hi by exact Hwf.
  pose proof (wf_size b Hwf) as (Hx & Hy & Hz).
  set (sx := vx (_size b)) in *. set (sy := vy (_size b)) in *.
  set (sz := vz (_size b)) in *.
  pose proof (Z.div_mod i sy ltac:(lia)) as E1.
  pose proof (Z.mod_pos_bound i sy Hy) as B1.
  pose proof (Z.div_mod (i / sy) sx ltac:(lia)) as E2.
  pose proof (Z.mod_pos_bound (i / sy) sx Hx) as B2.
  assert (B3 : 0 <= i / sy) by (apply Z.div_pos; lia).
  assert (B4 : 0 <= i / sy / sx) by (apply Z.div_pos; lia).
  assert (B5 : i / sy / sx < sz).
  { apply Z.div_lt_upper_bound; [lia|]. apply Z.div_lt_upper_bound; [lia|]. nia. }
  exists ((i / sy) mod sx), (i mod sy), (i / sy / sx).
  assert (Hp : validate_pos b ((i / sy) mod sx) (i mod sy) (i / sy / sx) = true).
  { unfold validate_pos. fold sx sy sz.
    repeat (apply andb_true_intro; split); lia. }
  split; [exact Hp|]. rewrite index_linear by assumption. fold sx sy. nia.
Qed.

Lemma typed_load_1 (d : Bytes) (i : Z) : typed_load 1 d i = load8 d i.
Proof. unfold typed_load. cbn [load_le]. replace (i * Z.of_nat 1) with i by lia. lia. Qed.


(** ** Copies *)

Lemma Depth_eqb_refl (d : Depth) : Depth_eqb d d = true.
Proof. destruct d; reflexivity. Qed.

Lemma Vector3i_eqb_refl (v : Vector3i) : Vector3i_eqb v v = true.
Proof. unfold Vector3i_eqb. rewrite !Z.eqb_refl. reflexivity. Qed.



Lemma channels_eq (b b' : VoxelBuffer) :
  length (_channels b) = MAX_CHANNELS -> length (_channels b') = MAX_CHANNELS ->
  _size b = _size b' ->
  (forall i, (i < MAX_CHANNELS)%nat -> channel_at b i = channel_at b' i) ->
  b = b'.
Proof.
  destruct b as [l s], b' as [l' s']. cbn [_channels _size]. intros Hl Hl' -> H.
  f_equal. apply list_eq. intros i.
  destruct (Nat.lt_ge_cases i MAX_CHANNELS) as [Hi|Hi].
  - specialize (H i Hi). unfold channel_at in H. cbn [_channels] in H.
    destruct (l !! i) as [c|] eqn:E, (l' !! i) as [c'|] eqn:E'; cbn in H.
    + congruence.
    + apply lookup_ge_None in E'. lia.
    + apply lookup_ge_None in E. lia.
    + reflexivity.
  - rewrite !lookup_ge_None_2 by lia. reflexivity.
Qed.

Section CopyProperties.

Variable pool_bytes : Z -> nat -> Z.




End CopyProperties.

(** At a position out of range [try_set_voxel] returns the block unchanged
    and prints nothing. *)
Lemma try_set_voxel_out_of_range
    (pool_bytes : Z -> nat -> Z) (b : VoxelBuffer) (x y z value : Z) (c : nat) :
  (c < MAX_CHANNELS)%nat -> validate_pos b x y z = false ->
  try_set_voxel pool_bytes b x y z value c = Finished b [].
Proof.
  intros Hc Hp. unfold try_set_voxel.
  replace (c <? MAX_CHANNELS)%nat with true by (symmetry; apply Nat.ltb_lt; exact Hc).
  rewrite Hp. reflexivity.
Qed.

(** At a position in range [try_set_voxel] is [set_voxel] with the arguments
    moved by one place. *)
Lemma try_set_voxel_in_range
    (pool_bytes : Z -> nat -> Z) (b : VoxelBuffer) (x y z value : Z) (c : nat) :
  (c < MAX_CHANNELS)%nat -> validate_pos b x y z = true ->
  try_set_voxel pool_bytes b x y z value c
    = set_voxel pool_bytes b (to_uint64 x) y z value c.
Proof.
  intros Hc Hp. unfold try_set_voxel.
  replace (c <? MAX_CHANNELS)%nat with true by (symmetry; apply Nat.ltb_lt; exact Hc).
  rewrite Hp. reflexivity.
Qed.

Section RealProperties.

Variable float_of_bits : Z -> real_t.
Variable double_bits_of_uint64 : Z -> Z.

(** What [raw_voxel_to_real] returns at depth D8, for every raw value of the
    depth: the quotient [(raw - 127) / 127] cut to an integer. *)
Lemma raw_voxel_to_real_8_bit (raw : Z) :
  0 <= raw <= 255 ->
  raw_voxel_to_real float_of_bits double_bits_of_uint64 raw DEPTH_8_BIT
    = if raw =? 0 then None else if raw <? 254 then Some 0 else Some 1.
Proof.
  intros H.
  assert (Hall : forallb
            (fun n =>
               let raw := Z.of_nat n in
               match raw_voxel_to_real float_of_bits double_bits_of_uint64 raw DEPTH_8_BIT,
                     (if raw =? 0 then None else if raw <? 254 then Some 0 else Some 1) with
               | Some a, Some b => a =? b
               | None, None => true
               | _, _ => false
               end) (seq 0 256) = true) by (vm_compute; reflexivity).
  rewrite forallb_forall in Hall. specialize (Hall (Z.to_nat raw)).
  cbn zeta in Hall. rewrite Z2Nat.id in Hall by lia.
  assert (Hin : In (Z.to_nat raw) (seq 0 256)) by (apply in_seq; lia).
  specialize (Hall Hin).
  destruct (raw_voxel_to_real _ _ raw DEPTH_8_BIT) as [a|],
           (if raw =? 0 then None else if raw <? 254 then Some 0 else Some 1) as [b|];
    try discriminate; [|reflexivity].
  apply Z.eqb_eq in Hall. congruence.
Qed.

End RealProperties.

(** ** Downscaling *)

Lemma for_range_rule {A : Type} (P : Z -> A -> Prop) (Q : A -> Prop)
    (body : Z -> A -> Outcome A) (lo hi : Z) (s : A) :
  lo <= hi -> P lo s ->
  (forall i s, lo <= i < hi -> P i s ->
               exists s', body i s = Finished s' [] /\ P (i + 1) s') ->
  (forall s', P hi s' -> Q s') ->
  exists s', for_range lo hi body s = Finished s' [] /\ Q s'.
Proof.
  intros Hle H0 Hstep HQ. unfold for_range.
  destruct (for_loop_invariant P body (Z.to_nat (hi - lo)) lo s H0) as (s' & E & H').
  - intros i s1 Hi. apply Hstep. lia.
  - exists s'. split; [exact E|]. apply HQ.
    replace hi with (lo + Z.of_nat (Z.to_nat (hi - lo))) by lia. exact H'.
Qed.

Lemma clamp_axis_inside (v lo hi : Z) : lo <= v < hi -> clamp_axis v lo hi = v.
Proof.
  intros H. unfold clamp_axis.
  destruct (Z.ltb_spec v lo); [lia|]. destruct (Z.geb_spec v hi); lia.
Qed.

Lemma load_le_nonneg (w : nat) : forall (d : Bytes) (off : Z),
  Forall is_byte d -> 0 <= load_le w d off.
Proof.
  induction w as [|w IH]; intros d off H; cbn [load_le]; [lia|].
  pose proof (load8_range d off H). pose proof (IH d (off + 1) H). lia.
Qed.

Lemma read_voxel_nonneg (dp : Depth) (d : Bytes) (i : Z) :
  Forall is_byte d -> 0 <= read_voxel dp d i.
Proof.
  intros H. destruct dp; cbn [read_voxel]; unfold typed_load;
    try (apply load_le_nonneg; exact H).
  - apply Z.shiftr_nonneg. apply (load8_range d _ H).
  - apply (load8_range d _ H).
  - repeat (apply Z.lor_nonneg; split); try apply Z.shiftl_nonneg;
      apply (load8_range d _ H).
Qed.

Lemma channel_ok_bytes (size : Vector3i) (c : Channel) (d : Bytes) :
  channel_ok size c = true -> data c = Some d -> Forall is_byte d.
Proof.
  unfold channel_ok. intros H Hd. rewrite Hd in H.
  apply andb_prop in H. destruct H as [_ H].
  apply andb_prop in H. destruct H as [_ H].
  apply forallb_is_byte. exact H.
Qed.

Lemma get_voxel_nonneg (b : VoxelBuffer) (x y z : Z) (c : nat) :
  WellFormed b -> 0 <= get_voxel b x y z c.
Proof.
  intros Hwf. unfold get_voxel.
  destruct (Nat.ltb_spec c MAX_CHANNELS) as [Hc|Hc]; cbn [negb]; [|lia].
  pose proof (wf_channel_ok b Hwf c Hc) as Hok.
  pose proof (channel_ok_defval _ _ Hok) as Hdef.
  destruct (validate_pos b x y z); [|lia].
  destruct (data (channel_at b c)) as [d|] eqn:Ed; [|lia].
  apply read_voxel_nonneg. eapply channel_ok_bytes; eassumption.
Qed.

Lemma get_voxel_uniform (b : VoxelBuffer) (x y z : Z) (c : nat) :
  (c < MAX_CHANNELS)%nat -> has_data (channel_at b c) = false ->
  get_voxel b x y z c = defval (channel_at b c).
Proof.
  intros Hc Hd. unfold get_voxel, has_data in *.
  replace (c <? MAX_CHANNELS)%nat with true by (symmetry; apply Nat.ltb_lt; exact Hc).
  cbn [negb]. destruct (data (channel_at b c)); [discriminate|].
  destruct (validate_pos b x y z); reflexivity.
Qed.

Lemma written_start (d0 : VoxelBuffer) (c : nat) (val : Z -> Z -> Z -> Z) :
  well_formed d0 = true -> written d0 d0 c val (fun _ _ _ => False).
Proof. intros H. unfold written. repeat split; auto; intros; tauto. Qed.

Lemma written_ext (d0 d : VoxelBuffer) (c : nat) (val : Z -> Z -> Z -> Z)
    (W W' : Z -> Z -> Z -> Prop) :
  (forall x y z, W x y z <-> W' x y z) ->
  written d0 d c val W -> written d0 d c val W'.
Proof.
  intros HW (H1 & H2 & H3 & H4 & H5 & H6). unfold written.
  repeat split; try assumption.
  - intros x y z Hp Hn. apply H5; [exact Hp|]. rewrite HW. exact Hn.
  - intros x y z Hw. apply H6. rewrite HW. exact Hw.
Qed.

Section Downscale.

Variable pool_bytes : Z -> nat -> Z.

(** One voxel more. *)
Lemma written_set_voxel (d0 d : VoxelBuffer) (c : nat) (val : Z -> Z -> Z -> Z)
    (W : Z -> Z -> Z -> Prop) (x y z : Z) :
  (c < MAX_CHANNELS)%nat ->
  depth (channel_at d0 c) <> DEPTH_1_BIT ->
  (forall x y z, W x y z -> validate_pos d0 x y z = true) ->
  written d0 d c val W ->
  validate_pos d0 x y z = true -> 0 <= val x y z ->
  exists d',
    set_voxel pool_bytes d (val x y z) x y z c = Finished d' [] /\
    written d0 d' c val (fun x' y' z' => W x' y' z' \/ (x' = x /\ y' = y /\ z' = z)).
Proof.
  intros Hc Hdp HW (Hwf & Hs & Hd & Hoc & Hout & Hin) Hp Hv.
  assert (Hvp : forall x y z, validate_pos d x y z = validate_pos d0 x y z)
    by (intros; unfold validate_pos; rewrite Hs; reflexivity).
  destruct (set_get_voxel_whole_bytes pool_bytes d (val x y z) x y z c)
    as (d' & Hset & Hwf' & Hget & Hother & Hchan & Hs' & Hd');
    try assumption.
  { rewrite Hvp. exact Hp. }
  { rewrite Hd. exact Hdp. }
  exists d'. split; [exact Hset|]. unfold written.
  split; [exact Hwf'|]. split; [congruence|].
  split; [intros i; rewrite Hd'; apply Hd|].
  split; [intros c' x' y' z' Hne; rewrite Hchan by exact Hne; apply Hoc; exact Hne|].
  split.
  - intros x' y' z' Hp' Hn. rewrite Hother.
    + apply Hout; [exact Hp'|]. tauto.
    + rewrite Hvp. exact Hp'.
    + intros [= -> -> ->]. apply Hn. right. auto.
  - intros x' y' z' [Hw | (-> & -> & ->)].
    + destruct (decide ((x', y', z') = (x, y, z))) as [[= -> -> ->] | Hne].
      * rewrite Hget, Hd. reflexivity.
      * rewrite Hother; [apply Hin; exact Hw | rewrite Hvp; apply HW; exact Hw | exact Hne].
    + rewrite Hget, Hd. reflexivity.
Qed.

End Downscale.

Lemma validate_pos_intro (b : VoxelBuffer) (x y z : Z) :
  0 <= x < vx (_size b) -> 0 <= y < vy (_size b) -> 0 <= z < vz (_size b) ->
  validate_pos b x y z = true.
Proof.
  intros Hx Hy Hz. unfold validate_pos.
  repeat (apply andb_true_intro; split); lia.
Qed.

Section DownscaleChannel.

Variable pool_bytes : Z -> nat -> Z.

(** The loops of one channel write, at every position of the destination
    range, the voxel that the source holds at that same position. *)
Lemma downscale_channel_written
    (src d0 : VoxelBuffer) (src_min lo hi : Vector3i) (c : nat) :
  WellFormed src -> well_formed d0 = true -> (c < MAX_CHANNELS)%nat ->
  depth (channel_at d0 c) <> DEPTH_1_BIT ->
  0 <= vx lo <= vx hi -> vx hi <= vx (_size d0) ->
  0 <= vy lo <= vy hi -> vy hi <= vy (_size d0) ->
  0 <= vz lo <= vz hi -> vz hi <= vz (_size d0) ->
  (forall x y z,
      vx lo <= x < vx hi -> vy lo <= y < vy hi -> vz lo <= z < vz hi ->
      validate_pos src (vx src_min + Z.shiftl (x - vx lo) 1)
                       (vy src_min + Z.shiftl (y - vy lo) 1)
                       (vz src_min + Z.shiftl (z - vz lo) 1) = true) ->
  exists d',
    downscale_channel pool_bytes src d0 src_min lo hi c = Finished d' [] /\
    written d0 d' c (fun x y z => get_voxel src x y z c)
      (fun x y z => vx lo <= x < vx hi /\ vy lo <= y < vy hi /\ vz lo <= z < vz hi).
Proof.
  intros Hsrc Hwf Hc Hdp Hx Hx' Hy Hy' Hz Hz' Hcheck.
  set (val := fun x y z => get_voxel src x y z c).
  assert (Hval : forall x y z,
             (if has_data (channel_at src c)
              then get_voxel_v src (mkVector3i x y z) c
              else defval (channel_at src c)) = val x y z).
  { intros x y z. unfold val, get_voxel_v. cbn [vx vy vz].
    destruct (has_data (channel_at src c)) eqn:E; [reflexivity|].
    symmetry. apply get_voxel_uniform; assumption. }
  assert (Hvalid : forall x y z,
             vx lo <= x < vx hi /\ vy lo <= y < vy hi /\ vz lo <= z < vz hi ->
             validate_pos d0 x y z = true).
  { intros x y z H. apply validate_pos_intro; lia. }
  unfold downscale_channel.
  apply for_range_rule with
    (P := fun pz d =>
            written d0 d c val
              (fun x y z => vx lo <= x < vx hi /\ vy lo <= y < vy hi /\ vz lo <= z < pz)).
  - lia.
  - eapply written_ext; [|apply written_start; exact Hwf]. intros x y z. cbn beta. lia.
  - intros pz d Hpz Hin.
    apply for_range_rule with
      (P := fun px d =>
              written d0 d c val
                (fun x y z =>
                   vx lo <= x < vx hi /\ vy lo <= y < vy hi /\ vz lo <= z < pz
                   \/ (z = pz /\ vx lo <= x < px /\ vy lo <= y < vy hi))).
    + lia.
    + eapply written_ext; [|exact Hin]. intros x y z. cbn beta. lia.
    + intros px d1 Hpx Hin1.
      apply for_range_rule with
        (P := fun py d =>
                written d0 d c val
                  (fun x y z =>
                     (vx lo <= x < vx hi /\ vy lo <= y < vy hi /\ vz lo <= z < pz
                      \/ (z = pz /\ vx lo <= x < px /\ vy lo <= y < vy hi))
                     \/ (z = pz /\ x = px /\ vy lo <= y < py))).
      * lia.
      * eapply written_ext; [|exact Hin1]. intros x y z. cbn beta. lia.
      * intros py d2 Hpy Hin2. cbn [vx vy vz Vector3i_add Vector3i_sub Vector3i_shl].
        rewrite Hcheck by lia. cbn [negb]. rewrite Hval. unfold set_voxel_v. cbn [vx vy vz].
        pose proof (fun HW => written_set_voxel pool_bytes d0 d2 c val _ px py pz
                               Hc Hdp HW Hin2) as Hstep.
        destruct Hstep as (d3 & Hset & Hw3).
        -- intros x y z H. apply Hvalid. lia.
        -- apply Hvalid. lia.
        -- apply get_voxel_nonneg. exact Hsrc.
        -- exists d3. split; [exact Hset|].
           eapply written_ext; [|exact Hw3]. intros x y z. cbn beta. lia.
      * intros d2 Hd2. eapply written_ext; [|exact Hd2]. intros x y z. cbn beta. lia.
    + intros d1 Hd1. eapply written_ext; [|exact Hd1]. intros x y z. cbn beta. lia.
  - intros d Hd. exact Hd.
Qed.

End DownscaleChannel.

Lemma shiftr_1 (a : Z) : Z.shiftr a 1 = a / 2.
Proof. rewrite Z.shiftr_div_pow2 by lia. reflexivity. Qed.

Lemma shiftl_1 (a : Z) : Z.shiftl a 1 = a * 2.
Proof. rewrite Z.shiftl_mul_pow2 by lia. reflexivity. Qed.

Section DownscaleTo.

Variable pool_bytes : Z -> nat -> Z.

(** What [downscale_to] does: at every position of the destination range,
    in every channel, the destination gets the voxel the source holds at
    that same position (clamped to the depth of the destination), not the
    voxel at [src_min + 2 * (p - dst_min)]. *)
Theorem downscale_to_copies_position
    (src dst : VoxelBuffer) (src_min src_max dst_min : Vector3i) :
  well_formed src = true -> well_formed dst = true ->
  (forall i, (i < MAX_CHANNELS)%nat -> depth (channel_at dst i) <> DEPTH_1_BIT) ->
  axis_in_range (vx (_size src)) (vx (_size dst)) (vx src_min) (vx src_max) (vx dst_min) ->
  axis_in_range (vy (_size src)) (vy (_size dst)) (vy src_min) (vy src_max) (vy dst_min) ->
  axis_in_range (vz (_size src)) (vz (_size dst)) (vz src_min) (vz src_max) (vz dst_min) ->
  exists dst',
    downscale_to pool_bytes src dst src_min src_max dst_min = Finished dst' [] /\
    well_formed dst' = true /\
    forall c x y z,
      (c < MAX_CHANNELS)%nat ->
      vx dst_min <= x < vx dst_min + (vx src_max - vx src_min) / 2 ->
      vy dst_min <= y < vy dst_min + (vy src_max - vy src_min) / 2 ->
      vz dst_min <= z < vz dst_min + (vz src_max - vz src_min) / 2 ->
      get_voxel dst' x y z c
        = clamp_value_for_depth (get_voxel src x y z c) (depth (channel_at dst c)).
Proof.
  intros Hsrcb Hdstb Hdepth (Hx1 & Hx2 & Hx3 & Hx4) (Hy1 & Hy2 & Hy3 & Hy4)
         (Hz1 & Hz2 & Hz3 & Hz4).
  pose proof (well_formed_spec src Hsrcb) as Hsrc.
  pose proof (Z.div_pos (vx src_max - vx src_min) 2 ltac:(lia) ltac:(lia)) as Dx.
  pose proof (Z.div_pos (vy src_max - vy src_min) 2 ltac:(lia) ltac:(lia)) as Dy.
  pose proof (Z.div_pos (vz src_max - vz src_min) 2 ltac:(lia) ltac:(lia)) as Dz.
  pose proof (Z.mul_div_le (vx src_max - vx src_min) 2 ltac:(lia)) as Mx.
  pose proof (Z.mul_div_le (vy src_max - vy src_min) 2 ltac:(lia)) as My.
  pose proof (Z.mul_div_le (vz src_max - vz src_min) 2 ltac:(lia)) as Mz.
  set (hi := Vector3i_add dst_min (Vector3i_shr (Vector3i_sub src_max src_min) 1)).
  assert (Hhx : vx hi = vx dst_min + (vx src_max - vx src_min) / 2)
    by (unfold hi; cbn; apply f_equal, shiftr_1).
  assert (Hhy : vy hi = vy dst_min + (vy src_max - vy src_min) / 2)
    by (unfold hi; cbn; apply f_equal, shiftr_1).
  assert (Hhz : vz hi = vz dst_min + (vz src_max - vz src_min) / 2)
    by (unfold hi; cbn; apply f_equal, shiftr_1).
  assert (E1 : clamp_to src_min Vector3i_zero (_size src) = src_min).
  { destruct src_min as [a b c]. unfold clamp_to. cbn in *.
    rewrite !clamp_axis_inside by lia. reflexivity. }
  assert (E2 : clamp_to src_max Vector3i_zero (Vector3i_add (_size src) Vector3i_one)
               = src_max).
  { destruct src_max as [a b c]. unfold clamp_to. cbn in *.
    rewrite !clamp_axis_inside by lia. reflexivity. }
  assert (E3 : clamp_to dst_min Vector3i_zero (_size dst) = dst_min).
  { destruct dst_min as [a b c]. unfold clamp_to. cbn in *.
    rewrite !clamp_axis_inside by lia. reflexivity. }
  unfold downscale_to. cbv zeta. rewrite E1, E2. fold hi. rewrite E3.
  clearbody hi.
  assert (E4 : clamp_to hi Vector3i_zero (Vector3i_add (_size dst) Vector3i_one) = hi).
  { destruct hi as [a b c]. unfold clamp_to. cbn in *.
    rewrite !clamp_axis_inside by lia. reflexivity. }
  rewrite E4.
  apply for_range_rule with
    (P := fun k d =>
            well_formed d = true /\ _size d = _size dst /\
            (forall i, depth (channel_at d i) = depth (channel_at dst i)) /\
            forall c x y z,
              Z.of_nat c < k -> (c < MAX_CHANNELS)%nat ->
              vx dst_min <= x < vx hi -> vy dst_min <= y < vy hi ->
              vz dst_min <= z < vz hi ->
              get_voxel d x y z c
                = clamp_value_for_depth (get_voxel src x y z c)
                                        (depth (channel_at dst c))).
  - lia.
  - split; [exact Hdstb|]. split; [reflexivity|]. split; [reflexivity|]. intros; lia.
  - intros k d Hk (Hwf & Hs & Hd & Hdone).
    change (Z.of_nat MAX_CHANNELS) with 8 in Hk.
    assert (Hc : (Z.to_nat k < MAX_CHANNELS)%nat) by (unfold MAX_CHANNELS; lia).
    set (c := Z.to_nat k) in *.
    pose proof (well_formed_spec d Hwf) as Hwfd.
    destruct (negb (has_data (channel_at src c)) && negb (has_data (channel_at d c))
              && (defval (channel_at src c) =? defval (channel_at d c))) eqn:Eskip.
    + exists d. split; [reflexivity|]. split; [exact Hwf|]. split; [exact Hs|].
      split; [exact Hd|]. intros c' x y z Hlt Hc' Hpx Hpy Hpz.
      destruct (Nat.eq_dec c' c) as [->|Hne]; [|apply Hdone; try assumption; lia].
      apply andb_prop in Eskip. destruct Eskip as [Eskip Edef].
      apply andb_prop in Eskip. destruct Eskip as [Esrc Edst].
      apply negb_true_iff in Esrc. apply negb_true_iff in Edst. apply Z.eqb_eq in Edef.
      rewrite !get_voxel_uniform by assumption. rewrite Edef, <- Hd.
      symmetry. apply clamp_value_small.
      apply (channel_ok_defval (_size d)). apply (wf_channel_ok d Hwfd c Hc).
    + destruct (downscale_channel_written pool_bytes src d src_min dst_min hi c)
        as (d' & Hrun & Hw); try assumption; try (rewrite Hs; lia); try lia.
      { rewrite Hd. exact (Hdepth c Hc). }
      { intros x y z Hpx Hpy Hpz. rewrite !shiftl_1. apply validate_pos_intro; lia. }
      exists d'. split; [exact Hrun|].
      destruct Hw as (Hwf' & Hs' & Hd' & Hoc & _ & Hin).
      split; [exact Hwf'|]. split; [congruence|].
      split; [intros i; rewrite Hd'; apply Hd|].
      intros c' x y z Hlt Hc' Hpx Hpy Hpz.
      destruct (Nat.eq_dec c' c) as [->|Hne].
      * rewrite Hin by lia. rewrite Hd. reflexivity.
      * rewrite Hoc by exact Hne. apply Hdone; try assumption. lia.
  - intros d' (Hwf & _ & _ & Hdone). split; [exact Hwf|].
    intros c x y z Hc Hpx Hpy Hpz. apply Hdone; try assumption; try lia.
Qed.

(** Where the source channel is uniform, the voxel at the same position is
    the voxel at [src_min + 2 * (p - dst_min)], and the destination reads as
    the document says. *)
Corollary downscale_to_uniform_source
    (src dst : VoxelBuffer) (src_min src_max dst_min : Vector3i) (c : nat) :
  well_formed src = true -> well_formed dst = true ->
  (forall i, (i < MAX_CHANNELS)%nat -> depth (channel_at dst i) <> DEPTH_1_BIT) ->
  axis_in_range (vx (_size src)) (vx (_size dst)) (vx src_min) (vx src_max) (vx dst_min) ->
  axis_in_range (vy (_size src)) (vy (_size dst)) (vy src_min) (vy src_max) (vy dst_min) ->
  axis_in_range (vz (_size src)) (vz (_size dst)) (vz src_min) (vz src_max) (vz dst_min) ->
  (c < MAX_CHANNELS)%nat ->
  has_data (channel_at src c) = false ->
  depth (channel_at src c) = depth (channel_at dst c) ->
  exists dst',
    downscale_to pool_bytes src dst src_min src_max dst_min = Finished dst' [] /\
    forall x y z,
      vx dst_min <= x < vx dst_min + (vx src_max - vx src_min) / 2 ->
      vy dst_min <= y < vy dst_min + (vy src_max - vy src_min) / 2 ->
      vz dst_min <= z < vz dst_min + (vz src_max - vz src_min) / 2 ->
      get_voxel dst' x y z c
        = get_voxel src (vx src_min + 2 * (x - vx dst_min))
                        (vy src_min + 2 * (y - vy dst_min))
                        (vz src_min + 2 * (z - vz dst_min)) c.
Proof.
  intros Hsrc Hdst Hdepth Hx Hy Hz Hc Hu Hd.
  destruct (downscale_to_copies_position src dst src_min src_max dst_min
              Hsrc Hdst Hdepth Hx Hy Hz) as (dst' & Hrun & _ & Hget).
  exists dst'. split; [exact Hrun|]. intros x y z Hpx Hpy Hpz.
  rewrite Hget by assumption. rewrite !get_voxel_uniform by assumption.
  rewrite <- Hd. apply clamp_value_small.
  apply (channel_ok_defval (_size src)).
  apply (wf_channel_ok src (well_formed_spec src Hsrc) c Hc).
Qed.

End DownscaleTo.

(** The general statements at a block: a new 16x16x16 block, a value above
    the depth, the position (3,4,5). *)
Example set_get_voxel_new_block (pool_bytes : Z -> nat -> Z) :
  exists b',
    set_voxel pool_bytes (fresh_block 16 16 16) 300 3 4 5 CHANNEL_TYPE = Finished b' [] /\
    get_voxel b' 3 4 5 CHANNEL_TYPE = 255 /\
    get_voxel b' 5 4 3 CHANNEL_TYPE = 0.
Proof.
  destruct (set_get_voxel_whole_bytes pool_bytes (fresh_block 16 16 16) 300 3 4 5 CHANNEL_TYPE)
    as (b' & Hset & _ & Hget & Hother & _);
    [reflexivity | unfold MAX_CHANNELS, CHANNEL_TYPE; lia | reflexivity | lia
    | discriminate |].
  exists b'. split; [exact Hset|]. split; [exact Hget|].
  rewrite Hother; [reflexivity | reflexivity | discriminate].
Qed.

(** Scenario 3 of the document: [fill(7, TYPE)] on a materialised channel,
    then [compress_uniform_channels]. *)
Example fill_then_compress (pool_bytes : Z -> nat -> Z) :
  exists b1 b2 b3,
    decompress_channel pool_bytes (fresh_block 2 2 2) CHANNEL_TYPE = Finished b1 [] /\
    fill pool_bytes b1 7 CHANNEL_TYPE = Finished b2 [] /\
    has_data (channel_at b2 CHANNEL_TYPE) = true /\
    compress_uniform_channels b2 = Finished b3 [] /\
    is_uniform b3 CHANNEL_TYPE = true /\
    channel_at b3 CHANNEL_TYPE = mkChannel None 7 DEPTH_8_BIT 0.
Proof.
  do 3 eexists. split; [by_evaluation|]. split; [by_evaluation|].
  split_all; by_evaluation.
Qed.

(** ** The claims on the voxel block *)

Lemma validate_pos_cases_2 (b : VoxelBuffer) (x y z : Z) :
  _size b = mkVector3i 2 2 2 -> validate_pos b x y z = true ->
  (x = 0 \/ x = 1) /\ (y = 0 \/ y = 1) /\ (z = 0 \/ z = 1).
Proof.
  unfold validate_pos. intros ->. cbn [vx vy vz]. intros H.
  repeat (apply andb_prop in H; destruct H as [H ?]).
  lia.
Qed.

(** C4, at a source of 4x4x4.  With voxel (1,0,0) set to 9 and voxel (2,0,0)
    set to 5 in the TYPE channel of the source, [downscale_to] of the whole
    source into a 2x2x2 block writes 9 at (1,0,0): it reads the source at
    the destination position, not at [src_min + 2*(p - dst_min) = (2,0,0)],
    where the source holds 5. *)
Theorem downscale_reads_destination_position (pool_bytes : Z -> nat -> Z) :
  exists src dst dst',
    (let* b := create pool_bytes VoxelBuffer_new 4 4 4 in
     let* b := set_voxel pool_bytes b 9 1 0 0 CHANNEL_TYPE in
     set_voxel pool_bytes b 5 2 0 0 CHANNEL_TYPE) = Finished src [] /\
    create pool_bytes VoxelBuffer_new 2 2 2 = Finished dst [] /\
    well_formed src = true /\ well_formed dst = true /\
    downscale_to pool_bytes src dst (mkVector3i 0 0 0) (mkVector3i 4 4 4) (mkVector3i 0 0 0)
      = Finished dst' [] /\
    get_voxel dst' 1 0 0 CHANNEL_TYPE = 9 /\
    get_voxel src 2 0 0 CHANNEL_TYPE = 5.
Proof.
  do 3 eexists. split; [by_evaluation|]. split; [by_evaluation|].
  split_all; by_evaluation.
Qed.

(** C8, at the position (1,0,0) of a new 2x2x2 block.
    [try_set_voxel(1,0,0, 1, TYPE)] writes 1 at (0,0,1) and leaves (1,0,0)
    at 0, where [set_voxel(1, 1,0,0, TYPE)] writes it; and
    [try_set_voxel(1,0,0, 5, TYPE)] prints an error and writes nothing: the
    call hands [(x, y, z, value)] to the parameters [(value, x, y, z)]. *)
Theorem try_set_voxel_permutes_arguments (pool_bytes : Z -> nat -> Z) :
  let b := fresh_block 2 2 2 in
  well_formed b = true /\
  validate_pos b 1 0 0 = true /\
  exists b1 b2 b3,
    set_voxel pool_bytes b 1 1 0 0 CHANNEL_TYPE = Finished b1 [] /\
    try_set_voxel pool_bytes b 1 0 0 1 CHANNEL_TYPE = Finished b2 [] /\
    get_voxel b1 1 0 0 CHANNEL_TYPE = 1 /\
    get_voxel b2 1 0 0 CHANNEL_TYPE = 0 /\
    get_voxel b2 0 0 1 CHANNEL_TYPE = 1 /\
    set_voxel pool_bytes b 5 1 0 0 CHANNEL_TYPE = Finished b3 [] /\
    get_voxel b3 1 0 0 CHANNEL_TYPE = 5 /\
    try_set_voxel pool_bytes b 1 0 0 5 CHANNEL_TYPE = Finished b [ERR_FAIL_COND].
Proof.
  intros b. split_all; try by_evaluation.
  do 3 eexists. split; [by_evaluation|]. split; [by_evaluation|].
  split_all; by_evaluation.
Qed.

(** C9, at the raw value 200.  On a 16x16x16 block whose SDF channel (depth
    D8) is filled with 200, [get_voxel_f(0,0,0, SDF)] returns 0, where
    [(200 - 127) / 127] is the [real_t] 9643597 * 2^-24 (0.5748...): the
    quotient passes through the [uint64_t] result of [raw_voxel_to_real].
    With the [defval] 255 of a new block the result is exactly 1. *)
Theorem get_voxel_f_8_bit_truncates
    (float_of_bits : Z -> real_t) (double_bits_of_uint64 : Z -> Z)
    (pool_bytes : Z -> nat -> Z) :
  exists b,
    fill pool_bytes (fresh_block 16 16 16) 200 CHANNEL_SDF = Finished b [] /\
    well_formed b = true /\
    depth (channel_at b CHANNEL_SDF) = DEPTH_8_BIT /\
    get_voxel b 0 0 0 CHANNEL_SDF = 200 /\
    get_voxel_f float_of_bits double_bits_of_uint64 b 0 0 0 CHANNEL_SDF
      = Some (real_of_Z 0) /\
    real_div (real_sub (real_of_Z 200) (real_of_Z 127)) (real_of_Z 127)
      = S754_finite false 9643597 (-24) /\
    get_voxel_f float_of_bits double_bits_of_uint64 (fresh_block 16 16 16) 0 0 0 CHANNEL_SDF
      = Some (real_of_Z 1).
Proof.
  eexists. split; [by_evaluation|]. split_all; by_evaluation.
Qed.

(** ** The branches of the other depths *)

(** No method stores a depth ([reachable_depths] below), so that the blocks
    of a program have channels of depth D8 only.  The lemmas of this section
    record what the branches written for the other depths do, on blocks
    given by their state. *)

(** The read of a 1-bit voxel shifts the byte and keeps the bits above the
    voxel.  On the 2x2x2 block whose TYPE channel is uniform at depth D1
    with [defval] 1, [set_voxel(0, 0,0,0, TYPE)] followed by
    [get_voxel(0,0,0, TYPE)] returns 254, and the position (0,1,0) then
    reads 127. *)
Lemma set_get_voxel_1_bit_diverges (pool_bytes : Z -> nat -> Z) :
  well_formed block_1_bit = true /\
  data (channel_at block_1_bit CHANNEL_TYPE) = None /\
  defval (channel_at block_1_bit CHANNEL_TYPE) = 1 /\
  clamp_value_for_depth 0 (depth (channel_at block_1_bit CHANNEL_TYPE)) = 0 /\
  validate_pos block_1_bit 0 0 0 = true /\
  validate_pos block_1_bit 0 1 0 = true /\
  exists b',
    set_voxel pool_bytes block_1_bit 0 0 0 0 CHANNEL_TYPE = Finished b' [] /\
    get_voxel b' 0 0 0 CHANNEL_TYPE = 254 /\
    get_voxel b' 0 1 0 CHANNEL_TYPE = 127.
Proof.
  split_all; try by_evaluation.
  eexists. split_all; by_evaluation.
Qed.

(** [compress_uniform_channels] hands the first byte of the buffer to
    [clear_channel], whatever the depth.  The 2x2x2 block whose DATA2
    channel is materialised at depth D16 with every voxel 0x1234 is folded
    to a uniform channel whose [defval] is 0x34. *)
Lemma compress_16_bit_keeps_low_byte (pool_bytes : Z -> nat -> Z) :
  exists b b',
    decompress_channel pool_bytes block_16_bit_uniform CHANNEL_DATA2 = Finished b [] /\
    well_formed b = true /\
    has_data (channel_at b CHANNEL_DATA2) = true /\
    (forall x y z,
        validate_pos b x y z = true -> get_voxel b x y z CHANNEL_DATA2 = 0x1234) /\
    compress_uniform_channels b = Finished b' [] /\
    data (channel_at b' CHANNEL_DATA2) = None /\
    defval (channel_at b' CHANNEL_DATA2) = 0x34 /\
    get_voxel b' 0 0 0 CHANNEL_DATA2 = 0x34.
Proof.
  eexists. eexists. split; [by_evaluation|].
  split_all; try by_evaluation.
  intros x y z H. apply validate_pos_cases_2 in H; [|reflexivity].
  destruct H as ([-> | ->] & [-> | ->] & [-> | ->]); by_evaluation.
Qed.

(** [duplicate()] creates a block whose channels have the depth of a new
    channel.  On the 8x8x8 block whose DATA2 channel has depth D16, after
    [set_voxel(0x1234, 1,2,3, DATA2)], the copy of the channel is refused
    and [equals] finds the two blocks different. *)
Lemma duplicate_16_bit_differs (pool_bytes : Z -> nat -> Z) :
  exists b d,
    set_voxel pool_bytes block_16_bit 0x1234 1 2 3 CHANNEL_DATA2 = Finished b [] /\
    well_formed b = true /\
    get_voxel b 1 2 3 CHANNEL_DATA2 = 0x1234 /\
    duplicate pool_bytes b = Finished d [ERR_FAIL_COND] /\
    _size d = _size b /\
    equals d b = Finished false [] /\
    get_voxel d 1 2 3 CHANNEL_DATA2 = 0.
Proof.
  eexists. eexists. split; [by_evaluation|].
  split_all; by_evaluation.
Qed.

(** The full [copy_from] between two blocks of depth D16 copies as many
    bytes as the block has voxels, half of the buffer: a voxel of the second
    half keeps what the pool left in the new buffer. *)
Lemma copy_from_16_bit_copies_half :
  exists b d,
    set_voxel pool_0xAA block_16_bit 0x1234 1 2 7 CHANNEL_DATA2 = Finished b [] /\
    well_formed b = true /\
    copy_from pool_0xAA block_16_bit b = Finished d [] /\
    get_voxel b 1 2 7 CHANNEL_DATA2 = 0x1234 /\
    get_voxel d 1 2 7 CHANNEL_DATA2 = 0xAAAA /\
    equals d b = Finished false [].
Proof.
  eexists. eexists. split; [by_evaluation|].
  split_all; by_evaluation.
Qed.

(** At depth D1 [is_uniform] compares the [volume >> 3] bytes of the
    buffer.  On the 4x2x2 block whose 1-bit channel is the two bytes 0x55,
    two positions hold different voxels and [is_uniform] is true;
    [compress_uniform_channels] then changes what [get_voxel] returns. *)
Lemma is_uniform_1_bit_compares_bytes :
  exists (b b' : VoxelBuffer) (x y z x' y' z' : Z),
    well_formed b = true /\
    depth (channel_at b CHANNEL_TYPE) = DEPTH_1_BIT /\
    has_data (channel_at b CHANNEL_TYPE) = true /\
    validate_pos b x y z = true /\ validate_pos b x' y' z' = true /\
    get_voxel b x y z CHANNEL_TYPE <> get_voxel b x' y' z' CHANNEL_TYPE /\
    Z.testbit (get_voxel b x y z CHANNEL_TYPE) 0
      <> Z.testbit (get_voxel b x' y' z' CHANNEL_TYPE) 0 /\
    is_uniform b CHANNEL_TYPE = true /\
    compress_uniform_channels b = Finished b' [] /\
    data (channel_at b' CHANNEL_TYPE) = None /\
    get_voxel b' x y z CHANNEL_TYPE <> get_voxel b x y z CHANNEL_TYPE /\
    get_voxel b' x' y' z' CHANNEL_TYPE <> get_voxel b x' y' z' CHANNEL_TYPE /\
    Z.testbit (get_voxel b' x' y' z' CHANNEL_TYPE) 0
      <> Z.testbit (get_voxel b x' y' z' CHANNEL_TYPE) 0.
Proof.
  exists block_1_bit_alternating. eexists. exists 0, 0, 0, 0, 1, 0.
  split_all; by_evaluation.
Qed.

(** ** Load-block task *)

Import LoadBlockDataTask.

(** The origin of a block is computed in 32 bits.  Where the products fit
    the type it is [position * 2^lod * block_size]; the block (2^27, 0, 0),
    with blocks of 16 voxels, is queried at -2^31. *)
Lemma to_int32_small (v : Z) : - 2 ^ 31 <= v < 2 ^ 31 -> to_int32 v = v.
Proof.
  intros H. unfold to_int32. rewrite Z.mod_small by lia. lia.
Qed.

Lemma origin_in_voxels_small
    {VoxelBufferInternal InstanceBlockData VolumeID VoxelData PriorityDependency : Type}
    (t : Task VoxelBufferInternal InstanceBlockData VolumeID VoxelData PriorityDependency) :
  0 <= _lod_index t ->
  (forall p, In p [vx (_position t); vy (_position t); vz (_position t)] ->
             - 2 ^ 31 <= p * 2 ^ _lod_index t < 2 ^ 31 /\
             - 2 ^ 31 <= p * 2 ^ _lod_index t * _block_size t < 2 ^ 31) ->
  origin_in_voxels t
    = mkVector3i (vx (_position t) * 2 ^ _lod_index t * _block_size t)
                 (vy (_position t) * 2 ^ _lod_index t * _block_size t)
                 (vz (_position t) * 2 ^ _lod_index t * _block_size t).
Proof.
  intros Hlod H. unfold origin_in_voxels, Vector3i_mul_int32, Vector3i_shl_int32.
  cbn [vx vy vz]. rewrite !Z.shiftl_mul_pow2 by exact Hlod.
  destruct (H (vx (_position t)) ltac:(cbn; tauto)) as (Hx1 & Hx2).
  destruct (H (vy (_position t)) ltac:(cbn; tauto)) as (Hy1 & Hy2).
  destruct (H (vz (_position t)) ltac:(cbn; tauto)) as (Hz1 & Hz2).
  rewrite (to_int32_small _ Hx1), (to_int32_small _ Hy1), (to_int32_small _ Hz1).
  rewrite (to_int32_small _ Hx2), (to_int32_small _ Hy2), (to_int32_small _ Hz2).
  reflexivity.
Qed.

Example origin_in_voxels_wraps :
  origin_in_voxels (task_far false) = mkVector3i (-2147483648) 0 0.
Proof. reflexivity. Qed.

Section TaskProperties.

Context {VoxelBufferInternal InstanceBlockData VolumeID VoxelData : Type}.
Context {PriorityDependency VoxelGenerator Callback UserData : Type}.
Variable new_block : Z -> VoxelBufferInternal.

Abbreviation Task :=
  (Task VoxelBufferInternal InstanceBlockData VolumeID VoxelData PriorityDependency).
Abbreviation World :=
  (World VoxelBufferInternal InstanceBlockData VolumeID VoxelGenerator Callback UserData).
Abbreviation VoxelStream := (VoxelStream VoxelBufferInternal InstanceBlockData).

(** C5.  In every world, for every task: [apply_result] invokes the
    callback of the volume exactly once if and only if the volume is
    registered, the dependency is valid and the task did not delegate to a
    generator task; the bundle then holds the voxels, instances, position
    and lod of the task, [dropped = !has_run], [initial_load = false] and
    the type LOADED.  In every other case the method returns without
    invoking anything, whatever the callback of the volume is, null
    included; when the volume is not registered it does not look at the
    dependency either.  The callback is read in the emitting case only,
    where the method asserts it ([CRASH_COND]). *)
Theorem apply_result_callback_once (w : World) (t : Task) :
  (is_volume_valid w (_volume_id t) = false ->
   apply_result w t = Finished (t, []) [PRINT_VERBOSE]) /\
  forall dep, _stream_dependency t = Some dep ->
    (emits w t dep = false -> exists log, apply_result w t = Finished (t, []) log) /\
    (emits w t dep = true ->
     match data_output_callback (get_volume_callbacks w (_volume_id t)) with
     | Some f =>
         apply_result w t
           = Finished
               (set_instances t None,
                [DataOutputCallback f (callbacks_data (get_volume_callbacks w (_volume_id t)))
                   (mkBlockDataOutput (_voxels t) (_instances t) (_position t) (_lod_index t)
                      (negb (_has_run t)) (_max_lod_hint t) false TYPE_LOADED)]) []
     | None => apply_result w t = Aborted CRASH
     end) /\
    (forall t' ev log,
        apply_result w t = Finished (t', ev) log ->
        (length (outputs ev) = 1%nat <-> emits w t dep = true) /\
        (length (outputs ev) = 0%nat <-> emits w t dep = false)).
Proof.
  split.
  { intros Hvol. unfold apply_result. rewrite Hvol. reflexivity. }
  intros dep Hdep. unfold apply_result, emits. rewrite Hdep.
  destruct (is_volume_valid w (_volume_id t)); cbn [andb].
  - destruct (valid (dependencies w dep) && negb (_requested_generator_task t)) eqn:E.
    + cbn [_volume_id set_instances].
      split; [discriminate|]. split.
      * intros _. destruct (data_output_callback _); reflexivity.
      * intros t' ev log. destruct (data_output_callback _); [|discriminate].
        intros [= <- <- <-]. cbn. split; split; (reflexivity || discriminate).
    + split; [intros _; eexists; reflexivity|]. split; [discriminate|].
      intros t' ev log [= <- <- <-]. cbn. split; split; (reflexivity || discriminate).
  - split; [intros _; eexists; reflexivity|]. split; [discriminate|].
    intros t' ev log [= <- <- <-]. cbn. split; split; (reflexivity || discriminate).
Qed.

(** A task without voxels emits no bundle with voxels. *)
Lemma apply_result_without_voxels (t : Task) :
  _voxels t = None ->
  forall (w : World) t' ev log,
    apply_result w t = Finished (t', ev) log ->
    forall o, In o (outputs ev) -> o_voxels o = None.
Proof.
  intros Hv w t' ev log. unfold apply_result.
  destruct (is_volume_valid w (_volume_id t)).
  - destruct (_stream_dependency t); [|discriminate].
    destruct (valid _ && negb _).
    + cbn [_volume_id set_instances].
      destruct (data_output_callback _); [|discriminate].
      intros [= <- <- <-] o [<- | []]. exact Hv.
    + intros [= <- <- <-] o [].
  - intros [= <- <- <-] o [].
Qed.

(** C6, as the code has it.  When [run] receives BLOCK_NOT_FOUND from the
    stream, for the query it issues (at the origin computed in 32 bits, the
    lod index being a shift the type allows), and [generate_cache_data] is
    false, the block just allocated is dropped: the voxels of the task are
    null after [run], no generator task is pushed, and whatever
    [apply_result] emits afterwards has no voxels. *)
Theorem run_miss_without_cache_drops_block
    (w : World) (t : Task) (dep : DependencyRef) (s : VoxelStream) :
  _stream_dependency t = Some dep ->
  stream (dependencies w dep) = Some s ->
  _voxels t = None ->
  0 <= _lod_index t < 32 ->
  snd (voxel_query new_block s t) = RESULT_BLOCK_NOT_FOUND ->
  _generate_cache_data t = false ->
  exists t' ev log,
    run new_block w t = Finished (t', ev) log /\
    _voxels t' = None /\
    (forall g p, ~ In (PushAsyncTask g p) ev) /\
    (forall (w' : World) t'' ev' log',
        apply_result w' t' = Finished (t'', ev') log' ->
        forall o, In o (outputs ev') -> o_voxels o = None).
Proof.
  intros Hdep Hs Hv _ Hres Hgen.
  unfold run. unfold voxel_query in Hres. rewrite Hdep, Hs, Hv. cbn [is_null negb].
  destruct (load_voxel_block s _ _ _) as [voxels r] eqn:E. cbn [snd] in Hres. subst r.
  unfold run_dispatch. cbn [_generate_cache_data set_voxels]. rewrite Hgen.
  cbn [bind ret _request_instances set_voxels _instances _lod_index _position app].
  destruct (_request_instances t && supports_instance_blocks s).
  - destruct (_instances t) eqn:Ei; cbn [is_null negb].
    + do 3 eexists. split; [reflexivity|]. split_all; try reflexivity.
      * intros g p [H | []]. discriminate.
      * apply apply_result_without_voxels. reflexivity.
    + destruct (load_instance_blocks s _ _) as [idata ires].
      destruct (Result_eqb ires RESULT_ERROR); cbn.
      * do 3 eexists. split; [reflexivity|]. split_all; try reflexivity.
        -- intros g p [H | [H | []]]; discriminate.
        -- apply apply_result_without_voxels. reflexivity.
      * do 3 eexists. split; [reflexivity|]. split_all; try reflexivity.
        -- intros g p [H | [H | []]]; discriminate.
        -- apply apply_result_without_voxels. reflexivity.
  - do 3 eexists. split; [reflexivity|]. split_all; try reflexivity.
    + intros g p [H | []]. discriminate.
    + apply apply_result_without_voxels. reflexivity.
Qed.

(** The other miss: with [generate_cache_data] set and no generator, [run]
    takes the branch that holds only a comment; the task keeps the block the
    stream was given, pushes no task and is not marked as delegated. *)
Lemma run_miss_without_generator
    (w : World) (t : Task) (dep : DependencyRef) (s : VoxelStream) :
  _stream_dependency t = Some dep ->
  stream (dependencies w dep) = Some s ->
  _voxels t = None ->
  let query := voxel_query new_block s t in
  snd query = RESULT_BLOCK_NOT_FOUND ->
  _generate_cache_data t = true ->
  generator (dependencies w dep) = None ->
  exists t' ev log,
    run new_block w t = Finished (t', ev) log /\
    _voxels t' = Some (fst query) /\
    _requested_generator_task t' = _requested_generator_task t /\
    (forall g p, ~ In (PushAsyncTask g p) ev).
Proof.
  intros Hdep Hs Hv query Hres Hgen Hnone. subst query. unfold voxel_query in *.
  unfold run. rewrite Hdep, Hs, Hv. cbn [is_null negb].
  destruct (load_voxel_block s _ _ _) as [voxels r] eqn:E. cbn [fst snd] in *. subst r.
  unfold run_dispatch. cbn [_generate_cache_data set_voxels]. rewrite Hgen, Hnone.
  cbn [bind ret _request_instances set_voxels _instances _lod_index _position app].
  destruct (_request_instances t && supports_instance_blocks s).
  - destruct (_instances t) eqn:Ei; cbn [is_null negb].
    + do 3 eexists. split; [reflexivity|]. split_all; try reflexivity.
      intros g p [H | []]. discriminate.
    + destruct (load_instance_blocks s _ _) as [idata ires].
      destruct (Result_eqb ires RESULT_ERROR); cbn;
        do 3 eexists; (split; [reflexivity|]); split_all; try reflexivity;
        intros g p [H | [H | []]]; discriminate.
  - do 3 eexists. split; [reflexivity|]. split_all; try reflexivity.
    intros g p [H | []]. discriminate.
Qed.

(** What [run] does about instances: when they are requested and the stream
    supports them, it queries the stream for the lod and the position of the
    task, and it keeps the payload exactly when the instance query is not an
    error and the result of the voxel query is BLOCK_FOUND. *)
Lemma run_instances_follow_voxel_result
    (w : World) (t : Task) (dep : DependencyRef) (s : VoxelStream) :
  _stream_dependency t = Some dep ->
  stream (dependencies w dep) = Some s ->
  _voxels t = None ->
  _instances t = None ->
  _request_instances t && supports_instance_blocks s = true ->
  let voxel_result := snd (voxel_query new_block s t) in
  let query := load_instance_blocks s (_lod_index t) (_position t) in
  exists t' ev log,
    run new_block w t = Finished (t', ev) log /\
    In (StreamLoadInstanceBlocks (_lod_index t) (_position t)) ev /\
    _has_run t' = true /\
    _instances t' =
      if negb (Result_eqb (snd query) RESULT_ERROR)
         && Result_eqb voxel_result RESULT_BLOCK_FOUND
      then fst query else None.
Proof.
  intros Hdep Hs Hv Hi Hreq. cbn zeta. unfold voxel_query.
  unfold run. rewrite Hdep, Hs, Hv. cbn [is_null negb].
  destruct (load_voxel_block s _ _ _) as [voxels r] eqn:E. cbn [snd].
  assert (Hd : exists t1 ev1 log1,
             run_dispatch Callback UserData (dependencies w dep)
               (set_voxels t (Some voxels)) r = Finished (t1, ev1) log1 /\
             _request_instances t1 = _request_instances t /\
             _instances t1 = None /\ _lod_index t1 = _lod_index t /\
             _position t1 = _position t).
  { unfold run_dispatch. destruct r; cbn.
    - do 3 eexists. split; [reflexivity|]. cbn. auto.
    - destruct (_generate_cache_data t); [destruct (generator _)|];
        do 3 eexists; (split; [reflexivity|]); cbn; auto.
    - do 3 eexists. split; [reflexivity|]. cbn. auto. }
  destruct Hd as (t1 & ev1 & log1 & -> & Hr1 & Hi1 & Hl1 & Hp1).
  cbn [bind]. rewrite Hr1, Hreq, Hi1, Hl1, Hp1. cbn [is_null negb].
  destruct (load_instance_blocks s _ _) as [idata ires]. cbn [fst snd].
  destruct (Result_eqb ires RESULT_ERROR); cbn [negb andb];
    [|destruct (Result_eqb r RESULT_BLOCK_FOUND)]; cbn;
    do 3 eexists; (split; [reflexivity|]); cbn;
    (split; [right; apply in_or_app; right; left; reflexivity|]);
    (split; [reflexivity|]); try assumption; reflexivity.
Qed.

End TaskProperties.

(** Witness of C5: a task that loaded its block emits once; and when the
    volume is no longer registered and has no callback, nothing is
    invoked. *)
Lemma apply_result_callback_once_witness :
  apply_result (world_with stream_with_voxels None true)
               (set_has_run (set_voxels (task_with false false) (Some 16)) true)
    = Finished (set_has_run (set_voxels (task_with false false) (Some 16)) true,
                [DataOutputCallback 1%nat 2%nat
                   (mkBlockDataOutput (Some 16) None (mkVector3i 1 2 3) 0 false false false
                      TYPE_LOADED)]) [] /\
  apply_result (mkWorld (fun _ : nat => false)
                        (fun _ => mkVolumeCallbacks (None : option nat) 2%nat)
                        (fun _ => mkStreamingDependency (Some stream_with_voxels)
                                    (None : option nat) true))
               (set_voxels (task_with false false) (Some 16))
    = Finished (set_voxels (task_with false false) (Some 16), []) [PRINT_VERBOSE].
Proof.
  split.
  - exact (proj1 (proj2 (proj2 (apply_result_callback_once
                                  (world_with stream_with_voxels None true)
                                  (set_has_run (set_voxels (task_with false false) (Some 16))
                                               true))
                           0%nat eq_refl)) eq_refl).
  - exact (proj1 (apply_result_callback_once
                    (mkWorld (fun _ : nat => false)
                             (fun _ => mkVolumeCallbacks (None : option nat) 2%nat)
                             (fun _ => mkStreamingDependency (Some stream_with_voxels)
                                         (None : option nat) true))
                    (set_voxels (task_with false false) (Some 16))) eq_refl).
Defined.

(** Counterexample of C6 as stated, with caching enabled and no generator:
    the stream answers BLOCK_NOT_FOUND, the dependency has no generator, and
    after [run] the task still holds the block, which [apply_result] hands
    to the callback of the volume. *)
Lemma run_miss_without_generator_keeps_block :
  let w := world_with stream_without_voxels None true in
  let t := task_with false true in
  generator (dependencies w 0%nat) = None /\
  snd (voxel_query block_of_size stream_without_voxels t) = RESULT_BLOCK_NOT_FOUND /\
  exists t' t'' o,
    run block_of_size w t
      = Finished (t', [StreamLoadVoxelBlock (mkVector3i 16 32 48) 0]) [] /\
    _voxels t' = Some 16 /\
    apply_result w t' = Finished (t'', [DataOutputCallback 1%nat 2%nat o]) [] /\
    o_voxels o = Some 16 /\ o_dropped o = false.
Proof.
  cbn zeta. split; [reflexivity|]. split; [reflexivity|].
  do 3 eexists. split; [by_evaluation|]. split; [reflexivity|].
  split; [by_evaluation|]. split; reflexivity.
Qed.

(** Witness of C6 as amended: a miss with caching disabled.  The block
    (2^27, 0, 0) is queried at the origin -2^31, which the stream does not
    have. *)
Lemma run_miss_without_cache_drops_block_witness :
  origin_in_voxels (task_far false) = mkVector3i (-2147483648) 0 0 /\
  exists t' ev log,
    run block_of_size (world_with stream_of_positive_origins (Some 5%nat) true)
        (task_far false) = Finished (t', ev) log /\
    _voxels t' = None.
Proof.
  split; [reflexivity|].
  destruct (run_miss_without_cache_drops_block block_of_size
              (world_with stream_of_positive_origins (Some 5%nat) true)
              (task_far false) 0%nat stream_of_positive_origins
              eq_refl eq_refl eq_refl ltac:(cbn; lia) eq_refl eq_refl)
    as (t' & ev & log & Hrun & Hv & _).
  exists t', ev, log. split; [exact Hrun | exact Hv].
Defined.

(** C7, at a stream that misses the voxel block and has the instance
    block.  With [request_instances] set, [run] queries the instances of
    (lod 0, position (1,2,3)); the query answers BLOCK_FOUND with the payload
    7, and the instances of the task stay null: the test that guards the
    move reads the result of the voxel query. *)
Theorem run_drops_instances_on_voxel_miss :
  let w := world_with stream_without_voxels None true in
  let t := task_with true false in
  _request_instances t = true /\
  supports_instance_blocks stream_without_voxels = true /\
  load_instance_blocks stream_without_voxels (_lod_index t) (_position t)
    = (Some 7%nat, RESULT_BLOCK_FOUND) /\
  exists t',
    run block_of_size w t
      = Finished (t', [StreamLoadVoxelBlock (mkVector3i 16 32 48) 0;
                       StreamLoadInstanceBlocks 0 (mkVector3i 1 2 3)]) [] /\
    _has_run t' = true /\
    _instances t' = None.
Proof.
  cbn zeta. split_all; try reflexivity.
  eexists. split; [by_evaluation|]. split; reflexivity.
Qed.

(** * The rest of the storage interface *)

(** X1.  When the number of bits of the volume, plus 8, fits 32 bits,
    [get_size_in_bytes_for_volume] finishes and returns a number of bytes
    that holds every bit of the volume and has fewer than 8 bits to spare;
    in particular the [CRASH_COND] of the 1-bit padding is never hit. *)
Theorem get_size_in_bytes_for_volume_fits (size : Vector3i) (d : Depth) :
  0 <= vx size * vy size * vz size ->
  vx size * vy size * vz size * get_depth_bit_count d + 8 <= 2 ^ 32 ->
  exists n,
    get_size_in_bytes_for_volume size d = Finished n [] /\
    vx size * vy size * vz size * get_depth_bit_count d <= 8 * n
      < vx size * vy size * vz size * get_depth_bit_count d + 8.
Proof.
  intros Hpos Hsmall. unfold get_size_in_bytes_for_volume.
  set (V := vx size * vy size * vz size) in *.
  assert (Hbits : 1 <= get_depth_bit_count d) by (destruct d; cbn; lia).
  assert (HV : to_uint32 V = V) by (apply to_uint32_small; nia).
  rewrite HV.
  assert (HB : to_uint32 (V * get_depth_bit_count d) = V * get_depth_bit_count d)
    by (apply to_uint32_small; nia).
  rewrite HB. change (Z.shiftr ?a 3) with (Z.shiftr a 3).
  rewrite Z.shiftr_div_pow2 by lia. change (2 ^ 3) with 8.
  destruct d; cbn [Depth_eqb andb get_depth_bit_count] in *.
  - (* one bit *)
    rewrite Z.mul_1_r in *.
    pose proof (Z.div_mod V 8 ltac:(lia)) as Hdm.
    pose proof (Z.mod_pos_bound V 8 ltac:(lia)) as Hm.
    assert (H1 : to_uint32 (V / 8 * 8) = V / 8 * 8) by (apply to_uint32_small; lia).
    rewrite H1.
    destruct (V / 8 * 8 <? V) eqn:E.
    + apply Z.ltb_lt in E.
      assert (H2 : to_uint32 (V / 8 + 1) = V / 8 + 1) by (apply to_uint32_small; lia).
      rewrite H2.
      assert (H3 : to_uint32 ((V / 8 + 1) * 8) = (V / 8 + 1) * 8)
        by (apply to_uint32_small; lia).
      rewrite H3.
      replace ((V / 8 + 1) * 8 <? V) with false by (symmetry; apply Z.ltb_ge; lia).
      eexists. split; [reflexivity|]. lia.
    + apply Z.ltb_ge in E. eexists. split; [reflexivity|]. lia.
  - eexists. split; [reflexivity|].
    replace (V * 8 / 8) with V by (symmetry; apply Z.div_mul; lia). lia.
  - eexists. split; [reflexivity|].
    replace (V * 16) with (V * 2 * 8) by lia. rewrite Z.div_mul by lia. lia.
  - eexists. split; [reflexivity|].
    replace (V * 24) with (V * 3 * 8) by lia. rewrite Z.div_mul by lia. lia.
  - eexists. split; [reflexivity|].
    replace (V * 32) with (V * 4 * 8) by lia. rewrite Z.div_mul by lia. lia.
  - eexists. split; [reflexivity|].
    replace (V * 64) with (V * 8 * 8) by lia. rewrite Z.div_mul by lia. lia.
Qed.

Lemma ltb_channels (c : nat) : (c < MAX_CHANNELS)%nat -> (c <? MAX_CHANNELS)%nat = true.
Proof. intros H. apply Nat.ltb_lt. exact H. Qed.

Lemma get_volume_size (s b0 : VoxelBuffer) : _size s = _size b0 -> get_volume s = get_volume b0.
Proof. intros H. unfold get_volume. rewrite H. reflexivity. Qed.

Lemma set_channel_same (b : VoxelBuffer) (c : nat) :
  (c < length (_channels b))%nat -> set_channel b c (channel_at b c) = b.
Proof.
  intros Hc. destruct b as [chs sz]. unfold set_channel, channel_at. cbn in *.
  f_equal. apply list_insert_id.
  destruct (chs !! c) eqn:E; [reflexivity|].
  apply lookup_ge_None in E. lia.
Qed.

Section FillProperties.

Variable pool_bytes : Z -> nat -> Z.

(** [fill] on a channel that has a buffer: the buffer is taken anew from the
    pool, for the size of the block, and every voxel of it is written; the
    [defval] of the channel stays. *)
Lemma fill_materialised (b0 s : VoxelBuffer) (c : nat) (v : Z) (d0 : Bytes) :
  WellFormed b0 -> _size s = _size b0 -> length (_channels s) = MAX_CHANNELS ->
  (c < MAX_CHANNELS)%nat ->
  data (channel_at s c) = Some d0 ->
  depth (channel_at s c) <> DEPTH_1_BIT ->
  0 <= v ->
  exists d,
    fill pool_bytes s v c
      = Finished (set_channel s c (mkChannel (Some d) (defval (channel_at s c))
                                             (depth (channel_at s c))
                                             (Z.of_nat (length d)))) [] /\
    Z.of_nat (length d) = get_volume b0 * bytes_per_voxel (depth (channel_at s c)) /\
    Forall is_byte d /\
    forall j, 0 <= j < get_volume b0 ->
      read_voxel (depth (channel_at s c)) d j
        = clamp_value_for_depth v (depth (channel_at s c)).
Proof.
  intros Hwf Hsize Hlen Hc Hdata Hdp Hv.
  pose proof (volume_pos b0 Hwf) as Hpos.
  pose proof (bytes_per_voxel_pos _ Hdp) as Hbpv.
  pose proof (buffer_below_2_32 b0 _ Hwf Hdp) as H32.
  pose proof (clamp_value_range v (depth (channel_at s c)) Hv) as Hcl.
  set (ch := channel_at s c) in *. set (dp := depth ch) in *.
  set (v' := clamp_value_for_depth v dp) in *.
  set (n := get_volume b0 * bytes_per_voxel dp) in *.
  set (a := allocate_channel_data pool_bytes n).
  assert (Ha : Z.of_nat (length a) = n) by (apply length_allocate; nia).
  destruct (fill_voxels_bytes dp a (get_volume b0) v') as (d & Hfill & Hld & Hbd & Hrd);
    try assumption; try lia.
  { apply Forall_allocate. }
  exists d. split; [|split; [rewrite Hld; exact Ha | split; assumption]].
  unfold fill. rewrite ltb_channels by exact Hc. cbn [negb].
  fold ch. rewrite Hdata. fold dp. fold v'.
  unfold create_channel_noinit. fold ch. fold dp. rewrite Hsize.
  rewrite size_in_bytes_byte_depths by assumption. fold n. cbn [bind ret app].
  fold a.
  rewrite channel_at_set_channel_eq by lia.
  cbn [set_data depth data defval size_in_bytes option.default default].
  rewrite (get_volume_size (set_channel s c _) b0) by exact Hsize.
  rewrite Ha in Hfill. subst a n. unfold id.
  fold dp. rewrite Hfill. cbn [bind ret app].
  rewrite set_channel_set_channel. cbn [set_data data defval depth size_in_bytes].
  rewrite Hld, Ha. reflexivity.
Qed.

(** What [fill] makes of a well-formed block. *)
Lemma fill_result (b : VoxelBuffer) (v : Z) (c : nat) :
  well_formed b = true -> (c < MAX_CHANNELS)%nat -> 0 <= v ->
  depth (channel_at b c) <> DEPTH_1_BIT ->
  exists ch',
    fill pool_bytes b v c = Finished (set_channel b c ch') [] /\
    channel_ok (_size b) ch' = true /\
    depth ch' = depth (channel_at b c) /\
    has_data ch' = has_data (channel_at b c) /\
    (has_data (channel_at b c) = true -> defval ch' = defval (channel_at b c)) /\
    match data ch' with
    | Some d => forall j, 0 <= j < get_volume b ->
                  read_voxel (depth ch') d j
                    = clamp_value_for_depth v (depth (channel_at b c))
    | None => defval ch' = clamp_value_for_depth v (depth (channel_at b c))
    end.
Proof.
  intros Hwfb Hc Hv Hdp.
  pose proof (well_formed_spec b Hwfb) as Hwf.
  pose proof (wf_channels b Hwf) as Hlen.
  pose proof (wf_channel_ok b Hwf c Hc) as Hok.
  pose proof (clamp_value_range v (depth (channel_at b c)) Hv) as Hcl.
  destruct (data (channel_at b c)) as [d0|] eqn:Hdata.
  - destruct (fill_materialised b b c v d0 Hwf eq_refl Hlen Hc Hdata Hdp Hv)
      as (d & Hfill & Hld & Hbd & Hrd).
    eexists. split; [exact Hfill|].
    cbn [depth data defval]. split_all.
    + apply channel_ok_intro; try assumption.
      apply (channel_ok_defval _ _ Hok).
    + reflexivity.
    + unfold has_data. rewrite Hdata. reflexivity.
    + reflexivity.
    + exact Hrd.
  - unfold fill. rewrite ltb_channels by exact Hc. cbn [negb]. rewrite Hdata.
    assert (Hok' : channel_ok (_size b)
                     (set_defval (channel_at b c)
                        (clamp_value_for_depth v (depth (channel_at b c)))) = true).
    { unfold channel_ok in *. cbn [set_defval defval depth data size_in_bytes].
      rewrite Hdata in *.
      apply andb_true_iff in Hok as [_ Hsz]. rewrite Hsz.
      replace (0 <=? _) with true by (symmetry; apply Z.leb_le; lia).
      replace (_ <=? _) with true by (symmetry; apply Z.leb_le; lia).
      reflexivity. }
    destruct (defval (channel_at b c) =? _) eqn:E.
    + apply Z.eqb_eq in E.
      exists (channel_at b c). split.
      { rewrite set_channel_same by lia. reflexivity. }
      rewrite Hdata. split_all; try reflexivity; try assumption.
    + eexists. split; [reflexivity|].
      cbn [set_defval depth data defval]. rewrite Hdata.
      split_all; try reflexivity; try assumption.
      unfold has_data. rewrite Hdata. discriminate.
Qed.

(** X2.  [fill(v, c)] on a well-formed block, at a depth other than D1:
    it finishes without printing, keeps the size, the depth and the
    compression of the channel (a uniform channel stays uniform, a
    materialised one gets a new buffer), leaves the other channels as they
    are, and afterwards every position in range reads [v] clamped to the
    depth. *)
Theorem fill_reads_value (b : VoxelBuffer) (v : Z) (c : nat) :
  well_formed b = true -> (c < MAX_CHANNELS)%nat -> 0 <= v ->
  depth (channel_at b c) <> DEPTH_1_BIT ->
  exists b',
    fill pool_bytes b v c = Finished b' [] /\
    well_formed b' = true /\
    _size b' = _size b /\
    get_channel_compression b' c = get_channel_compression b c /\
    get_channel_depth b' c = get_channel_depth b c /\
    (forall x y z, validate_pos b x y z = true ->
       get_voxel b' x y z c = clamp_value_for_depth v (depth (channel_at b c))) /\
    (forall c', c' <> c -> channel_at b' c' = channel_at b c').
Proof.
  intros Hwfb Hc Hv Hdp.
  pose proof (well_formed_spec b Hwfb) as Hwf.
  pose proof (wf_channels b Hwf) as Hlen.
  destruct (fill_result b v c Hwfb Hc Hv Hdp)
    as (ch' & Hfill & Hok & Hdepth & Hhas & _ & Hread).
  exists (set_channel b c ch'). split; [exact Hfill|]. split_all.
  - apply well_formed_set_channel; assumption.
  - reflexivity.
  - unfold get_channel_compression. rewrite ltb_channels by exact Hc. cbn [negb].
    rewrite channel_at_set_channel_eq by lia.
    unfold has_data in Hhas.
    destruct (data ch'), (data (channel_at b c)); try reflexivity; discriminate.
  - unfold get_channel_depth. rewrite ltb_channels by exact Hc. cbn [negb].
    rewrite channel_at_set_channel_eq by lia. exact Hdepth.
  - intros x y z Hp. rewrite get_voxel_set_channel by assumption.
    destruct (data ch'); [|exact Hread].
    apply Hread. apply index_in_volume; assumption.
  - intros c' Hne. apply channel_at_set_channel_ne. congruence.
Qed.

End FillProperties.

Lemma channel_ok_uniform (size : Vector3i) (v : Z) (dp : Depth) :
  0 <= v <= get_max_value_for_depth dp ->
  channel_ok size (mkChannel None v dp 0) = true.
Proof.
  intros Hv. unfold channel_ok. cbn [defval depth data size_in_bytes].
  replace (0 <=? v) with true by (symmetry; apply Z.leb_le; lia).
  replace (v <=? _) with true by (symmetry; apply Z.leb_le; lia).
  reflexivity.
Qed.

Lemma channel_ok_size_uniform (size : Vector3i) (c : Channel) :
  channel_ok size c = true -> has_data c = false -> size_in_bytes c = 0.
Proof.
  unfold channel_ok, has_data. destruct (data c); [discriminate|].
  intros H _. apply andb_true_iff in H as [_ H]. apply Z.eqb_eq. exact H.
Qed.

(** X3.  [clear_channel(c, v)] on a well-formed block: the channel is
    uniform afterwards, its depth and the size of the block are kept, the
    other channels are as they were, and every position (in range or not)
    reads [v] clamped to the depth. *)
Theorem clear_channel_reads_value (b : VoxelBuffer) (c : nat) (v : Z) :
  well_formed b = true -> (c < MAX_CHANNELS)%nat -> 0 <= v ->
  exists b',
    clear_channel b c v = Finished b' [] /\
    well_formed b' = true /\
    _size b' = _size b /\
    get_channel_compression b' c = COMPRESSION_UNIFORM /\
    get_channel_depth b' c = get_channel_depth b c /\
    (forall x y z,
       get_voxel b' x y z c = clamp_value_for_depth v (depth (channel_at b c))) /\
    (forall c', c' <> c -> channel_at b' c' = channel_at b c').
Proof.
  intros Hwfb Hc Hv.
  pose proof (well_formed_spec b Hwfb) as Hwf.
  pose proof (wf_channels b Hwf) as Hlen.
  pose proof (wf_channel_ok b Hwf c Hc) as Hok.
  eexists. split; [apply clear_channel_result; assumption|]. split_all.
  - apply well_formed_set_channel; [assumption|].
    destruct (has_data (channel_at b c)) eqn:E.
    + apply channel_ok_uniform, clamp_value_range, Hv.
    + rewrite (channel_ok_size_uniform _ _ Hok E).
      apply channel_ok_uniform, clamp_value_range, Hv.
  - reflexivity.
  - unfold get_channel_compression. rewrite ltb_channels by exact Hc. cbn [negb].
    rewrite channel_at_set_channel_eq by lia. reflexivity.
  - unfold get_channel_depth. rewrite ltb_channels by exact Hc. cbn [negb].
    rewrite channel_at_set_channel_eq by lia. reflexivity.
  - intros x y z. rewrite get_voxel_uniform.
    + rewrite channel_at_set_channel_eq by lia. reflexivity.
    + exact Hc.
    + rewrite channel_at_set_channel_eq by lia. reflexivity.
  - intros c' Hne. apply channel_at_set_channel_ne. congruence.
Qed.

Lemma clear_result (b : VoxelBuffer) :
  length (_channels b) = MAX_CHANNELS ->
  exists b',
    clear b = Finished b' [] /\
    _size b' = _size b /\ length (_channels b') = MAX_CHANNELS /\
    forall i, (i < MAX_CHANNELS)%nat -> channel_at b' i = cleared (channel_at b i).
Proof.
  intros Hlen. unfold clear.
  apply (for_range_rule
           (fun i s =>
              length (_channels s) = MAX_CHANNELS /\ _size s = _size b /\
              forall j, (j < MAX_CHANNELS)%nat ->
                channel_at s j
                  = if Z.of_nat j <? i then cleared (channel_at b j) else channel_at b j)).
  - unfold MAX_CHANNELS. lia.
  - split_all; try reflexivity; try assumption.
    intros j Hj. replace (Z.of_nat j <? 0) with false by (symmetry; apply Z.ltb_ge; lia).
    reflexivity.
  - intros i s Hi (Hl & Hs & Hch).
    assert (Hk : (Z.to_nat i < MAX_CHANNELS)%nat) by (unfold MAX_CHANNELS in *; lia).
    pose proof (Hch _ Hk) as Hcur.
    replace (Z.of_nat (Z.to_nat i) <? i) with false in Hcur
      by (symmetry; apply Z.ltb_ge; lia).
    assert (Hstep : forall s',
               length (_channels s') = MAX_CHANNELS -> _size s' = _size b ->
               channel_at s' (Z.to_nat i) = cleared (channel_at b (Z.to_nat i)) ->
               (forall j, j <> Z.to_nat i -> channel_at s' j = channel_at s j) ->
               forall j, (j < MAX_CHANNELS)%nat ->
                 channel_at s' j
                   = if Z.of_nat j <? i + 1 then cleared (channel_at b j)
                     else channel_at b j).
    { intros s' _ _ Hnew Hold j Hj.
      destruct (decide (j = Z.to_nat i)) as [->|Hne].
      - replace (Z.of_nat (Z.to_nat i) <? i + 1) with true
          by (symmetry; apply Z.ltb_lt; lia).
        exact Hnew.
      - rewrite Hold by exact Hne. rewrite Hch by exact Hj.
        replace (Z.of_nat j <? i + 1) with (Z.of_nat j <? i); [reflexivity|].
        destruct (Z.of_nat j <? i) eqn:E.
        + apply Z.ltb_lt in E. symmetry. apply Z.ltb_lt. lia.
        + apply Z.ltb_ge in E. symmetry. apply Z.ltb_ge. lia. }
    destruct (has_data (channel_at s (Z.to_nat i))) eqn:E.
    + unfold delete_channel. unfold has_data in E.
      destruct (data (channel_at s (Z.to_nat i))) eqn:Ed; [|discriminate].
      eexists. split; [reflexivity|].
      split; [rewrite length_set_channel; exact Hl|]. split; [exact Hs|].
      apply Hstep.
      * rewrite length_set_channel; exact Hl.
      * exact Hs.
      * rewrite channel_at_set_channel_eq by lia.
        rewrite Hcur. unfold cleared, has_data. rewrite <- Hcur, Ed. reflexivity.
      * intros j Hne. apply channel_at_set_channel_ne. congruence.
    + eexists. split; [reflexivity|]. split; [exact Hl|]. split; [exact Hs|].
      apply Hstep; try assumption; [|reflexivity].
      rewrite Hcur. unfold cleared. rewrite <- Hcur, E. reflexivity.
  - intros s' (Hl & Hs & Hch). split_all; try assumption.
    intros i Hi. rewrite Hch by exact Hi.
    replace (Z.of_nat i <? Z.of_nat MAX_CHANNELS) with true
      by (symmetry; apply Z.ltb_lt; lia).
    reflexivity.
Qed.

Lemma channel_ok_cleared (size : Vector3i) (ch : Channel) :
  channel_ok size ch = true -> channel_ok size (cleared ch) = true.
Proof.
  intros Hok. unfold cleared. destruct (has_data ch) eqn:E; [|exact Hok].
  apply channel_ok_uniform. exact (channel_ok_defval _ _ Hok).
Qed.

Lemma well_formed_intro (b : VoxelBuffer) :
  length (_channels b) = MAX_CHANNELS ->
  0 < vx (_size b) -> 0 < vy (_size b) -> 0 < vz (_size b) ->
  vx (_size b) * vy (_size b) * vz (_size b) * 64 < 2 ^ 32 ->
  (forall i, (i < MAX_CHANNELS)%nat -> channel_ok (_size b) (channel_at b i) = true) ->
  well_formed b = true.
Proof.
  intros Hlen Hx Hy Hz Hvol Hok. unfold well_formed.
  rewrite Hlen, Nat.eqb_refl.
  replace (0 <? vx (_size b)) with true by (symmetry; apply Z.ltb_lt; lia).
  replace (0 <? vy (_size b)) with true by (symmetry; apply Z.ltb_lt; lia).
  replace (0 <? vz (_size b)) with true by (symmetry; apply Z.ltb_lt; lia).
  replace (_ <? 2 ^ 32) with true by (symmetry; apply Z.ltb_lt; lia).
  cbn [andb]. apply List.forallb_forall. intros ch Hin.
  apply list_elem_of_In, list_elem_of_lookup in Hin as [i Hi].
  pose proof (lookup_lt_Some _ _ _ Hi) as Hlt.
  specialize (Hok i ltac:(lia)). unfold channel_at in Hok. rewrite Hi in Hok. exact Hok.
Qed.

(** X4.  [clear()] on a well-formed block prints nothing and leaves every
    channel uniform with the depth and the [defval] it had: every voxel
    reads the [defval] of its channel, whatever was stored. *)
Theorem clear_frees_every_channel (b : VoxelBuffer) :
  well_formed b = true ->
  exists b',
    clear b = Finished b' [] /\
    well_formed b' = true /\
    _size b' = _size b /\
    forall c, (c < MAX_CHANNELS)%nat ->
      get_channel_compression b' c = COMPRESSION_UNIFORM /\
      get_channel_depth b' c = get_channel_depth b c /\
      forall x y z, get_voxel b' x y z c = defval (channel_at b c).
Proof.
  intros Hwfb.
  pose proof (well_formed_spec b Hwfb) as Hwf.
  destruct (clear_result b (wf_channels b Hwf)) as (b' & Hrun & Hs & Hl & Hch).
  assert (Hcl : forall ch, data (cleared ch) = None /\ depth (cleared ch) = depth ch /\
                           defval (cleared ch) = defval ch).
  { intros ch. unfold cleared, has_data.
    destruct (data ch) eqn:E; cbn; rewrite ?E; auto. }
  exists b'. split; [exact Hrun|]. split_all.
  - apply well_formed_intro; rewrite ?Hs; try apply Hwf; try exact Hl.
    intros i Hi. rewrite Hch by exact Hi. apply channel_ok_cleared, Hwf, Hi.
  - exact Hs.
  - intros c Hc. destruct (Hcl (channel_at b c)) as (Hd & Hdp & Hdv). split_all.
    + unfold get_channel_compression. rewrite ltb_channels by exact Hc. cbn [negb].
      rewrite Hch, Hd by exact Hc. reflexivity.
    + unfold get_channel_depth. rewrite ltb_channels by exact Hc. cbn [negb].
      rewrite Hch by exact Hc. exact Hdp.
    + intros x y z. rewrite get_voxel_uniform; try exact Hc.
      * rewrite Hch by exact Hc. exact Hdv.
      * rewrite Hch by exact Hc. unfold has_data. rewrite Hd. reflexivity.
Qed.

Lemma set_default_values_result (b : VoxelBuffer) (values : list Z) :
  length (_channels b) = MAX_CHANNELS ->
  _size (set_default_values b values) = _size b /\
  length (_channels (set_default_values b values)) = MAX_CHANNELS /\
  forall i, (i < MAX_CHANNELS)%nat ->
    channel_at (set_default_values b values) i
      = set_defval (channel_at b i)
          (clamp_value_for_depth (default 0 (values !! i)) (depth (channel_at b i))).
Proof.
  intros Hlen. unfold set_default_values.
  set (new := fun j => set_defval (channel_at b j)
                (clamp_value_for_depth (default 0 (values !! j)) (depth (channel_at b j)))).
  pose proof (iterate_invariant
           (fun i s =>
              _size s = _size b /\ length (_channels s) = MAX_CHANNELS /\
              forall j, (j < MAX_CHANNELS)%nat ->
                channel_at s j = if Z.of_nat j <? i then new j else channel_at b j)
           (fun i b =>
              let channel := channel_at b (Z.to_nat i) in
              set_channel b (Z.to_nat i)
                (set_defval channel
                   (clamp_value_for_depth (default 0 (values !! Z.to_nat i))
                      (depth channel))))
           MAX_CHANNELS 0 b) as H.
  cbv beta in H. destruct H as (Hs & Hl & Hch).
  - split_all; try reflexivity; try assumption.
    intros j Hj. replace (Z.of_nat j <? 0) with false by (symmetry; apply Z.ltb_ge; lia).
    reflexivity.
  - intros i s Hi (Hs & Hl & Hch).
    assert (Hk : (Z.to_nat i < MAX_CHANNELS)%nat) by (unfold MAX_CHANNELS in *; lia).
    pose proof (Hch _ Hk) as Hcur.
    replace (Z.of_nat (Z.to_nat i) <? i) with false in Hcur
      by (symmetry; apply Z.ltb_ge; lia).
    cbn zeta. split; [exact Hs|]. split; [rewrite length_set_channel; exact Hl|].
    intros j Hj. destruct (decide (j = Z.to_nat i)) as [->|Hne].
    + rewrite channel_at_set_channel_eq by lia.
      replace (Z.of_nat (Z.to_nat i) <? i + 1) with true
        by (symmetry; apply Z.ltb_lt; lia).
      rewrite Hcur. reflexivity.
    + rewrite channel_at_set_channel_ne by congruence. rewrite Hch by exact Hj.
      replace (Z.of_nat j <? i + 1) with (Z.of_nat j <? i); [reflexivity|].
      destruct (Z.of_nat j <? i) eqn:E.
      * apply Z.ltb_lt in E. symmetry. apply Z.ltb_lt. lia.
      * apply Z.ltb_ge in E. symmetry. apply Z.ltb_ge. lia.
  - split_all; try assumption.
    intros i Hi. rewrite Hch by exact Hi.
    replace (Z.of_nat i <? 0 + Z.of_nat MAX_CHANNELS) with true
      by (symmetry; apply Z.ltb_lt; lia).
    reflexivity.
Qed.

Lemma channel_ok_set_defval (size : Vector3i) (ch : Channel) (v : Z) :
  channel_ok size ch = true -> 0 <= v <= get_max_value_for_depth (depth ch) ->
  channel_ok size (set_defval ch v) = true.
Proof.
  unfold channel_ok. cbn [set_defval defval depth data size_in_bytes].
  intros H Hv. apply andb_true_iff in H as [_ H]. rewrite H.
  replace (0 <=? v) with true by (symmetry; apply Z.leb_le; lia).
  replace (v <=? _) with true by (symmetry; apply Z.leb_le; lia).
  reflexivity.
Qed.

(** X5.  [set_default_values] never touches a buffer: the compression and
    the depth of every channel are kept; the voxels of a materialised
    channel read as before, and a uniform channel reads its new value
    clamped to the depth of the channel. *)
Theorem set_default_values_keeps_voxels (b : VoxelBuffer) (values : list Z) :
  well_formed b = true -> Forall (fun v => 0 <= v) values ->
  well_formed (set_default_values b values) = true /\
  _size (set_default_values b values) = _size b /\
  forall c, (c < MAX_CHANNELS)%nat ->
    get_channel_compression (set_default_values b values) c = get_channel_compression b c /\
    get_channel_depth (set_default_values b values) c = get_channel_depth b c /\
    forall x y z, validate_pos b x y z = true ->
      get_voxel (set_default_values b values) x y z c
        = match get_channel_compression b c with
          | COMPRESSION_NONE => get_voxel b x y z c
          | COMPRESSION_UNIFORM =>
              clamp_value_for_depth (default 0 (values !! c)) (depth (channel_at b c))
          end.
Proof.
  intros Hwfb Hvals.
  pose proof (well_formed_spec b Hwfb) as Hwf.
  destruct (set_default_values_result b values (wf_channels b Hwf)) as (Hs & Hl & Hch).
  assert (Hnn : forall c, 0 <= default 0 (values !! c)).
  { intros c. destruct (values !! c) as [v|] eqn:E; cbn; [|lia].
    rewrite Forall_lookup in Hvals. exact (Hvals _ _ E). }
  split_all.
  - apply well_formed_intro; rewrite ?Hs; try apply Hwf; try exact Hl.
    intros i Hi. rewrite Hch by exact Hi.
    apply channel_ok_set_defval; [apply Hwf, Hi|]. apply clamp_value_range, Hnn.
  - exact Hs.
  - intros c Hc. split_all.
    + unfold get_channel_compression. rewrite ltb_channels by exact Hc. cbn [negb].
      rewrite Hch by exact Hc. reflexivity.
    + unfold get_channel_depth. rewrite ltb_channels by exact Hc. cbn [negb].
      rewrite Hch by exact Hc. reflexivity.
    + intros x y z Hp.
      assert (Hp' : validate_pos (set_default_values b values) x y z = true).
      { unfold validate_pos in *. rewrite Hs. exact Hp. }
      rewrite get_voxel_in_range by assumption. rewrite Hch by exact Hc.
      cbn [set_defval data depth defval].
      unfold get_channel_compression. rewrite ltb_channels by exact Hc. cbn [negb].
      destruct (data (channel_at b c)) eqn:E.
      * rewrite get_voxel_in_range by assumption. rewrite E.
        unfold index. rewrite Hs. reflexivity.
      * reflexivity.
Qed.

Section MoreStorageProperties.

Variable pool_bytes : Z -> nat -> Z.

Lemma decompress_channel_result (b : VoxelBuffer) (c : nat) :
  well_formed b = true -> (c < MAX_CHANNELS)%nat ->
  depth (channel_at b c) <> DEPTH_1_BIT ->
  exists b',
    decompress_channel pool_bytes b c = Finished b' [] /\
    well_formed b' = true /\
    _size b' = _size b /\
    get_channel_compression b' c = COMPRESSION_NONE /\
    (forall c', get_channel_depth b' c' = get_channel_depth b c') /\
    (forall c' x y z, get_voxel b' x y z c' = get_voxel b x y z c').
Proof.
  intros Hwfb Hc Hdp.
  pose proof (well_formed_spec b Hwfb) as Hwf.
  pose proof (wf_channels b Hwf) as Hlen.
  pose proof (wf_channel_ok b Hwf c Hc) as Hok.
  unfold decompress_channel. rewrite ltb_channels by exact Hc. cbn [negb].
  destruct (has_data (channel_at b c)) eqn:E.
  - exists b. split_all; try reflexivity; try assumption.
    unfold get_channel_compression. rewrite ltb_channels by exact Hc. cbn [negb].
    unfold has_data in E. destruct (data (channel_at b c)); [reflexivity|discriminate].
  - destruct (create_channel_uniform pool_bytes b c (defval (channel_at b c)) Hwf Hc Hdp
                (channel_ok_defval _ _ Hok)) as (d & Hrun & Hld & Hbd & Hrd).
    eexists. split; [exact Hrun|]. split_all.
    + apply well_formed_set_channel; [assumption|].
      apply channel_ok_intro; try assumption. exact (channel_ok_defval _ _ Hok).
    + reflexivity.
    + unfold get_channel_compression. rewrite ltb_channels by exact Hc. cbn [negb].
      rewrite channel_at_set_channel_eq by lia. reflexivity.
    + intros c'. unfold get_channel_depth.
      destruct (c' <? MAX_CHANNELS)%nat; cbn [negb]; [|reflexivity].
      destruct (decide (c' = c)) as [->|Hne].
      * rewrite channel_at_set_channel_eq by lia. reflexivity.
      * rewrite channel_at_set_channel_ne by congruence. reflexivity.
    + intros c' x y z. destruct (decide (c' = c)) as [->|Hne].
      * destruct (validate_pos b x y z) eqn:Hp.
        -- rewrite get_voxel_set_channel by assumption. cbn [data depth].
           rewrite Hrd by (apply index_in_volume; assumption).
           symmetry. apply get_voxel_uniform; assumption.
        -- unfold get_voxel. rewrite ltb_channels by exact Hc. cbn [negb].
           change (validate_pos (set_channel b c _) x y z) with (validate_pos b x y z).
           rewrite Hp. rewrite channel_at_set_channel_eq by lia. reflexivity.
      * unfold get_voxel. rewrite channel_at_set_channel_ne by congruence. reflexivity.
Qed.

(** X6.  [decompress_channel(c)] on a well-formed block, at a depth other
    than D1: the channel has a buffer afterwards, and no voxel of any
    channel changes; size and depths are kept. *)
Theorem decompress_channel_keeps_voxels (b : VoxelBuffer) (c : nat) :
  well_formed b = true -> (c < MAX_CHANNELS)%nat ->
  depth (channel_at b c) <> DEPTH_1_BIT ->
  exists b',
    decompress_channel pool_bytes b c = Finished b' [] /\
    well_formed b' = true /\
    _size b' = _size b /\
    get_channel_compression b' c = COMPRESSION_NONE /\
    (forall c', get_channel_depth b' c' = get_channel_depth b c') /\
    (forall c' x y z, get_voxel b' x y z c' = get_voxel b x y z c').
Proof. exact (decompress_channel_result b c). Qed.

End MoreStorageProperties.

(** X7.  [set_channel_depth] never stores the new depth:
    [get_channel_depth] returns afterwards what it returned before, for every
    channel.  When the new depth differs from the present one the channel is
    made uniform (with a warning if it had a buffer) and its [defval] is
    clamped to the new depth. *)
Theorem set_channel_depth_keeps_depth (b : VoxelBuffer) (c : nat) (new_depth : Depth) :
  length (_channels b) = MAX_CHANNELS -> (c < MAX_CHANNELS)%nat ->
  exists b' log,
    set_channel_depth b c new_depth = Finished b' log /\
    (forall c', get_channel_depth b' c' = get_channel_depth b c') /\
    (depth (channel_at b c) <> new_depth ->
       get_channel_compression b' c = COMPRESSION_UNIFORM /\
       defval (channel_at b' c)
         = clamp_value_for_depth (defval (channel_at b c)) new_depth /\
       log = if has_data (channel_at b c) then [WARN_PRINT] else []).
Proof.
  intros Hlen Hc. unfold set_channel_depth. rewrite ltb_channels by exact Hc. cbn [negb].
  destruct (Depth_eqb (depth (channel_at b c)) new_depth) eqn:E.
  - exists b, []. split_all; try reflexivity.
    intros Hne. exfalso. apply Hne.
    destruct (depth (channel_at b c)), new_depth; try reflexivity; discriminate.
  - assert (Hdepths : forall ch c',
              depth ch = depth (channel_at b c) ->
              get_channel_depth (set_channel b c ch) c' = get_channel_depth b c').
    { intros ch c' Hd. unfold get_channel_depth.
      destruct (c' <? MAX_CHANNELS)%nat; cbn [negb]; [|reflexivity].
      destruct (decide (c' = c)) as [->|Hne].
      - rewrite channel_at_set_channel_eq by lia. exact Hd.
      - rewrite channel_at_set_channel_ne by congruence. reflexivity. }
    unfold has_data, delete_channel.
    destruct (data (channel_at b c)) eqn:Ed; cbn [bind fail_with ret app].
    + rewrite Ed. cbn [bind fail_with ret app].
      rewrite channel_at_set_channel_eq, set_channel_set_channel by lia.
      do 2 eexists. split; [reflexivity|]. split.
      * intros c'. apply Hdepths. reflexivity.
      * intros _. split_all; try reflexivity.
        -- unfold get_channel_compression. rewrite ltb_channels by exact Hc. cbn [negb].
           rewrite channel_at_set_channel_eq by lia. reflexivity.
        -- rewrite channel_at_set_channel_eq by lia. reflexivity.
    + do 2 eexists. split; [reflexivity|]. split.
      * intros c'. apply Hdepths. reflexivity.
      * intros _. split_all; try reflexivity.
        -- unfold get_channel_compression. rewrite ltb_channels by exact Hc. cbn [negb].
           rewrite channel_at_set_channel_eq by lia. cbn. rewrite Ed. reflexivity.
        -- rewrite channel_at_set_channel_eq by lia. reflexivity.
Qed.

Lemma get_size_in_bytes_byte_depths_finishes (size : Vector3i) (dp : Depth) :
  dp <> DEPTH_1_BIT -> exists n, get_size_in_bytes_for_volume size dp = Finished n [].
Proof.
  intros Hdp. unfold get_size_in_bytes_for_volume.
  destruct dp; try congruence; cbn [Depth_eqb andb]; eexists; reflexivity.
Qed.

Section CreateProperties.

Variable pool_bytes : Z -> nat -> Z.

Lemma create_result (b : VoxelBuffer) (sx sy sz : Z) :
  WellFormed b -> 0 < sx -> 0 < sy -> 0 < sz ->
  mkVector3i sx sy sz <> _size b ->
  (forall i, (i < MAX_CHANNELS)%nat -> depth (channel_at b i) <> DEPTH_1_BIT) ->
  exists b',
    create pool_bytes b sx sy sz = Finished b' [] /\
    _size b' = mkVector3i sx sy sz /\
    length (_channels b') = MAX_CHANNELS /\
    forall i, (i < MAX_CHANNELS)%nat -> recreated b (channel_at b i) (channel_at b' i).
Proof.
  intros Hwf Hx Hy Hz Hne Hdepth.
  pose proof (wf_channels b Hwf) as Hlen.
  unfold create.
  replace ((sx <=? 0) || (sy <=? 0) || (sz <=? 0)) with false.
  2:{ symmetry. rewrite !orb_false_iff. split_all; apply Z.leb_gt; assumption. }
  replace (Vector3i_eqb (mkVector3i sx sy sz) (_size b)) with false.
  2:{ symmetry. apply not_true_is_false. intros E. apply Hne.
      unfold Vector3i_eqb in E. cbn [vx vy vz] in E.
      apply andb_true_iff in E as [E Ez]. apply andb_true_iff in E as [Ex Ey].
      apply Z.eqb_eq in Ex, Ey, Ez. destruct (_size b); cbn in *. congruence. }
  cbn [negb].
  destruct (for_range_rule
           (fun i s =>
              length (_channels s) = MAX_CHANNELS /\ _size s = _size b /\
              forall j, (j < MAX_CHANNELS)%nat ->
                if Z.of_nat j <? i then recreated b (channel_at b j) (channel_at s j)
                else channel_at s j = channel_at b j)
           (fun s =>
              length (_channels s) = MAX_CHANNELS /\
              forall j, (j < MAX_CHANNELS)%nat ->
                recreated b (channel_at b j) (channel_at s j))
           (fun i b0 =>
              if has_data (channel_at b0 (Z.to_nat i))
              then let* b1 := delete_channel b0 (Z.to_nat i) in
                   create_channel pool_bytes b1 (Z.to_nat i) (mkVector3i sx sy sz)
                     (defval (channel_at b0 (Z.to_nat i)))
              else ret b0)
           0 (Z.of_nat MAX_CHANNELS) b) as (s' & Hrun & Hl' & Hch').
  - unfold MAX_CHANNELS. lia.
  - split_all; try reflexivity; try assumption.
    intros j Hj. replace (Z.of_nat j <? 0) with false by (symmetry; apply Z.ltb_ge; lia).
    reflexivity.
  - intros i s Hi (Hl & Hs & Hch). cbn zeta.
    assert (Hk : (Z.to_nat i < MAX_CHANNELS)%nat) by (unfold MAX_CHANNELS in *; lia).
    set (k := Z.to_nat i) in *.
    pose proof (Hch _ Hk) as Hcur.
    replace (Z.of_nat k <? i) with false in Hcur by (symmetry; apply Z.ltb_ge; lia).
    assert (Hstep : forall s',
               (forall j, j <> k -> channel_at s' j = channel_at s j) ->
               recreated b (channel_at b k) (channel_at s' k) ->
               forall j, (j < MAX_CHANNELS)%nat ->
                 if Z.of_nat j <? i + 1
                 then recreated b (channel_at b j) (channel_at s' j)
                 else channel_at s' j = channel_at b j).
    { intros s' Hold Hnew j Hj.
      destruct (decide (j = k)) as [->|Hnk].
      - replace (Z.of_nat k <? i + 1) with true by (symmetry; apply Z.ltb_lt; lia).
        exact Hnew.
      - rewrite Hold by exact Hnk. specialize (Hch j Hj).
        replace (Z.of_nat j <? i + 1) with (Z.of_nat j <? i); [exact Hch|].
        destruct (Z.of_nat j <? i) eqn:E.
        + apply Z.ltb_lt in E. symmetry. apply Z.ltb_lt. lia.
        + apply Z.ltb_ge in E. symmetry. apply Z.ltb_ge. lia. }
    rewrite Hcur. unfold has_data.
    destruct (data (channel_at b k)) as [d0|] eqn:Ed.
    + unfold delete_channel. rewrite Hcur, Ed. cbn [bind ret app].
      set (ch := channel_at b k) in *.
      set (s1 := set_channel s k (set_data ch None 0)).
      unfold create_channel, create_channel_noinit.
      assert (Hc1 : channel_at s1 k = set_data ch None 0)
        by (subst s1; apply channel_at_set_channel_eq; lia).
      rewrite Hc1. cbn [set_data depth].
      destruct (get_size_in_bytes_byte_depths_finishes (mkVector3i sx sy sz) (depth ch)
                  (Hdepth k Hk)) as (n & ->).
      cbn [bind ret app data defval depth size_in_bytes].
      subst s1. rewrite set_channel_set_channel.
      set (s2 := set_channel s k _).
      assert (Hc2 : channel_at s2 k
                    = mkChannel (Some (allocate_channel_data pool_bytes n))
                                (defval ch) (depth ch) n)
        by (subst s2; apply channel_at_set_channel_eq; lia).
      destruct (fill_materialised pool_bytes b s2 k (defval ch)
                  (allocate_channel_data pool_bytes n))
        as (d & Hfill & Hld & Hbd & Hrd); try assumption.
      { subst s2. rewrite length_set_channel. exact Hl. }
      { rewrite Hc2. reflexivity. }
      { rewrite Hc2. exact (Hdepth k Hk). }
      { apply (channel_ok_defval (_size b) ch). apply Hwf. exact Hk. }
      rewrite Hfill. rewrite Hc2 in *. cbn [defval depth] in *.
      subst s2. rewrite set_channel_set_channel.
      eexists. split; [reflexivity|].
      split; [rewrite length_set_channel; exact Hl|]. split; [exact Hs|].
      apply Hstep.
      * intros j Hnk. apply channel_at_set_channel_ne. congruence.
      * unfold recreated. fold ch. rewrite Ed. exists d. split_all.
        -- apply channel_at_set_channel_eq. lia.
        -- exact Hld.
        -- intros j Hj. rewrite Hrd by exact Hj.
           apply clamp_value_small.
           apply (channel_ok_defval (_size b) ch). apply Hwf. exact Hk.
    + eexists. split; [reflexivity|]. split; [exact Hl|]. split; [exact Hs|].
      apply Hstep; [reflexivity|]. unfold recreated. rewrite Ed. exact Hcur.
  - intros s' (Hl & Hs & Hch). split; [exact Hl|].
    intros j Hj. specialize (Hch j Hj).
    replace (Z.of_nat j <? Z.of_nat MAX_CHANNELS) with true in Hch
      by (symmetry; apply Z.ltb_lt; lia).
    exact Hch.
  - rewrite Hrun. cbn [bind ret app]. eexists. split; [reflexivity|].
    split; [reflexivity|]. split; [exact Hl'|]. exact Hch'.
Qed.

(** X8.  [create(sx, sy, sz)] with a size other than the present one: the
    block gets the new size, and compression, depth and [defval] of every
    channel are kept; but the buffer of a materialised channel is the one
    [fill] allocates, with the bytes of the OLD volume ([_size] is assigned
    after the loop), every voxel of it reading the [defval]. *)
Theorem create_resize_keeps_old_volume (b : VoxelBuffer) (sx sy sz : Z) :
  well_formed b = true -> 0 < sx -> 0 < sy -> 0 < sz ->
  mkVector3i sx sy sz <> _size b ->
  (forall i, (i < MAX_CHANNELS)%nat -> depth (channel_at b i) <> DEPTH_1_BIT) ->
  exists b',
    create pool_bytes b sx sy sz = Finished b' [] /\
    _size b' = mkVector3i sx sy sz /\
    forall c, (c < MAX_CHANNELS)%nat ->
      get_channel_compression b' c = get_channel_compression b c /\
      get_channel_depth b' c = get_channel_depth b c /\
      defval (channel_at b' c) = defval (channel_at b c) /\
      forall d, data (channel_at b' c) = Some d ->
        Z.of_nat (length d) = get_volume b * bytes_per_voxel (depth (channel_at b c)) /\
        forall j, 0 <= j < get_volume b ->
          read_voxel (depth (channel_at b c)) d j = defval (channel_at b c).
Proof.
  intros Hwfb Hx Hy Hz Hne Hdepth.
  destruct (create_result b sx sy sz (well_formed_spec b Hwfb) Hx Hy Hz Hne Hdepth)
    as (b' & Hrun & Hs & Hl & Hch).
  exists b'. split; [exact Hrun|]. split; [exact Hs|].
  intros c Hc. specialize (Hch c Hc). unfold recreated in Hch.
  unfold get_channel_compression, get_channel_depth.
  rewrite ltb_channels by exact Hc. cbn [negb].
  destruct (data (channel_at b c)) eqn:Ed.
  - destruct Hch as (d & -> & Hld & Hrd). cbn [data depth defval].
    split_all; try reflexivity.
    intros d' [= <-]. split; assumption.
  - rewrite Hch, Ed. split_all; try reflexivity. discriminate.
Qed.

End CreateProperties.

(** ** Uniformity, exactly *)

Lemma is_uniform_T_spec (w : nat) (d : Bytes) (size : Z) :
  is_uniform_T w d size = true <->
  forall i, 1 <= i < size -> typed_load w d i = typed_load w d 0.
Proof.
  unfold is_uniform_T. rewrite forallb_forall. split.
  - intros H i Hi. specialize (H (Z.to_nat i)).
    rewrite Z2Nat.id in H by lia. apply Z.eqb_eq, H, in_seq. lia.
  - intros H i Hi. apply in_seq in Hi. apply Z.eqb_eq, H. lia.
Qed.

Lemma is_uniform_voxels (b : VoxelBuffer) (c : nat) (d : Bytes) :
  (c < MAX_CHANNELS)%nat -> data (channel_at b c) = Some d ->
  scanned_by_voxel (depth (channel_at b c)) = true ->
  (is_uniform b c = true <->
   forall i, 1 <= i < get_volume b ->
     read_voxel (depth (channel_at b c)) d i = read_voxel (depth (channel_at b c)) d 0).
Proof.
  intros Hc Hd Hdp. unfold is_uniform. rewrite ltb_channels by exact Hc. cbn [negb].
  rewrite Hd.
  destruct (depth (channel_at b c)); try discriminate; cbn [read_voxel];
    rewrite is_uniform_T_spec; try reflexivity.
  split; intros H i Hi; specialize (H i Hi); rewrite ?typed_load_1 in *; exact H.
Qed.

Lemma is_uniform_24_bit_voxels (b : VoxelBuffer) (c : nat) (d : Bytes) :
  WellFormed b -> (c < MAX_CHANNELS)%nat -> data (channel_at b c) = Some d ->
  depth (channel_at b c) = DEPTH_24_BIT ->
  is_uniform b c = true ->
  forall i, 0 <= i < get_volume b ->
    read_voxel DEPTH_24_BIT d i = read_voxel DEPTH_24_BIT d 0.
Proof.
  intros Hwf Hc Hd Hdp. unfold is_uniform. rewrite ltb_channels by exact Hc. cbn [negb].
  rewrite Hd, Hdp. rewrite is_uniform_T_spec. intros H i Hi.
  assert (H32 : get_volume b * 3 < 2 ^ 32).
  { pose proof (buffer_below_2_32 b DEPTH_24_BIT Hwf ltac:(discriminate)) as Hb.
    exact Hb. }
  rewrite (to_uint32_small (get_volume b * 3)) in H by lia.
  assert (Hbyte : forall k, 0 <= k < get_volume b * 3 -> load8 d k = load8 d 0).
  { intros k Hk. destruct (decide (k = 0)) as [->|Hne]; [reflexivity|].
    rewrite <- !typed_load_1. apply H. lia. }
  cbn [read_voxel].
  rewrite !to_uint32_small by lia.
  rewrite (Hbyte (i * 3)), (Hbyte (i * 3 + 1)), (Hbyte (i * 3 + 2)) by lia.
  rewrite (Hbyte (0 * 3 + 1)), (Hbyte (0 * 3 + 2)) by lia. reflexivity.
Qed.

Lemma validate_pos_origin (b : VoxelBuffer) : WellFormed b -> validate_pos b 0 0 0 = true.
Proof. intros Hwf. destruct (wf_size b Hwf) as (? & ? & ?). apply validate_pos_intro; lia. Qed.

Lemma index_origin (b : VoxelBuffer) : index b 0 0 0 = 0.
Proof. reflexivity. Qed.

(** What the voxels of a channel with a buffer read, by their index. *)
Lemma get_voxel_by_index (b : VoxelBuffer) (c : nat) (d : Bytes) :
  WellFormed b -> (c < MAX_CHANNELS)%nat -> data (channel_at b c) = Some d ->
  forall (P : Z -> Z -> Prop),
    (forall x y z, validate_pos b x y z = true ->
                   P (index b x y z) (get_voxel b x y z c)) <->
    (forall i, 0 <= i < get_volume b -> P i (read_voxel (depth (channel_at b c)) d i)).
Proof.
  intros Hwf Hc Hd P. split.
  - intros H i Hi. destruct (index_surjective b i Hwf Hi) as (x & y & z & Hp & <-).
    specialize (H x y z Hp). rewrite get_voxel_in_range, Hd in H by assumption. exact H.
  - intros H x y z Hp. rewrite get_voxel_in_range, Hd by assumption.
    apply H, index_in_volume; assumption.
Qed.

(** [is_uniform] at the depths of whole bytes. *)
Lemma is_uniform_whole_bytes (b : VoxelBuffer) (c : nat) :
  well_formed b = true -> (c < MAX_CHANNELS)%nat ->
  depth (channel_at b c) <> DEPTH_1_BIT ->
  (is_uniform b c = true ->
   forall x y z, validate_pos b x y z = true ->
     get_voxel b x y z c = get_voxel b 0 0 0 c) /\
  (depth (channel_at b c) <> DEPTH_24_BIT ->
   (forall x y z, validate_pos b x y z = true ->
      get_voxel b x y z c = get_voxel b 0 0 0 c) ->
   is_uniform b c = true).
Proof.
  intros Hwfb Hc Hdp. pose proof (well_formed_spec b Hwfb) as Hwf.
  pose proof (volume_pos b Hwf) as Hpos.
  pose proof (validate_pos_origin b Hwf) as Ho.
  destruct (data (channel_at b c)) as [d|] eqn:Hd.
  2:{ split.
      - intros _ x y z _. rewrite !get_voxel_uniform; try assumption; try reflexivity;
          unfold has_data; rewrite Hd; reflexivity.
      - intros _ _. unfold is_uniform. rewrite ltb_channels by exact Hc. cbn [negb].
        rewrite Hd. reflexivity. }
  assert (H0 : get_voxel b 0 0 0 c = read_voxel (depth (channel_at b c)) d 0).
  { rewrite get_voxel_in_range, Hd by assumption. reflexivity. }
  rewrite H0.
  pose proof (get_voxel_by_index b c d Hwf Hc Hd
                (fun _ v => v = read_voxel (depth (channel_at b c)) d 0)) as Hidx.
  cbv beta in Hidx. split.
  - intros Hu. apply Hidx.
    destruct (scanned_by_voxel (depth (channel_at b c))) eqn:Hs.
    + intros i Hi. destruct (decide (i = 0)) as [->|Hne]; [reflexivity|].
      apply (is_uniform_voxels b c d Hc Hd Hs); [exact Hu | lia].
    + assert (H24 : depth (channel_at b c) = DEPTH_24_BIT)
        by (destruct (depth (channel_at b c)); try discriminate; congruence).
      rewrite H24. apply (is_uniform_24_bit_voxels b c d Hwf Hc Hd H24 Hu).
  - intros H24 Hall.
    assert (Hs : scanned_by_voxel (depth (channel_at b c)) = true)
      by (destruct (depth (channel_at b c)); try reflexivity; congruence).
    apply (is_uniform_voxels b c d Hc Hd Hs). intros i Hi.
    apply Hidx; [exact Hall | lia].
Qed.

(** X9.  On a channel of a well-formed block, at a depth other than D1: if
    [is_uniform] is true then every position in range reads the voxel of
    position (0,0,0); and at every such depth but D24, which is scanned byte
    by byte, the converse holds, so that [is_uniform] decides that the
    voxels are all equal. *)
Theorem is_uniform_exact (b : VoxelBuffer) (c : nat) :
  well_formed b = true -> (c < MAX_CHANNELS)%nat ->
  depth (channel_at b c) <> DEPTH_1_BIT ->
  (is_uniform b c = true ->
   forall x y z, validate_pos b x y z = true ->
     get_voxel b x y z c = get_voxel b 0 0 0 c) /\
  (depth (channel_at b c) <> DEPTH_24_BIT ->
   (forall x y z, validate_pos b x y z = true ->
      get_voxel b x y z c = get_voxel b 0 0 0 c) ->
   is_uniform b c = true).
Proof. exact (is_uniform_whole_bytes b c). Qed.

(** ** Compression keeps the voxels of the 8-bit channels *)

Lemma compress_uniform_channels_well_formed (b b' : VoxelBuffer) :
  well_formed b = true ->
  compress_uniform_channels b = Finished b' [] ->
  well_formed b' = true.
Proof.
  intros Hwfb Hrun. pose proof (well_formed_spec b Hwfb) as Hwf.
  destruct (compress_uniform_channels_spec b (wf_channels b Hwf))
    as (b'' & E & Hs & Hl & Hch).
  rewrite Hrun in E. injection E as <-.
  apply well_formed_intro; rewrite ?Hs; try apply Hwf; try exact Hl.
  intros i Hi. rewrite Hch by exact Hi.
  pose proof (wf_channel_ok b Hwf i Hi) as Hok.
  destruct (has_data (channel_at b i) && is_uniform b i) eqn:E; [|exact Hok].
  apply channel_ok_uniform, clamp_value_range.
  apply andb_true_iff in E as [E _]. unfold has_data in E.
  destruct (data (channel_at b i)) as [d|] eqn:Hd; [|discriminate]. cbn.
  apply load8_range. apply (channel_ok_bytes _ _ _ Hok Hd).
Qed.

(** [compress_uniform_channels] and the voxels of the 8-bit channels. *)
Lemma compress_uniform_channels_keeps_8_bit (b : VoxelBuffer) :
  well_formed b = true ->
  exists b',
    compress_uniform_channels b = Finished b' [] /\
    well_formed b' = true /\
    _size b' = _size b /\
    (forall c, get_channel_depth b' c = get_channel_depth b c) /\
    forall c x y z,
      depth (channel_at b c) = DEPTH_8_BIT -> validate_pos b x y z = true ->
      get_voxel b' x y z c = get_voxel b x y z c.
Proof.
  intros Hwfb. pose proof (well_formed_spec b Hwfb) as Hwf.
  pose proof (volume_pos b Hwf) as Hpos.
  destruct (compress_uniform_channels_spec b (wf_channels b Hwf))
    as (b' & E & Hs & Hl & Hch).
  exists b'. split; [exact E|]. split_all.
  - exact (compress_uniform_channels_well_formed b b' Hwfb E).
  - exact Hs.
  - intros c. unfold get_channel_depth.
    destruct (c <? MAX_CHANNELS)%nat eqn:Hc; cbn [negb]; [|reflexivity].
    apply Nat.ltb_lt in Hc. rewrite Hch by exact Hc.
    destruct (has_data (channel_at b c) && is_uniform b c); reflexivity.
  - intros c x y z Hdp Hp.
    destruct (c <? MAX_CHANNELS)%nat eqn:Hc.
    2:{ unfold get_voxel. rewrite Hc. reflexivity. }
    apply Nat.ltb_lt in Hc.
    assert (Hp' : validate_pos b' x y z = true)
      by (unfold validate_pos in *; rewrite Hs; exact Hp).
    rewrite (get_voxel_in_range b') by assumption. rewrite Hch by exact Hc.
    destruct (has_data (channel_at b c) && is_uniform b c) eqn:Ec.
    + apply andb_true_iff in Ec as [Eh Eu]. unfold has_data in Eh.
      destruct (data (channel_at b c)) as [d|] eqn:Hd; [|discriminate].
      cbn [data defval default from_option id].
      pose proof (wf_channel_ok b Hwf c Hc) as Hok.
      rewrite get_voxel_in_range, Hd, Hdp by assumption. cbn [read_voxel].
      rewrite clamp_value_small.
      2:{ pose proof (load8_range d 0 (channel_ok_bytes _ _ _ Hok Hd)). cbn. lia. }
      assert (Hsc : scanned_by_voxel (depth (channel_at b c)) = true)
        by (rewrite Hdp; reflexivity).
      pose proof (proj1 (is_uniform_voxels b c d Hc Hd Hsc) Eu) as Hall.
      rewrite Hdp in Hall. cbn [read_voxel] in Hall.
      pose proof (index_in_volume b x y z Hwf Hp) as Hi.
      destruct (decide (index b x y z = 0)) as [->|Hne]; [reflexivity|].
      symmetry. apply Hall. lia.
    + rewrite get_voxel_in_range by assumption.
      unfold index. rewrite Hs. reflexivity.
Qed.

(** X10.  [compress_uniform_channels] on a well-formed block prints
    nothing, gives a well-formed block of the same size and depths, and
    changes no voxel of a channel of depth D8. *)
Theorem compress_uniform_channels_lossless_8_bit (b : VoxelBuffer) :
  well_formed b = true ->
  exists b',
    compress_uniform_channels b = Finished b' [] /\
    well_formed b' = true /\
    _size b' = _size b /\
    (forall c, get_channel_depth b' c = get_channel_depth b c) /\
    forall c x y z,
      depth (channel_at b c) = DEPTH_8_BIT -> validate_pos b x y z = true ->
      get_voxel b' x y z c = get_voxel b x y z c.
Proof. exact (compress_uniform_channels_keeps_8_bit b). Qed.

Section CompressDecompress.

Variable pool_bytes : Z -> nat -> Z.

(** X11.  At depth D8 [decompress_channel] is undone by
    [compress_uniform_channels]: decompressing a channel and then
    compressing gives the very block that compressing alone gives. *)
Theorem compress_after_decompress_8_bit (b : VoxelBuffer) (c : nat) :
  well_formed b = true -> (c < MAX_CHANNELS)%nat ->
  depth (channel_at b c) = DEPTH_8_BIT ->
  exists b1 b2,
    decompress_channel pool_bytes b c = Finished b1 [] /\
    compress_uniform_channels b1 = Finished b2 [] /\
    compress_uniform_channels b = Finished b2 [].
Proof.
  intros Hwfb Hc Hdp. pose proof (well_formed_spec b Hwfb) as Hwf.
  pose proof (wf_channels b Hwf) as Hlen.
  pose proof (wf_channel_ok b Hwf c Hc) as Hok.
  pose proof (volume_pos b Hwf) as Hpos.
  unfold decompress_channel. rewrite ltb_channels by exact Hc. cbn [negb].
  destruct (has_data (channel_at b c)) eqn:Eh.
  { destruct (compress_uniform_channels_spec b Hlen) as (b2 & E & _).
    exists b, b2. split_all; [reflexivity | exact E | exact E]. }
  assert (Hdp1 : depth (channel_at b c) <> DEPTH_1_BIT) by (rewrite Hdp; discriminate).
  destruct (create_channel_uniform pool_bytes b c (defval (channel_at b c)) Hwf Hc Hdp1
              (channel_ok_defval _ _ Hok)) as (d & Hrun & Hld & Hbd & Hrd).
  rewrite Hrun. set (b1 := set_channel b c _) in *.
  assert (Hl1 : length (_channels b1) = MAX_CHANNELS)
    by (subst b1; rewrite length_set_channel; exact Hlen).
  assert (Hc1 : channel_at b1 c
                = mkChannel (Some d) (defval (channel_at b c)) (depth (channel_at b c))
                            (Z.of_nat (length d)))
    by (subst b1; apply channel_at_set_channel_eq; lia).
  destruct (compress_uniform_channels_spec b Hlen) as (b2 & E2 & Hs2 & Hl2 & Hch2).
  destruct (compress_uniform_channels_spec b1 Hl1) as (b3 & E3 & Hs3 & Hl3 & Hch3).
  exists b1, b3. split; [reflexivity|]. split; [exact E3|].
  rewrite E2. f_equal. apply channels_eq; try assumption.
  { rewrite Hs2, Hs3. reflexivity. }
  intros i Hi. rewrite Hch2, Hch3 by exact Hi.
  destruct (decide (i = c)) as [->|Hne].
  - rewrite Eh. cbn [andb]. rewrite Hc1. unfold has_data at 1. cbn [data andb].
    assert (Hu : is_uniform b1 c = true).
    { apply (is_uniform_voxels b1 c d Hc).
      - rewrite Hc1. reflexivity.
      - rewrite Hc1. cbn [depth]. rewrite Hdp. reflexivity.
      - intros i Hi'. rewrite Hc1. cbn [depth].
        change (get_volume b1) with (get_volume b) in Hi'.
        rewrite !Hrd by lia. reflexivity. }
    rewrite Hu. cbn [depth defval data default from_option id].
    specialize (Hrd 0 ltac:(lia)). rewrite Hdp in Hrd. cbn [read_voxel] in Hrd.
    rewrite Hrd. rewrite clamp_value_small by apply (channel_ok_defval _ _ Hok).
    destruct (channel_at b c) as [dt dv dp sb] eqn:Ech. cbn [defval depth] in *.
    unfold has_data in Eh. cbn in Eh. destruct dt; [discriminate|].
    pose proof (channel_ok_size_uniform _ _ Hok eq_refl) as Hsb. cbn in Hsb. subst sb.
    reflexivity.
  - subst b1. rewrite channel_at_set_channel_ne by congruence.
    rewrite is_uniform_set_channel_ne by congruence. reflexivity.
Qed.

End CompressDecompress.

(** ** Comparing blocks *)

Lemma Depth_eqb_eq (a b : Depth) : Depth_eqb a b = true <-> a = b.
Proof. split; [destruct a, b; (reflexivity || discriminate) | intros ->; apply Depth_eqb_refl]. Qed.

Lemma Depth_eqb_sym (a b : Depth) : Depth_eqb a b = Depth_eqb b a.
Proof. destruct a, b; reflexivity. Qed.

Lemma Vector3i_eqb_eq (a b : Vector3i) : Vector3i_eqb a b = true <-> a = b.
Proof.
  split; [|intros ->; apply Vector3i_eqb_refl].
  unfold Vector3i_eqb. intros E.
  apply andb_true_iff in E as [E Ez]. apply andb_true_iff in E as [Ex Ey].
  apply Z.eqb_eq in Ex, Ey, Ez. destruct a, b; cbn in *. congruence.
Qed.

Lemma Vector3i_eqb_sym (a b : Vector3i) : Vector3i_eqb a b = Vector3i_eqb b a.
Proof. unfold Vector3i_eqb. rewrite (Z.eqb_sym (vx a)), (Z.eqb_sym (vy a)), (Z.eqb_sym (vz a)). reflexivity. Qed.

Lemma equals_from_true (a b : VoxelBuffer) :
  forall n i, equals_from a b n i = Finished true [] ->
    forall j, (i <= j < i + n)%nat -> same_channel (channel_at a j) (channel_at b j).
Proof.
  induction n as [|n IH]; intros i H j Hj; [lia|].
  cbn [equals_from] in H. unfold has_data in H.
  destruct (decide (j = i)) as [->|Hne].
  - unfold same_channel.
    destruct (Depth_eqb (depth (channel_at a i)) (depth (channel_at b i))) eqn:Ed.
    2:{ destruct (data (channel_at a i)), (data (channel_at b i)); discriminate. }
    apply Depth_eqb_eq in Ed. split; [exact Ed|].
    destruct (data (channel_at a i)) as [d|], (data (channel_at b i)) as [od|];
      cbn [negb Bool.eqb] in H; try discriminate.
    + destruct (size_in_bytes (channel_at a i) =? size_in_bytes (channel_at b i)) eqn:Es;
        cbn [negb] in H; [|discriminate].
      apply Z.eqb_eq in Es. split; [exact Es|].
      cbn [default from_option id] in H.
      destruct (forallb _ _) eqn:Ef in H; [|discriminate].
      rewrite forallb_forall in Ef. intros k Hk.
      specialize (Ef (Z.to_nat k)). rewrite Z2Nat.id in Ef by lia.
      apply Z.eqb_eq, Ef, in_seq. lia.
    + destruct (defval (channel_at a i) =? defval (channel_at b i)) eqn:Ev;
        cbn [negb] in H; [|discriminate].
      apply Z.eqb_eq. exact Ev.
  - apply (IH (S i)); [|lia].
    destruct (negb (Bool.eqb _ _)); [discriminate|].
    destruct (negb (Depth_eqb _ _)); [discriminate|].
    destruct (data (channel_at a i)).
    + destruct (negb (_ =? _)); [discriminate|].
      destruct (forallb _ _); [exact H|discriminate].
    + destruct (negb (_ =? _)); [discriminate|exact H].
Qed.

Lemma channel_ok_size (size : Vector3i) (c : Channel) (d : Bytes) :
  channel_ok size c = true -> data c = Some d -> size_in_bytes c = Z.of_nat (length d).
Proof.
  unfold channel_ok. intros H Hd. rewrite Hd in H.
  apply andb_true_iff in H as [_ H]. apply andb_true_iff in H as [H _].
  apply andb_true_iff in H as [_ H]. apply Z.eqb_eq. exact H.
Qed.

Lemma bytes_eq (d od : Bytes) :
  length d = length od ->
  (forall k, 0 <= k < Z.of_nat (length d) -> load8 d k = load8 od k) -> d = od.
Proof.
  intros Hl H. apply list_eq_same_length with (length d); try lia.
  intros i x y Hi Hx Hy. specialize (H (Z.of_nat i) ltac:(lia)).
  unfold load8 in H. rewrite Nat2Z.id, Hx, Hy in H. exact H.
Qed.

(** X12.  When [equals] is true of two well-formed blocks they have the same
    size, and per channel the same depth, the same compression and the same
    voxel at every position in range. *)
Theorem equals_true_same_voxels (a b : VoxelBuffer) :
  well_formed a = true -> well_formed b = true ->
  equals a b = Finished true [] ->
  _size a = _size b /\
  (forall c, get_channel_depth a c = get_channel_depth b c) /\
  (forall c, get_channel_compression a c = get_channel_compression b c) /\
  forall c x y z, validate_pos a x y z = true ->
    get_voxel a x y z c = get_voxel b x y z c.
Proof.
  intros Hwfa Hwfb. pose proof (well_formed_spec a Hwfa) as Ha.
  pose proof (well_formed_spec b Hwfb) as Hb.
  unfold equals.
  destruct (Vector3i_eqb (_size b) (_size a)) eqn:Es; cbn [negb]; [|discriminate].
  apply Vector3i_eqb_eq in Es. intros Heq.
  pose proof (equals_from_true a b _ _ Heq) as Hch.
  assert (Hsame : forall c, (c < MAX_CHANNELS)%nat ->
                            depth (channel_at a c) = depth (channel_at b c) /\
                            (data (channel_at a c) = data (channel_at b c) \/
                             data (channel_at a c) = None /\ data (channel_at b c) = None /\
                             defval (channel_at a c) = defval (channel_at b c))).
  { intros c Hc. destruct (Hch c ltac:(lia)) as (Hd & Hm). split; [exact Hd|].
    pose proof (wf_channel_ok a Ha c Hc) as Hoka.
    pose proof (wf_channel_ok b Hb c Hc) as Hokb.
    destruct (data (channel_at a c)) as [d|] eqn:Eda,
             (data (channel_at b c)) as [od|] eqn:Edb; try contradiction.
    - left. f_equal. destruct Hm as (Hsz & Hbytes).
      pose proof (channel_ok_size _ _ _ Hoka Eda) as Hla.
      pose proof (channel_ok_size _ _ _ Hokb Edb) as Hlb.
      apply bytes_eq; [lia|]. intros k Hk. apply Hbytes. lia.
    - right. auto. }
  split; [symmetry; exact Es|]. split_all.
  - intros c. unfold get_channel_depth.
    destruct (c <? MAX_CHANNELS)%nat eqn:Hc; cbn [negb]; [|reflexivity].
    apply Nat.ltb_lt in Hc. apply (Hsame c Hc).
  - intros c. unfold get_channel_compression.
    destruct (c <? MAX_CHANNELS)%nat eqn:Hc; cbn [negb]; [|reflexivity].
    apply Nat.ltb_lt in Hc.
    destruct (Hsame c Hc) as (_ & [-> | (-> & -> & _)]); reflexivity.
  - intros c x y z Hp.
    destruct (c <? MAX_CHANNELS)%nat eqn:Hc.
    2:{ unfold get_voxel. rewrite Hc. reflexivity. }
    apply Nat.ltb_lt in Hc.
    assert (Hp' : validate_pos b x y z = true)
      by (unfold validate_pos in *; rewrite Es; exact Hp).
    rewrite !get_voxel_in_range by assumption.
    unfold index. rewrite Es.
    destruct (Hsame c Hc) as (Hd & [Hdt | (Hda & Hdb & Hv)]).
    + rewrite Hd, Hdt. destruct (data (channel_at b c)) eqn:E; [reflexivity|].
      destruct (Hch c ltac:(lia)) as (_ & Hm). rewrite Hdt, E in Hm. exact Hm.
    + rewrite Hda, Hdb. exact Hv.
Qed.

Lemma forallb_ext_in {A : Type} (f g : A -> bool) (l : list A) :
  (forall x, In x l -> f x = g x) -> forallb f l = forallb g l.
Proof.
  induction l as [|x l IH]; intros H; [reflexivity|]. cbn [forallb].
  rewrite (H x) by (left; reflexivity). rewrite IH; [reflexivity|].
  intros y Hy. apply H. right. exact Hy.
Qed.

Lemma equals_from_sym (a b : VoxelBuffer) :
  forall n i, equals_from a b n i = equals_from b a n i.
Proof.
  induction n as [|n IH]; intros i; cbn [equals_from]; [reflexivity|].
  rewrite (Depth_eqb_sym (depth (channel_at b i))).
  rewrite (Z.eqb_sym (defval (channel_at b i))).
  rewrite (Z.eqb_sym (size_in_bytes (channel_at b i))).
  unfold has_data.
  destruct (data (channel_at a i)) as [d|], (data (channel_at b i)) as [od|];
    cbn [negb Bool.eqb default from_option id]; try reflexivity.
  - destruct (Depth_eqb _ _); cbn [negb]; [|reflexivity].
    destruct (size_in_bytes (channel_at a i) =? size_in_bytes (channel_at b i)) eqn:Es;
      cbn [negb]; [|reflexivity].
    apply Z.eqb_eq in Es. rewrite <- Es.
    rewrite (forallb_ext_in
               (fun k => load8 od (Z.of_nat k) =? load8 d (Z.of_nat k))
               (fun k => load8 d (Z.of_nat k) =? load8 od (Z.of_nat k)))
      by (intros; apply Z.eqb_sym).
    rewrite IH. reflexivity.
  - destruct (Depth_eqb _ _); cbn [negb]; [|reflexivity].
    destruct (_ =? _); cbn [negb]; [apply IH|reflexivity].
Qed.

(** X13.  [equals] is symmetric: [a.equals(b)] and [b.equals(a)] return
    the same result and print the same. *)
Theorem equals_sym (a b : VoxelBuffer) : equals a b = equals b a.
Proof.
  unfold equals. rewrite (Vector3i_eqb_sym (_size b)).
  destruct (Vector3i_eqb _ _); cbn [negb]; [apply equals_from_sym|reflexivity].
Qed.

Lemma equals_from_differ (a b : VoxelBuffer) (c : nat) :
  has_data (channel_at a c) <> has_data (channel_at b c) ->
  forall n i, (i <= c < i + n)%nat ->
    (forall j, (i <= j < c)%nat -> channel_at a j = channel_at b j) ->
    equals_from a b n i = Finished false [].
Proof.
  intros Hdiff. induction n as [|n IH]; intros i Hi Hsame; [lia|].
  cbn [equals_from].
  destruct (decide (i = c)) as [->|Hne].
  - destruct (has_data (channel_at a c)), (has_data (channel_at b c));
      try congruence; reflexivity.
  - rewrite (Hsame i) by lia.
    rewrite eqb_reflx, Depth_eqb_refl. cbn [negb].
    destruct (data (channel_at b i)) as [d|].
    + rewrite Z.eqb_refl. cbn [negb default from_option id].
      replace (forallb _ _) with true.
      * apply IH; [lia|]. intros j Hj. apply Hsame. lia.
      * symmetry. apply forallb_forall. intros k _. apply Z.eqb_refl.
    + rewrite Z.eqb_refl. cbn [negb]. apply IH; [lia|]. intros j Hj. apply Hsame. lia.
Qed.

Section EqualsCompression.

Variable pool_bytes : Z -> nat -> Z.

(** X14.  [equals] compares representations, not voxels: decompressing a
    uniform channel changes no voxel, and the result is not [equals] to the
    block it came from. *)
Theorem equals_tells_compression_apart (b : VoxelBuffer) (c : nat) :
  well_formed b = true -> (c < MAX_CHANNELS)%nat ->
  depth (channel_at b c) <> DEPTH_1_BIT ->
  get_channel_compression b c = COMPRESSION_UNIFORM ->
  exists b',
    decompress_channel pool_bytes b c = Finished b' [] /\
    (forall c' x y z, get_voxel b' x y z c' = get_voxel b x y z c') /\
    equals b' b = Finished false [].
Proof.
  intros Hwfb Hc Hdp Hcomp.
  destruct (decompress_channel_result pool_bytes b c Hwfb Hc Hdp)
    as (b' & Hrun & _ & Hs & Hcomp' & _ & Hread).
  exists b'. split; [exact Hrun|]. split; [exact Hread|].
  unfold equals. rewrite Hs, Vector3i_eqb_refl. cbn [negb].
  apply (equals_from_differ b' b c).
  - unfold get_channel_compression in *. rewrite ltb_channels in * by exact Hc.
    cbn [negb] in *. unfold has_data.
    destruct (data (channel_at b' c)), (data (channel_at b c)); congruence.
  - unfold MAX_CHANNELS in *. lia.
  - intros j Hj.
    unfold decompress_channel in Hrun. rewrite ltb_channels in Hrun by exact Hc.
    cbn [negb] in Hrun.
    destruct (has_data (channel_at b c)) eqn:Eh.
    + injection Hrun as <-. reflexivity.
    + pose proof (well_formed_spec b Hwfb) as Hwf.
      destruct (create_channel_uniform pool_bytes b c (defval (channel_at b c)) Hwf Hc Hdp
                  (channel_ok_defval _ _ (wf_channel_ok b Hwf c Hc)))
        as (d & Hrun' & _).
      rewrite Hrun' in Hrun. injection Hrun as <-.
      apply channel_at_set_channel_ne. lia.
Qed.

End EqualsCompression.

(** ** Full copies *)

Lemma for_loop_constant {A : Type} (body : Z -> A -> Outcome A) (s : A) (e : LogEntry) :
  forall (n : nat) (i0 : Z),
    (forall i, i0 <= i < i0 + Z.of_nat n -> body i s = Finished s [e]) ->
    for_loop n i0 body s = Finished s (replicate n e).
Proof.
  induction n as [|n IH]; intros i0 H; [reflexivity|].
  change (for_loop (S n) i0 body s)
    with (let* s' := body i0 s in for_loop n (i0 + 1) body s').
  rewrite H by lia. unfold bind. rewrite IH by (intros; apply H; lia).
  reflexivity.
Qed.

Section FullCopy.

Variable pool_bytes : Z -> nat -> Z.

(** X15.  [copy_from(other)] between blocks of different sizes copies
    nothing: every one of the [MAX_CHANNELS] channel copies is refused with
    an error, and the block is unchanged. *)
Theorem copy_from_size_mismatch (b other : VoxelBuffer) :
  _size other <> _size b ->
  copy_from pool_bytes b other = Finished b (replicate MAX_CHANNELS ERR_FAIL_COND).
Proof.
  intros Hne. unfold copy_from, for_range.
  change (Z.to_nat (Z.of_nat MAX_CHANNELS - 0)) with MAX_CHANNELS.
  apply for_loop_constant. intros i Hi. unfold copy_from_channel.
  rewrite ltb_channels by (unfold MAX_CHANNELS in *; lia). cbn [negb].
  replace (Vector3i_eqb (_size other) (_size b)) with false; [reflexivity|].
  symmetry. apply not_true_is_false. intros E. apply Hne, Vector3i_eqb_eq, E.
Qed.

(** The copy of one channel is exact when the depths agree and the source
    channel is uniform or has depth D8. *)
Lemma copy_from_channel_exact (d b : VoxelBuffer) (i : nat) :
  WellFormed b -> (i < MAX_CHANNELS)%nat ->
  length (_channels d) = MAX_CHANNELS -> _size d = _size b ->
  channel_ok (_size b) (channel_at d i) = true ->
  depth (channel_at d i) = depth (channel_at b i) ->
  (has_data (channel_at b i) = true -> depth (channel_at b i) = DEPTH_8_BIT) ->
  copy_from_channel pool_bytes d b i = Finished (set_channel d i (channel_at b i)) [].
Proof.
  intros Hwf Hi Hl Hs Hokd Hdd H8.
  pose proof (wf_channel_ok b Hwf i Hi) as Hok.
  pose proof (volume_pos b Hwf) as Hpos.
  assert (Hvol : get_volume d = get_volume b) by (apply get_volume_size; exact Hs).
  unfold copy_from_channel. rewrite ltb_channels by exact Hi.
  rewrite Hs, Vector3i_eqb_refl, Hdd, Depth_eqb_refl. cbn [negb].
  destruct (channel_at b i) as [od odef odp osz] eqn:Eb. cbn [data defval depth] in *.
  destruct od as [od|].
  - specialize (H8 eq_refl). rewrite H8 in Hdd, Hok, Eb |- *. clear H8.
    destruct (channel_ok_data b _ od Hwf Hok eq_refl ltac:(cbn; discriminate))
      as (Hlen & Hsz & Hb).
    cbn [depth size_in_bytes] in Hlen, Hsz. bytes_per_voxel_values.
    assert (Hcopy : forall dd, Z.of_nat (length dd) = get_volume b * 1 ->
                      memcpy dd od (get_volume b * 1) = Finished od []).
    { intros dd Hdl. unfold memcpy.
      replace ((0 <=? get_volume b * 1) && (get_volume b * 1 <=? Z.of_nat (length dd))
               && (get_volume b * 1 <=? Z.of_nat (length od))) with true
        by (symmetry; repeat (apply andb_true_intro; split); lia).
      rewrite take_ge by lia. rewrite drop_ge by lia. rewrite app_nil_r. reflexivity. }
    unfold has_data. destruct (data (channel_at d i)) as [dd|] eqn:Edd.
    + destruct (channel_ok_data b _ dd Hwf Hokd Edd ltac:(rewrite Hdd; discriminate))
        as (Hdl & Hdsz & _).
      rewrite Hdd in Hdl. bytes_per_voxel_values.
      cbn [bind ret app]. rewrite Edd. cbn [default from_option id].
      rewrite Hvol, Hcopy by exact Hdl. cbn [bind ret app].
      rewrite channel_at_set_channel_eq, set_channel_set_channel by lia.
      cbn [set_data data size_in_bytes]. rewrite Hdsz, Hdl, Hsz, Hlen. reflexivity.
    + unfold create_channel_noinit. rewrite Hdd.
      rewrite size_in_bytes_byte_depths by (try assumption; discriminate).
      bytes_per_voxel_values. cbn [bind ret app].
      rewrite channel_at_set_channel_eq by lia.
      cbn [set_data data defval depth size_in_bytes default from_option id].
      rewrite (get_volume_size (set_channel d i _) b) by exact Hs.
      rewrite Hcopy by (apply length_allocate; lia). cbn [bind ret app].
      rewrite !set_channel_set_channel.
      rewrite channel_at_set_channel_eq by lia. cbn [data size_in_bytes].
      rewrite Hsz, Hlen. reflexivity.
  - pose proof (channel_ok_size_uniform _ _ Hok eq_refl) as Hz. cbn in Hz. subst osz.
    destruct (has_data (channel_at d i)) eqn:Eh.
    + unfold delete_channel. unfold has_data in Eh.
      destruct (data (channel_at d i)); [|discriminate]. cbn [bind ret app].
      rewrite channel_at_set_channel_eq, set_channel_set_channel by lia. reflexivity.
    + cbn [bind ret app]. rewrite (channel_ok_size_uniform _ _ Hokd Eh).
      unfold has_data in Eh. destruct (data (channel_at d i)); [discriminate|].
      reflexivity.
Qed.

Lemma copy_from_exact (a b : VoxelBuffer) :
  WellFormed a -> WellFormed b -> _size a = _size b ->
  (forall i, (i < MAX_CHANNELS)%nat ->
     depth (channel_at a i) = depth (channel_at b i) /\
     (has_data (channel_at b i) = true -> depth (channel_at b i) = DEPTH_8_BIT)) ->
  copy_from pool_bytes a b = Finished b [].
Proof.
  intros Ha Hb Hsize Hd.
  unfold copy_from.
  destruct (for_range_rule
              (fun k d =>
                 _size d = _size b /\ length (_channels d) = MAX_CHANNELS /\
                 forall i, (i < MAX_CHANNELS)%nat ->
                   channel_at d i =
                     if Z.of_nat i <? k then channel_at b i else channel_at a i)
              (fun d => d = b)
              (fun i d => copy_from_channel pool_bytes d b (Z.to_nat i))
              0 (Z.of_nat MAX_CHANNELS) a) as (d & E & ->).
  - unfold MAX_CHANNELS. lia.
  - split; [exact Hsize|]. split; [exact (wf_channels a Ha)|].
    intros i Hi. replace (Z.of_nat i <? 0) with false by (symmetry; apply Z.ltb_ge; lia).
    reflexivity.
  - intros k d Hk (Hs & Hl & Hch).
    assert (Hkn : (Z.to_nat k < MAX_CHANNELS)%nat) by (unfold MAX_CHANNELS in *; lia).
    assert (Hdk : channel_at d (Z.to_nat k) = channel_at a (Z.to_nat k)).
    { rewrite Hch by exact Hkn.
      replace (Z.of_nat (Z.to_nat k) <? k) with false by (symmetry; apply Z.ltb_ge; lia).
      reflexivity. }
    destruct (Hd _ Hkn) as (Hdepth & H8).
    rewrite copy_from_channel_exact; try assumption.
    2:{ rewrite Hdk, <- Hsize. apply Ha. exact Hkn. }
    2:{ rewrite Hdk. exact Hdepth. }
    eexists. split; [reflexivity|].
    split; [exact Hs|]. split; [rewrite length_set_channel; exact Hl|].
    intros i Hi. destruct (decide (i = Z.to_nat k)) as [->|Hne].
    + rewrite channel_at_set_channel_eq by lia.
      replace (Z.of_nat (Z.to_nat k) <? k + 1) with true by (symmetry; apply Z.ltb_lt; lia).
      reflexivity.
    + rewrite channel_at_set_channel_ne by congruence. rewrite Hch by exact Hi.
      replace (Z.of_nat i <? k + 1) with (Z.of_nat i <? k); [reflexivity|].
      destruct (Z.ltb_spec (Z.of_nat i) k), (Z.ltb_spec (Z.of_nat i) (k + 1));
        try reflexivity; lia.
  - intros d (Hs & Hl & Hch). apply channels_eq; try assumption.
    + apply (wf_channels b Hb).
    + intros i Hi. rewrite Hch by exact Hi.
      replace (Z.of_nat i <? Z.of_nat MAX_CHANNELS) with true; [reflexivity|].
      symmetry. apply Z.ltb_lt. lia.
  - exact E.
Qed.

(** X16.  [copy_from(other)] between well-formed blocks of the same size
    whose channels have the same depths, the materialised channels of the
    source being of depth D8: the call prints nothing and the destination
    becomes the source, channel by channel. *)
Theorem copy_from_8_bit (a b : VoxelBuffer) :
  well_formed a = true -> well_formed b = true -> _size a = _size b ->
  (forall i, (i < MAX_CHANNELS)%nat ->
     depth (channel_at a i) = depth (channel_at b i) /\
     (get_channel_compression b i = COMPRESSION_NONE ->
      depth (channel_at b i) = DEPTH_8_BIT)) ->
  copy_from pool_bytes a b = Finished b [].
Proof.
  intros Ha Hb Hs Hd.
  apply copy_from_exact; try apply well_formed_spec; try assumption.
  intros i Hi. destruct (Hd i Hi) as (Hdepth & H8). split; [exact Hdepth|].
  intros Hh. apply H8. unfold get_channel_compression.
  rewrite ltb_channels by exact Hi. cbn [negb]. unfold has_data in Hh.
  destruct (data (channel_at b i)); [reflexivity|discriminate].
Qed.

(** X17.  With all channels of depth D8, copying and compressing commute:
    [copy_from(b)] followed by [compress_uniform_channels], and
    [copy_from] of the compressed [b], give the same block. *)
Theorem copy_from_commutes_with_compress_8_bit (a b : VoxelBuffer) :
  well_formed a = true -> well_formed b = true -> _size a = _size b ->
  (forall i, (i < MAX_CHANNELS)%nat ->
     depth (channel_at a i) = DEPTH_8_BIT /\ depth (channel_at b i) = DEPTH_8_BIT) ->
  exists r,
    (let* a' := copy_from pool_bytes a b in compress_uniform_channels a') = Finished r [] /\
    (let* b' := compress_uniform_channels b in copy_from pool_bytes a b') = Finished r [].
Proof.
  intros Hwfa Hwfb Hs Hd.
  pose proof (well_formed_spec a Hwfa) as Ha. pose proof (well_formed_spec b Hwfb) as Hb.
  destruct (compress_uniform_channels_spec b (wf_channels b Hb))
    as (r & E & Hsr & Hlr & Hch).
  pose proof (compress_uniform_channels_well_formed b r Hwfb E) as Hwfr.
  exists r. split.
  - rewrite copy_from_exact; try assumption.
    + cbn [bind]. rewrite E. reflexivity.
    + intros i Hi. destruct (Hd i Hi) as (-> & ->). auto.
  - rewrite E. cbn [bind].
    rewrite copy_from_exact; try assumption; try (apply well_formed_spec; assumption).
    + reflexivity.
    + congruence.
    + intros i Hi. destruct (Hd i Hi) as (Hda & Hdb). rewrite Hch by exact Hi.
      destruct (has_data (channel_at b i) && is_uniform b i); cbn [depth];
        rewrite Hda, Hdb; auto.
Qed.

End FullCopy.

(** ** Areas *)

Lemma clamp_axis_size (v s : Z) :
  0 <= s -> clamp_axis v 0 (s + 1) = Z.max 0 (Z.min v s).
Proof.
  intros Hs. unfold clamp_axis.
  destruct (v <? 0) eqn:E1.
  - apply Z.ltb_lt in E1.
    replace (0 >=? s + 1) with false
      by (symmetry; rewrite Z.geb_leb; apply Z.leb_gt; lia).
    lia.
  - apply Z.ltb_ge in E1. destruct (v >=? s + 1) eqn:E2.
    + rewrite Z.geb_leb in E2. apply Z.leb_le in E2. lia.
    + rewrite Z.geb_leb in E2. apply Z.leb_gt in E2. lia.
Qed.

Lemma iterate_store8_row (ri v : Z) :
  forall (n : nat) (k : Z) (d : Bytes),
    0 <= ri + k -> ri + k + Z.of_nat n <= Z.of_nat (length d) ->
    iterate n k (fun i d => store8 d (ri + i) v) d
    = take (Z.to_nat (ri + k)) d ++ replicate n (to_uint8 v)
        ++ drop (Z.to_nat (ri + k) + n) d.
Proof.
  induction n as [|n IH]; intros k d Hk Hn.
  - cbn [iterate replicate app]. rewrite Nat.add_0_r, take_drop. reflexivity.
  - cbn [iterate]. rewrite IH.
    2:{ lia. }
    2:{ rewrite length_store8. lia. }
    unfold store8.
    replace (Z.to_nat (ri + (k + 1))) with (S (Z.to_nat (ri + k))) by lia.
    set (p := Z.to_nat (ri + k)).
    assert (Hp : (p < length d)%nat) by lia.
    rewrite (take_S_r _ _ (to_uint8 v)) by (apply list_lookup_insert_eq; exact Hp).
    rewrite take_insert_ge by lia.
    rewrite drop_insert_lt by lia.
    rewrite <- app_assoc. cbn [app replicate].
    replace (S p + n)%nat with (p + S n)%nat by lia. reflexivity.
Qed.

Lemma memset_at_row (d : Bytes) (ri v n : Z) :
  0 <= ri -> 0 <= n -> ri + n <= Z.of_nat (length d) ->
  memset_at d ri v n
    = Finished (iterate (Z.to_nat n) 0 (fun i d => write_voxel DEPTH_8_BIT d (ri + i) v) d) [].
Proof.
  intros Hri Hn Hlen. unfold memset_at.
  replace ((0 <=? ri) && (0 <=? n) && (ri + n <=? Z.of_nat (length d))) with true
    by (symmetry; repeat (apply andb_true_intro; split); lia).
  cbn [write_voxel]. rewrite iterate_store8_row by lia.
  replace (ri + 0) with ri by lia.
  replace (Z.to_nat ri + Z.to_nat n)%nat with (Z.to_nat (ri + n)) by lia.
  reflexivity.
Qed.

Lemma typed_row (dp : Depth) (w : nat) (d : Bytes) (ri v n : Z) :
  (forall d i, write_voxel dp d i v = typed_store w d i v) ->
  0 <= ri -> 0 <= n -> ri + n < 2 ^ 32 ->
  iterate (Z.to_nat (to_uint32 n)) 0
    (fun i d => typed_store w d (to_uint32 (ri + i)) v) d
  = iterate (Z.to_nat n) 0 (fun i d => write_voxel dp d (ri + i) v) d.
Proof.
  intros Hw Hri Hn H32. rewrite (to_uint32_small n) by lia.
  apply iterate_ext. intros i d' Hi. rewrite Hw, to_uint32_small by lia. reflexivity.
Qed.

Lemma channel_eta (ch : Channel) :
  mkChannel (data ch) (defval ch) (depth ch) (size_in_bytes ch) = ch.
Proof. destruct ch; reflexivity. Qed.

Lemma clamp_value_idempotent (v : Z) (dp : Depth) :
  clamp_value_for_depth (clamp_value_for_depth v dp) dp = clamp_value_for_depth v dp.
Proof.
  unfold clamp_value_for_depth. destruct (v >=? _) eqn:E.
  - replace (_ >=? _) with true; [reflexivity|].
    symmetry. rewrite Z.geb_leb. apply Z.leb_le. lia.
  - rewrite E. reflexivity.
Qed.

Section Rows.

Variable pool_bytes : Z -> nat -> Z.

Lemma set_voxel_materialised (s : VoxelBuffer) (v x y z : Z) (c : nat) (d : Bytes) :
  (c < MAX_CHANNELS)%nat -> validate_pos s x y z = true ->
  data (channel_at s c) = Some d ->
  set_voxel pool_bytes s v x y z c
    = Finished (set_channel s c
                  (mkChannel
                     (Some (write_voxel (depth (channel_at s c)) d (index s x y z)
                              (clamp_value_for_depth v (depth (channel_at s c)))))
                     (defval (channel_at s c)) (depth (channel_at s c))
                     (size_in_bytes (channel_at s c)))) [].
Proof.
  intros Hc Hp Hd. unfold set_voxel. rewrite ltb_channels by exact Hc.
  rewrite Hp, Hd. cbn [negb bind ret app]. rewrite Hd. reflexivity.
Qed.

(** A row written voxel by voxel with [set_voxel] is the row written in the
    buffer. *)
Lemma row_of_set_voxel (b0 : VoxelBuffer) (c : nat) (v px pz ylo : Z) :
  WellFormed b0 -> (c < MAX_CHANNELS)%nat ->
  0 <= px < vx (_size b0) -> 0 <= pz < vz (_size b0) -> 0 <= ylo ->
  forall (n : nat) (k : Z) (s : VoxelBuffer) (d : Bytes),
    _size s = _size b0 -> length (_channels s) = MAX_CHANNELS ->
    data (channel_at s c) = Some d ->
    clamp_value_for_depth v (depth (channel_at s c)) = v ->
    0 <= k -> ylo + k + Z.of_nat n <= vy (_size b0) ->
    for_loop n (ylo + k) (fun y s => set_voxel pool_bytes s v px y pz c) s
    = Finished
        (set_channel s c
           (mkChannel
              (Some (iterate n k
                       (fun i d => write_voxel (depth (channel_at s c)) d
                                     (index b0 px ylo pz + i) v) d))
              (defval (channel_at s c)) (depth (channel_at s c))
              (size_in_bytes (channel_at s c)))) [].
Proof.
  intros Hwf Hc Hpx Hpz Hylo.
  induction n as [|n IH]; intros k s d Hs Hl Hd Hv Hk Hn.
  - cbn [for_loop iterate]. rewrite <- Hd, channel_eta, set_channel_same by lia.
    reflexivity.
  - change (for_loop (S n) (ylo + k) ?body s)
      with (let* s' := body (ylo + k) s in for_loop n (ylo + k + 1) body s').
    cbv beta.
    assert (Hp : validate_pos b0 px (ylo + k) pz = true)
      by (apply validate_pos_intro; lia).
    assert (Hp0 : validate_pos b0 px ylo pz = true)
      by (apply validate_pos_intro; lia).
    rewrite (set_voxel_materialised s v px (ylo + k) pz c d); try assumption.
    2:{ unfold validate_pos in *. rewrite Hs. exact Hp. }
    rewrite Hv. cbn [bind].
    replace (index s px (ylo + k) pz) with (index b0 px ylo pz + k).
    2:{ unfold index at 2. rewrite Hs. fold (index b0 px (ylo + k) pz).
        rewrite !index_linear by assumption. lia. }
    replace (ylo + k + 1) with (ylo + (k + 1)) by lia.
    set (d1 := write_voxel _ d _ v).
    set (s1 := set_channel s c _).
    assert (Hc1 : channel_at s1 c
                  = mkChannel (Some d1) (defval (channel_at s c)) (depth (channel_at s c))
                              (size_in_bytes (channel_at s c)))
      by (subst s1; apply channel_at_set_channel_eq; lia).
    rewrite (IH (k + 1) s1 d1); try lia.
    + rewrite Hc1. cbn [depth defval size_in_bytes app].
      subst s1. rewrite set_channel_set_channel. reflexivity.
    + exact Hs.
    + subst s1. rewrite length_set_channel. exact Hl.
    + rewrite Hc1. reflexivity.
    + rewrite Hc1. exact Hv.
Qed.

(** One row more: the voxels [(px, y, pz)], [ylo <= y < yhi]. *)
Lemma written_row (d0 s : VoxelBuffer) (c : nat) (v : Z) (W : Z -> Z -> Z -> Prop)
    (px pz ylo yhi : Z) :
  (c < MAX_CHANNELS)%nat ->
  depth (channel_at d0 c) <> DEPTH_1_BIT ->
  (forall x y z, W x y z -> validate_pos d0 x y z = true) ->
  written d0 s c (fun _ _ _ => v) W ->
  0 <= px < vx (_size d0) -> 0 <= pz < vz (_size d0) ->
  0 <= ylo <= yhi -> yhi <= vy (_size d0) -> 0 <= v ->
  exists s',
    for_range ylo yhi (fun y s => set_voxel pool_bytes s v px y pz c) s = Finished s' [] /\
    written d0 s' c (fun _ _ _ => v)
      (fun x y z => W x y z \/ (x = px /\ z = pz /\ ylo <= y < yhi)).
Proof.
  intros Hc Hdp HW Hin Hpx Hpz Hy Hy' Hv.
  apply for_range_rule with
    (P := fun py s =>
            written d0 s c (fun _ _ _ => v)
              (fun x y z => W x y z \/ (x = px /\ z = pz /\ ylo <= y < py))).
  - lia.
  - eapply written_ext; [|exact Hin]. intros x y z. cbn beta. split; [tauto|].
    intros [H | H]; [exact H|lia].
  - intros py s1 Hpy Hin1.
    pose proof (fun HW' => written_set_voxel pool_bytes d0 s1 c (fun _ _ _ => v) _ px py pz
                             Hc Hdp HW' Hin1) as Hstep.
    cbv beta in Hstep. destruct Hstep as (s2 & Hset & Hw2).
    + intros x y z H. destruct H as [H | H]; [apply HW; exact H|].
      destruct H as (Hx1 & Hz1 & Hy1). subst x z.
      apply validate_pos_intro; lia.
    + apply validate_pos_intro; lia.
    + exact Hv.
    + exists s2. split; [exact Hset|].
      eapply written_ext; [|exact Hw2]. intros x y z. cbn beta.
      split; [intros [[H | H] | H] | intros [H | H]]; try tauto; lia.
  - intros s' Hs'. exact Hs'.
Qed.

End Rows.

Section FillArea.

Variable pool_bytes : Z -> nat -> Z.

(** A uniform channel given its buffer reads as before. *)
Lemma create_channel_written (b : VoxelBuffer) (c : nat) (val : Z -> Z -> Z -> Z) :
  well_formed b = true -> (c < MAX_CHANNELS)%nat ->
  depth (channel_at b c) <> DEPTH_1_BIT ->
  has_data (channel_at b c) = false ->
  exists b',
    create_channel pool_bytes b c (_size b) (defval (channel_at b c)) = Finished b' [] /\
    has_data (channel_at b' c) = true /\
    (forall c', c' <> c -> channel_at b' c' = channel_at b c') /\
    (forall x y z, get_voxel b' x y z c = get_voxel b x y z c) /\
    written b b' c val (fun _ _ _ => False).
Proof.
  intros Hwfb Hc Hdp Eh.
  pose proof (well_formed_spec b Hwfb) as Hwf.
  pose proof (wf_channels b Hwf) as Hlen.
  pose proof (wf_channel_ok b Hwf c Hc) as Hok.
  destruct (create_channel_uniform pool_bytes b c (defval (channel_at b c)) Hwf Hc Hdp
              (channel_ok_defval _ _ Hok)) as (d & Hrun & Hld & Hbd & Hrd).
  eexists. split; [exact Hrun|].
  assert (Hread : forall x y z,
             get_voxel (set_channel b c
                          (mkChannel (Some d) (defval (channel_at b c))
                             (depth (channel_at b c)) (Z.of_nat (length d)))) x y z c
             = get_voxel b x y z c).
  { intros x y z. destruct (validate_pos b x y z) eqn:Hp.
    - rewrite get_voxel_set_channel by assumption. cbn [data depth].
      rewrite Hrd by (apply index_in_volume; assumption).
      symmetry. apply get_voxel_uniform; assumption.
    - unfold get_voxel. rewrite ltb_channels by exact Hc. cbn [negb].
      change (validate_pos (set_channel b c _) x y z) with (validate_pos b x y z).
      rewrite Hp. rewrite channel_at_set_channel_eq by lia. reflexivity. }
  split_all.
  - rewrite channel_at_set_channel_eq by lia. reflexivity.
  - intros c' Hne. apply channel_at_set_channel_ne. congruence.
  - exact Hread.
  - unfold written. split_all.
    + apply well_formed_set_channel; [assumption|].
      apply channel_ok_intro; try assumption. exact (channel_ok_defval _ _ Hok).
    + reflexivity.
    + intros i. destruct (decide (i = c)) as [->|Hne].
      * rewrite channel_at_set_channel_eq by lia. reflexivity.
      * rewrite channel_at_set_channel_ne by congruence. reflexivity.
    + intros c' x y z Hne. unfold get_voxel.
      rewrite channel_at_set_channel_ne by congruence. reflexivity.
    + intros x y z _ _. apply Hread.
    + intros x y z [].
Qed.

(** The row of [fill_area] stored in the buffer. *)
Lemma written_stored_row (d0 s : VoxelBuffer) (c : nat) (v : Z) (W : Z -> Z -> Z -> Prop)
    (px pz ylo yhi : Z) (d : Bytes) :
  (c < MAX_CHANNELS)%nat ->
  depth (channel_at d0 c) <> DEPTH_1_BIT ->
  (forall x y z, W x y z -> validate_pos d0 x y z = true) ->
  written d0 s c (fun _ _ _ => v) W ->
  data (channel_at s c) = Some d ->
  0 <= px < vx (_size d0) -> 0 <= pz < vz (_size d0) ->
  0 <= ylo <= yhi -> yhi <= vy (_size d0) ->
  0 <= v <= get_max_value_for_depth (depth (channel_at d0 c)) ->
  written d0
    (set_channel s c
       (mkChannel
          (Some (iterate (Z.to_nat (yhi - ylo)) 0
                   (fun i d => write_voxel (depth (channel_at s c)) d
                                 (index s px ylo pz + i) v) d))
          (defval (channel_at s c)) (depth (channel_at s c))
          (size_in_bytes (channel_at s c))))
    c (fun _ _ _ => v)
    (fun x y z => W x y z \/ (x = px /\ z = pz /\ ylo <= y < yhi)).
Proof.
  intros Hc Hdp HW Hin Hd Hpx Hpz Hy Hy' Hv.
  destruct (written_row pool_bytes d0 s c v W px pz ylo yhi)
    as (s' & Hrun & Hw); try assumption; try lia.
  destruct Hin as (Hwfs & Hs & Hdepth & _).
  pose proof (well_formed_spec s Hwfs) as Hwf.
  unfold for_range in Hrun.
  replace ylo with (ylo + 0) in Hrun at 2 by lia.
  rewrite (row_of_set_voxel pool_bytes s c v px pz ylo) with (d := d) in Hrun;
    try assumption; try reflexivity; try lia.
  - injection Hrun as <-. exact Hw.
  - rewrite Hs. lia.
  - rewrite Hs. lia.
  - apply (wf_channels s Hwf).
  - rewrite Hdepth. apply clamp_value_small. lia.
  - rewrite Hs. lia.
Qed.

Lemma sorted_clamped (size a b : Z) :
  0 < size ->
  let lo := clamp_axis (Z.min a b) 0 (size + 1) in
  let hi := clamp_axis (Z.max a b) 0 (size + 1) in
  0 <= lo <= hi /\ hi <= size /\
  forall x, (lo <= x < hi <-> 0 <= x < size /\ Z.min a b <= x < Z.max a b).
Proof.
  intros Hs. cbn zeta. rewrite !clamp_axis_size by lia. split_all; try lia.
Qed.

Lemma fill_area_written (b : VoxelBuffer) (v : Z) (min max : Vector3i) (c : nat) :
  well_formed b = true -> (c < MAX_CHANNELS)%nat -> 0 <= v ->
  depth (channel_at b c) <> DEPTH_1_BIT ->
  exists b',
    fill_area pool_bytes b v min max c = Finished b' [] /\
    written b b' c (fun _ _ _ => v)
      (fun x y z => validate_pos b x y z = true /\ in_area min max x y z).
Proof.
  intros Hwfb Hc Hv Hdp.
  pose proof (well_formed_spec b Hwfb) as Hwf.
  pose proof (wf_channels b Hwf) as Hlen.
  pose proof (wf_channel_ok b Hwf c Hc) as Hok.
  destruct (wf_size b Hwf) as (Hsx & Hsy & Hsz).
  pose proof (volume_pos b Hwf) as Hvol.
  set (dp := depth (channel_at b c)) in *.
  set (v' := clamp_value_for_depth v dp).
  pose proof (clamp_value_range v dp Hv) as Hv'. fold v' in Hv'.
  unfold fill_area. rewrite ltb_channels by exact Hc. cbn [negb].
  unfold sort_min_max, clamp_to, Vector3i_add, Vector3i_sub, Vector3i_zero, Vector3i_one.
  cbn [vx vy vz].
  destruct (sorted_clamped (vx (_size b)) (vx min) (vx max) Hsx) as (Hx1 & Hx2 & Hx3).
  destruct (sorted_clamped (vy (_size b)) (vy min) (vy max) Hsy) as (Hy1 & Hy2 & Hy3).
  destruct (sorted_clamped (vz (_size b)) (vz min) (vz max) Hsz) as (Hz1 & Hz2 & Hz3).
  set (xlo := clamp_axis (Z.min (vx min) (vx max)) 0 (vx (_size b) + 1)) in *.
  set (xhi := clamp_axis (Z.max (vx min) (vx max)) 0 (vx (_size b) + 1)) in *.
  set (ylo := clamp_axis (Z.min (vy min) (vy max)) 0 (vy (_size b) + 1)) in *.
  set (yhi := clamp_axis (Z.max (vy min) (vy max)) 0 (vy (_size b) + 1)) in *.
  set (zlo := clamp_axis (Z.min (vz min) (vz max)) 0 (vz (_size b) + 1)) in *.
  set (zhi := clamp_axis (Z.max (vz min) (vz max)) 0 (vz (_size b) + 1)) in *.
  assert (Hbox : forall x y z,
             (xlo <= x < xhi /\ ylo <= y < yhi /\ zlo <= z < zhi) <->
             (validate_pos b x y z = true /\ in_area min max x y z)).
  { intros x y z. unfold in_area. rewrite Hx3, Hy3, Hz3. split.
    - intros H. split; [apply validate_pos_intro; lia|lia].
    - intros [Hp H]. apply validate_pos_spec in Hp. lia. }
  assert (Hclamp : forall b' : VoxelBuffer,
             written b b' c (fun _ _ _ => v')
               (fun x y z => xlo <= x < xhi /\ ylo <= y < yhi /\ zlo <= z < zhi) ->
             written b b' c (fun _ _ _ => v)
               (fun x y z => validate_pos b x y z = true /\ in_area min max x y z)).
  { intros b' Hw. apply (written_ext b b' c _ _ _ Hbox).
    destruct Hw as (H1 & H2 & H3 & H4 & H5 & H6). unfold written. split_all; try assumption.
    intros x y z H. rewrite H6 by exact H. fold dp. apply clamp_value_idempotent. }
  destruct ((xhi - xlo =? 0) || (yhi - ylo =? 0) || (zhi - zlo =? 0)) eqn:Earea.
  { exists b. split; [reflexivity|]. apply Hclamp.
    eapply written_ext; [|apply written_start; exact Hwfb].
    intros x y z. cbn beta. rewrite !orb_true_iff, !Z.eqb_eq in Earea. lia. }
  rewrite !orb_false_iff, !Z.eqb_neq in Earea. destruct Earea as ((Eax & Eay) & Eaz).
  fold dp. fold v'. clearbody xlo xhi ylo yhi zlo zhi v'.
  (* the channel gets a buffer, unless nothing is to be done *)
  assert (Hmat : exists b1,
             (match data (channel_at b c) with
              | None =>
                  if defval (channel_at b c) =? v' then ret (b, false)
                  else let* b0 := create_channel pool_bytes b c (_size b)
                                    (defval (channel_at b c)) in ret (b0, true)
              | Some _ => ret (b, true)
              end) = Finished (b1, has_data (channel_at b1 c)) [] /\
             written b b1 c (fun _ _ _ => v') (fun _ _ _ => False) /\
             (has_data (channel_at b1 c) = false ->
              b1 = b /\ defval (channel_at b c) = v')).
  { destruct (data (channel_at b c)) as [d|] eqn:Ed.
    - exists b. unfold has_data. rewrite Ed. split; [reflexivity|].
      split; [apply written_start; exact Hwfb|discriminate].
    - destruct (defval (channel_at b c) =? v') eqn:Edv.
      + exists b. unfold has_data. rewrite Ed. split; [reflexivity|].
        split; [apply written_start; exact Hwfb|].
        intros _. split; [reflexivity|apply Z.eqb_eq; exact Edv].
      + destruct (create_channel_written b c (fun _ _ _ => v') Hwfb Hc Hdp)
          as (b1 & Hrun & Hh & _ & _ & Hw).
        { unfold has_data. rewrite Ed. reflexivity. }
        exists b1. rewrite Hrun, Hh. split; [reflexivity|]. split; [exact Hw|discriminate]. }
  destruct Hmat as (b1 & -> & Hw1 & Hnone). cbn [bind app].
  destruct (has_data (channel_at b1 c)) eqn:Eh1; cbn [negb].
  2:{ destruct (Hnone eq_refl) as (-> & Hdv). exists b. split; [reflexivity|].
      apply Hclamp. destruct Hw1 as (H1 & H2 & H3 & H4 & H5 & _).
      unfold written. split_all; try assumption; try reflexivity.
      intros x y z _. rewrite get_voxel_uniform by assumption.
      fold dp. rewrite Hdv. symmetry. apply clamp_value_small. lia. }
  clear Hnone.
  assert (Hsize1 : _size b1 = _size b) by apply Hw1.
  assert (Hvol1 : get_volume b1 = get_volume b) by (apply get_volume_size; exact Hsize1).
  rewrite Hvol1.
  (* the loops *)
  assert (Hloops : exists b',
             for_range zlo zhi (fun pz b0 =>
               for_range xlo xhi (fun px b2 =>
                 if index b2 px (0 + ylo) pz >=? get_volume b then Aborted CRASH else
                 match depth (channel_at b2 c) with
                 | DEPTH_8_BIT =>
                     let* d' := memset_at (default [] (data (channel_at b2 c)))
                                  (index b2 px (0 + ylo) pz) v' ((yhi - ylo) * 1) in
                     ret (set_channel b2 c
                            (set_data (channel_at b2 c) (Some d')
                               (size_in_bytes (channel_at b2 c))))
                 | DEPTH_16_BIT =>
                     ret (set_channel b2 c
                            (set_data (channel_at b2 c)
                               (Some (iterate (Z.to_nat (to_uint32 (yhi - ylo))) 0
                                        (fun i d => typed_store 2 d
                                           (to_uint32 (index b2 px (0 + ylo) pz + i)) v')
                                        (default [] (data (channel_at b2 c)))))
                               (size_in_bytes (channel_at b2 c))))
                 | DEPTH_32_BIT =>
                     ret (set_channel b2 c
                            (set_data (channel_at b2 c)
                               (Some (iterate (Z.to_nat (to_uint32 (yhi - ylo))) 0
                                        (fun i d => typed_store 4 d
                                           (to_uint32 (index b2 px (0 + ylo) pz + i)) v')
                                        (default [] (data (channel_at b2 c)))))
                               (size_in_bytes (channel_at b2 c))))
                 | DEPTH_64_BIT =>
                     ret (set_channel b2 c
                            (set_data (channel_at b2 c)
                               (Some (iterate (Z.to_nat (to_uint32 (yhi - ylo))) 0
                                        (fun i d => typed_store 8 d
                                           (to_uint32 (index b2 px (0 + ylo) pz + i)) v')
                                        (default [] (data (channel_at b2 c)))))
                               (size_in_bytes (channel_at b2 c))))
                 | DEPTH_1_BIT | DEPTH_24_BIT =>
                     for_range (to_uint32 ylo) (to_uint32 yhi)
                       (fun y b3 => set_voxel pool_bytes b3 v' px y pz c) b2
                 end) b0) b1 = Finished b' [] /\
             written b b' c (fun _ _ _ => v')
               (fun x y z => xlo <= x < xhi /\ ylo <= y < yhi /\ zlo <= z < zhi)).
  2:{ destruct Hloops as (b' & Hrun & Hw). exists b'. split; [rewrite Hrun; reflexivity|].
      apply Hclamp. exact Hw. }
  apply for_range_rule with
    (P := fun pz s =>
            has_data (channel_at s c) = true /\
            written b s c (fun _ _ _ => v')
              (fun x y z => xlo <= x < xhi /\ ylo <= y < yhi /\ zlo <= z < pz)).
  - lia.
  - split; [exact Eh1|]. eapply written_ext; [|exact Hw1]. intros x y z. cbn beta. lia.
  - intros pz s Hpz (Hh & Hin).
    apply for_range_rule with
      (P := fun px s =>
              has_data (channel_at s c) = true /\
              written b s c (fun _ _ _ => v')
                (fun x y z =>
                   xlo <= x < xhi /\ ylo <= y < yhi /\ zlo <= z < pz
                   \/ (z = pz /\ xlo <= x < px /\ ylo <= y < yhi))).
    + lia.
    + split; [exact Hh|]. eapply written_ext; [|exact Hin]. intros x y z. cbn beta. lia.
    + intros px s2 Hpx (Hh2 & Hin2).
      pose proof Hin2 as (Hwfs2 & Hs2 & Hd2 & _).
      pose proof (well_formed_spec s2 Hwfs2) as Hwf2.
      unfold has_data in Hh2.
      destruct (data (channel_at s2 c)) as [d|] eqn:Ed2; [|discriminate].
      assert (Hpos : validate_pos s2 px ylo pz = true)
        by (apply validate_pos_intro; rewrite Hs2; lia).
      assert (Hposh : validate_pos s2 px (yhi - 1) pz = true)
        by (apply validate_pos_intro; rewrite Hs2; lia).
      pose proof (index_in_volume s2 px ylo pz Hwf2 Hpos) as Hri.
      pose proof (index_in_volume s2 px (yhi - 1) pz Hwf2 Hposh) as Hrih.
      rewrite (index_linear s2 px (yhi - 1) pz Hwf2 Hposh) in Hrih.
      pose proof (index_linear s2 px ylo pz Hwf2 Hpos) as Hlin.
      rewrite (get_volume_size s2 b Hs2) in Hri, Hrih.
      assert (Hrow : index s2 px ylo pz + (yhi - ylo) <= get_volume b) by lia.
      replace (0 + ylo) with ylo by lia.
      replace (index s2 px ylo pz >=? get_volume b) with false
        by (symmetry; rewrite Z.geb_leb; apply Z.leb_gt; lia).
      cbn [default from_option id].
      pose proof (written_stored_row b s2 c v'
                    (fun x y z =>
                       xlo <= x < xhi /\ ylo <= y < yhi /\ zlo <= z < pz
                       \/ (z = pz /\ xlo <= x < px /\ ylo <= y < yhi))
                    px pz ylo yhi d Hc Hdp) as Hstored.
      cbv beta in Hstored.
      assert (Hgoal : forall s3,
                 s3 = set_channel s2 c
                        (mkChannel
                           (Some (iterate (Z.to_nat (yhi - ylo)) 0
                                    (fun i d => write_voxel (depth (channel_at s2 c)) d
                                                  (index s2 px ylo pz + i) v') d))
                           (defval (channel_at s2 c)) (depth (channel_at s2 c))
                           (size_in_bytes (channel_at s2 c))) ->
                 has_data (channel_at s3 c) = true /\
                 written b s3 c (fun _ _ _ => v')
                   (fun x y z =>
                      xlo <= x < xhi /\ ylo <= y < yhi /\ zlo <= z < pz
                      \/ (z = pz /\ xlo <= x < px + 1 /\ ylo <= y < yhi))).
      { intros s3 ->. split.
        - rewrite channel_at_set_channel_eq by (rewrite (wf_channels s2 Hwf2); exact Hc).
          reflexivity.
        - eapply written_ext; [|apply Hstored; try assumption; try lia].
          + intros x y z. cbn beta. lia.
          + intros x y z H. apply validate_pos_intro; lia. }
      pose proof (buffer_below_2_32 b dp Hwf Hdp) as H32.
      pose proof (bytes_per_voxel_pos dp Hdp) as Hbpv.
      assert (Hdps : depth (channel_at s2 c) = dp) by apply Hd2.
      assert (Hld : Z.of_nat (length d) = get_volume b * bytes_per_voxel dp).
      { destruct (channel_ok_data s2 _ d Hwf2 (wf_channel_ok s2 Hwf2 c Hc) Ed2)
          as (Hld & _ & _).
        - rewrite Hdps. exact Hdp.
        - rewrite Hdps, (get_volume_size s2 b Hs2) in Hld. exact Hld. }
      assert (Hrow24 :
                for_range ylo yhi (fun y b3 => set_voxel pool_bytes b3 v' px y pz c) s2
                = Finished
                    (set_channel s2 c
                       (mkChannel
                          (Some (iterate (Z.to_nat (yhi - ylo)) 0
                                   (fun i d => write_voxel (depth (channel_at s2 c)) d
                                                 (index s2 px ylo pz + i) v') d))
                          (defval (channel_at s2 c)) (depth (channel_at s2 c))
                          (size_in_bytes (channel_at s2 c)))) []).
      { unfold for_range. replace ylo with (ylo + 0) at 2 by lia.
        rewrite (row_of_set_voxel pool_bytes s2 c v' px pz ylo) with (d := d);
          try assumption; try reflexivity; try lia.
        - rewrite Hs2. lia.
        - rewrite Hs2. lia.
        - apply (wf_channels s2 Hwf2).
        - rewrite Hdps. apply clamp_value_small. lia.
        - rewrite Hs2. lia. }
      unfold set_data. cbn [data defval depth size_in_bytes].
      rewrite Hdps in Hgoal, Hrow24 |- *.
      assert (Hrow32 : index s2 px ylo pz + (yhi - ylo) < 2 ^ 32).
      { apply Z.le_lt_trans with (get_volume b); [exact Hrow|].
        apply Z.le_lt_trans with (get_volume b * bytes_per_voxel dp); [nia|exact H32]. }
      clear Hstored. clearbody dp.
      destruct dp; try congruence; bytes_per_voxel_values.
      * (* 8 bits *)
        rewrite memset_at_row by lia.
        replace ((yhi - ylo) * 1) with (yhi - ylo) by lia.
        eexists. split; [reflexivity|]. apply Hgoal. reflexivity.
      * rewrite (typed_row DEPTH_16_BIT 2) by (try reflexivity; try lia; exact Hrow32).
        eexists. split; [reflexivity|]. apply Hgoal. reflexivity.
      * (* 24 bits *)
        assert (Hy32 : yhi < 2 ^ 32).
        { pose proof (wf_volume b Hwf) as Hv64.
          assert (vy (_size b) <= vx (_size b) * vy (_size b)) by nia.
          assert (vx (_size b) * vy (_size b)
                  <= vx (_size b) * vy (_size b) * vz (_size b)) by nia.
          lia. }
        rewrite (to_uint32_small ylo), (to_uint32_small yhi) by lia. rewrite Hrow24.
        eexists. split; [reflexivity|]. apply Hgoal. reflexivity.
      * rewrite (typed_row DEPTH_32_BIT 4) by (try reflexivity; try lia; exact Hrow32).
        eexists. split; [reflexivity|]. apply Hgoal. reflexivity.
      * rewrite (typed_row DEPTH_64_BIT 8) by (try reflexivity; try lia; exact Hrow32).
        eexists. split; [reflexivity|]. apply Hgoal. reflexivity.
    + intros s2 (Hh2 & Hw2). split; [exact Hh2|].
      eapply written_ext; [|exact Hw2]. intros x y z. cbn beta. lia.
  - intros s (_ & Hw). exact Hw.
Qed.

End FillArea.

Section AreaEdges.

Variable pool_bytes : Z -> nat -> Z.

(** X18.  [fill_area] with two corners that agree in a coordinate fills
    nothing: the block is returned as it is, whatever the value, and a
    uniform channel is not materialised. *)
Theorem fill_area_empty (b : VoxelBuffer) (v : Z) (min max : Vector3i) (c : nat) :
  (c < MAX_CHANNELS)%nat ->
  vx min = vx max \/ vy min = vy max \/ vz min = vz max ->
  fill_area pool_bytes b v min max c = Finished b [].
Proof.
  intros Hc Hempty. unfold fill_area. rewrite ltb_channels by exact Hc. cbn [negb].
  unfold sort_min_max, clamp_to, Vector3i_sub. cbn [vx vy vz].
  replace ((_ =? 0) || (_ =? 0) || (_ =? 0)) with true; [reflexivity|].
  symmetry. rewrite !orb_true_iff, !Z.eqb_eq.
  destruct Hempty as [E | [E | E]]; rewrite E, Z.min_id, Z.max_id; lia.
Qed.

(** X19.  [downscale_to] with ranges that lie in the two blocks: it
    finishes without printing; in every channel a destination position of
    the range [dst_min, dst_min + (src_max - src_min) / 2) holds the voxel
    of the source at that same position, clamped to the depth of the
    destination, and every other voxel of the destination is as it was. *)
Theorem downscale_to_result
    (src dst : VoxelBuffer) (src_min src_max dst_min : Vector3i) :
  well_formed src = true -> well_formed dst = true ->
  (forall i, (i < MAX_CHANNELS)%nat -> depth (channel_at dst i) <> DEPTH_1_BIT) ->
  axis_in_range (vx (_size src)) (vx (_size dst)) (vx src_min) (vx src_max) (vx dst_min) ->
  axis_in_range (vy (_size src)) (vy (_size dst)) (vy src_min) (vy src_max) (vy dst_min) ->
  axis_in_range (vz (_size src)) (vz (_size dst)) (vz src_min) (vz src_max) (vz dst_min) ->
  exists dst',
    downscale_to pool_bytes src dst src_min src_max dst_min = Finished dst' [] /\
    well_formed dst' = true /\ _size dst' = _size dst /\
    (forall c, get_channel_depth dst' c = get_channel_depth dst c) /\
    forall c x y z,
      (c < MAX_CHANNELS)%nat -> validate_pos dst x y z = true ->
      get_voxel dst' x y z c
        = if (vx dst_min <=? x) && (x <? vx dst_min + (vx src_max - vx src_min) / 2)
             && (vy dst_min <=? y) && (y <? vy dst_min + (vy src_max - vy src_min) / 2)
             && (vz dst_min <=? z) && (z <? vz dst_min + (vz src_max - vz src_min) / 2)
          then clamp_value_for_depth (get_voxel src x y z c) (depth (channel_at dst c))
          else get_voxel dst x y z c.
Proof.
  intros Hsrcb Hdstb Hdepth (Hx1 & Hx2 & Hx3 & Hx4) (Hy1 & Hy2 & Hy3 & Hy4)
         (Hz1 & Hz2 & Hz3 & Hz4).
  pose proof (well_formed_spec src Hsrcb) as Hsrc.
  pose proof (Z.div_pos (vx src_max - vx src_min) 2 ltac:(lia) ltac:(lia)) as Dx.
  pose proof (Z.div_pos (vy src_max - vy src_min) 2 ltac:(lia) ltac:(lia)) as Dy.
  pose proof (Z.div_pos (vz src_max - vz src_min) 2 ltac:(lia) ltac:(lia)) as Dz.
  pose proof (Z.mul_div_le (vx src_max - vx src_min) 2 ltac:(lia)) as Mx.
  pose proof (Z.mul_div_le (vy src_max - vy src_min) 2 ltac:(lia)) as My.
  pose proof (Z.mul_div_le (vz src_max - vz src_min) 2 ltac:(lia)) as Mz.
  set (hi := Vector3i_add dst_min (Vector3i_shr (Vector3i_sub src_max src_min) 1)).
  assert (Hhx : vx hi = vx dst_min + (vx src_max - vx src_min) / 2)
    by (unfold hi; cbn; apply f_equal, shiftr_1).
  assert (Hhy : vy hi = vy dst_min + (vy src_max - vy src_min) / 2)
    by (unfold hi; cbn; apply f_equal, shiftr_1).
  assert (Hhz : vz hi = vz dst_min + (vz src_max - vz src_min) / 2)
    by (unfold hi; cbn; apply f_equal, shiftr_1).
  assert (E1 : clamp_to src_min Vector3i_zero (_size src) = src_min).
  { destruct src_min as [a b c]. unfold clamp_to. cbn in *.
    rewrite !clamp_axis_inside by lia. reflexivity. }
  assert (E2 : clamp_to src_max Vector3i_zero (Vector3i_add (_size src) Vector3i_one)
               = src_max).
  { destruct src_max as [a b c]. unfold clamp_to. cbn in *.
    rewrite !clamp_axis_inside by lia. reflexivity. }
  assert (E3 : clamp_to dst_min Vector3i_zero (_size dst) = dst_min).
  { destruct dst_min as [a b c]. unfold clamp_to. cbn in *.
    rewrite !clamp_axis_inside by lia. reflexivity. }
  unfold downscale_to. cbv zeta. rewrite E1, E2. fold hi. rewrite E3.
  rewrite <- Hhx, <- Hhy, <- Hhz.
  clearbody hi.
  assert (E4 : clamp_to hi Vector3i_zero (Vector3i_add (_size dst) Vector3i_one) = hi).
  { destruct hi as [a b c]. unfold clamp_to. cbn in *.
    rewrite !clamp_axis_inside by lia. reflexivity. }
  rewrite E4.
  set (inside := fun x y z =>
                   (vx dst_min <=? x) && (x <? vx hi) && (vy dst_min <=? y) && (y <? vy hi)
                   && (vz dst_min <=? z) && (z <? vz hi)).
  assert (Hinside : forall x y z,
             inside x y z = true <->
             vx dst_min <= x < vx hi /\ vy dst_min <= y < vy hi /\ vz dst_min <= z < vz hi).
  { intros x y z. unfold inside.
    rewrite !andb_true_iff, !Z.leb_le, !Z.ltb_lt. lia. }
  apply for_range_rule with
    (P := fun k d =>
            well_formed d = true /\ _size d = _size dst /\
            (forall i, depth (channel_at d i) = depth (channel_at dst i)) /\
            forall c x y z,
              (c < MAX_CHANNELS)%nat -> validate_pos dst x y z = true ->
              get_voxel d x y z c
                = if (Z.of_nat c <? k) && inside x y z
                  then clamp_value_for_depth (get_voxel src x y z c)
                                             (depth (channel_at dst c))
                  else get_voxel dst x y z c).
  - lia.
  - split; [exact Hdstb|]. split; [reflexivity|]. split; [reflexivity|].
    intros c x y z Hc Hp.
    replace (Z.of_nat c <? 0) with false by (symmetry; apply Z.ltb_ge; lia). reflexivity.
  - intros k d Hk (Hwf & Hs & Hd & Hdone).
    change (Z.of_nat MAX_CHANNELS) with 8 in Hk.
    assert (Hc : (Z.to_nat k < MAX_CHANNELS)%nat) by (unfold MAX_CHANNELS; lia).
    set (c := Z.to_nat k) in *.
    pose proof (well_formed_spec d Hwf) as Hwfd.
    assert (Hother : forall c', c' <> c -> (Z.of_nat c' <? k + 1) = (Z.of_nat c' <? k)).
    { intros c' Hne. destruct (Z.of_nat c' <? k) eqn:E.
      - apply Z.ltb_lt in E. apply Z.ltb_lt. lia.
      - apply Z.ltb_ge in E. apply Z.ltb_ge. lia. }
    assert (Hcur : (Z.of_nat c <? k + 1) = true /\ (Z.of_nat c <? k) = false).
    { split; [apply Z.ltb_lt|apply Z.ltb_ge]; lia. }
    destruct Hcur as (Hcur1 & Hcur0).
    destruct (negb (has_data (channel_at src c)) && negb (has_data (channel_at d c))
              && (defval (channel_at src c) =? defval (channel_at d c))) eqn:Eskip.
    + exists d. split; [reflexivity|]. split; [exact Hwf|]. split; [exact Hs|].
      split; [exact Hd|]. intros c' x y z Hc' Hp.
      destruct (Nat.eq_dec c' c) as [->|Hne].
      2:{ rewrite Hother by exact Hne. apply Hdone; assumption. }
      rewrite Hcur1. cbn [andb].
      destruct (inside x y z) eqn:Ein.
      * apply andb_prop in Eskip. destruct Eskip as [Eskip Edef].
        apply andb_prop in Eskip. destruct Eskip as [Esrc Edst].
        apply negb_true_iff in Esrc. apply negb_true_iff in Edst. apply Z.eqb_eq in Edef.
        rewrite !get_voxel_uniform by assumption. rewrite Edef, <- Hd.
        symmetry. apply clamp_value_small.
        apply (channel_ok_defval (_size d)). apply (wf_channel_ok d Hwfd c Hc).
      * rewrite Hdone by assumption. rewrite Hcur0. reflexivity.
    + destruct (downscale_channel_written pool_bytes src d src_min dst_min hi c)
        as (d' & Hrun & Hw); try assumption; try (rewrite Hs; lia); try lia.
      { rewrite Hd. exact (Hdepth c Hc). }
      { intros x y z Hpx Hpy Hpz. rewrite !shiftl_1. apply validate_pos_intro; lia. }
      exists d'. split; [exact Hrun|].
      destruct Hw as (Hwf' & Hs' & Hd' & Hoc & Hout & Hin).
      split; [exact Hwf'|]. split; [congruence|].
      split; [intros i; rewrite Hd'; apply Hd|].
      intros c' x y z Hc' Hp.
      destruct (Nat.eq_dec c' c) as [->|Hne].
      * rewrite Hcur1. cbn [andb]. destruct (inside x y z) eqn:Ein.
        -- rewrite Hin by (apply Hinside; exact Ein). rewrite Hd. reflexivity.
        -- rewrite Hout.
           ++ rewrite Hdone by assumption. rewrite Hcur0. reflexivity.
           ++ unfold validate_pos in *. rewrite Hs. exact Hp.
           ++ intros Hbox. apply Hinside in Hbox. congruence.
      * rewrite Hoc by exact Hne. rewrite Hother by exact Hne. apply Hdone; assumption.
  - intros d' (Hwf & Hs & Hd & Hdone). split; [exact Hwf|]. split; [exact Hs|].
    split.
    + intros c. unfold get_channel_depth. rewrite Hd. reflexivity.
    + intros c x y z Hc Hp. rewrite Hdone by assumption.
      replace (Z.of_nat c <? Z.of_nat MAX_CHANNELS) with true
        by (symmetry; apply Z.ltb_lt; lia).
      reflexivity.
Qed.

End AreaEdges.

(** ** Copies of an area *)

Lemma memcpy_at_spec (dst : Bytes) (doff : Z) (src : Bytes) (soff n : Z) :
  0 <= doff -> 0 <= soff -> 0 <= n ->
  doff + n <= Z.of_nat (length dst) -> soff + n <= Z.of_nat (length src) ->
  exists d',
    memcpy_at dst doff src soff n = Finished d' [] /\
    length d' = length dst /\
    (Forall is_byte dst -> Forall is_byte src -> Forall is_byte d') /\
    forall j, 0 <= j ->
      load8 d' j = if (doff <=? j) && (j <? doff + n)
                   then load8 src (soff + (j - doff)) else load8 dst j.
Proof.
  intros Hd Hs Hn Hdl Hsl. unfold memcpy_at.
  replace ((0 <=? doff) && (0 <=? soff) && (0 <=? n)
           && (doff + n <=? Z.of_nat (length dst))
           && (soff + n <=? Z.of_nat (length src))) with true
    by (symmetry; repeat (apply andb_true_intro; split); lia).
  eexists. split; [reflexivity|].
  assert (Hl1 : length (take (Z.to_nat doff) dst) = Z.to_nat doff)
    by (rewrite length_take; lia).
  assert (Hl2 : length (take (Z.to_nat n) (drop (Z.to_nat soff) src)) = Z.to_nat n)
    by (rewrite length_take, length_drop; lia).
  split_all.
  - rewrite !length_app, Hl1, Hl2, length_drop. lia.
  - intros Hbd Hbs. apply Forall_app_2; [apply Forall_take; exact Hbd|].
    apply Forall_app_2; [apply Forall_take, Forall_drop; exact Hbs|].
    apply Forall_drop; exact Hbd.
  - intros j Hj. unfold load8.
    destruct ((doff <=? j) && (j <? doff + n)) eqn:E.
    + apply andb_true_iff in E as [E1 E2]. apply Z.leb_le in E1. apply Z.ltb_lt in E2.
      rewrite lookup_app_r by lia. rewrite Hl1.
      rewrite lookup_app_l by lia.
      rewrite lookup_take_lt by lia. rewrite lookup_drop.
      f_equal. f_equal. lia.
    + apply andb_false_iff in E. destruct (Z.lt_ge_cases j doff) as [Hlt|Hge].
      * rewrite lookup_app_l by lia. rewrite lookup_take_lt by lia. reflexivity.
      * assert (doff + n <= j).
        { destruct E as [E|E]; [apply Z.leb_gt in E; lia|apply Z.ltb_ge in E; lia]. }
        rewrite lookup_app_r by lia. rewrite Hl1.
        rewrite lookup_app_r by lia. rewrite Hl2, lookup_drop.
        f_equal. f_equal. lia.
Qed.

Lemma get_voxel_other_channel (s : VoxelBuffer) (c c' : nat) (ch : Channel) (x y z : Z) :
  c' <> c -> get_voxel (set_channel s c ch) x y z c' = get_voxel s x y z c'.
Proof.
  intros Hne. unfold get_voxel. rewrite channel_at_set_channel_ne by congruence.
  reflexivity.
Qed.

(** One row more, copied from the buffer of another block at depth D8. *)
Lemma written_copied_row (d0 s other : VoxelBuffer) (c : nat) (val : Z -> Z -> Z -> Z)
    (W : Z -> Z -> Z -> Prop) (px pz ylo qx qy qz n : Z) (d od : Bytes) :
  (c < MAX_CHANNELS)%nat ->
  depth (channel_at d0 c) = DEPTH_8_BIT ->
  (forall x y z, W x y z -> validate_pos d0 x y z = true) ->
  written d0 s c val W ->
  data (channel_at s c) = Some d ->
  WellFormed other ->
  data (channel_at other c) = Some od -> depth (channel_at other c) = DEPTH_8_BIT ->
  0 <= px < vx (_size d0) -> 0 <= pz < vz (_size d0) ->
  0 <= ylo < vy (_size d0) -> 0 <= n -> ylo + n <= vy (_size d0) ->
  0 <= qx < vx (_size other) -> 0 <= qz < vz (_size other) ->
  0 <= qy < vy (_size other) -> qy + n <= vy (_size other) ->
  (forall y, ylo <= y < ylo + n -> val px y pz = get_voxel other qx (qy + (y - ylo)) qz c) ->
  exists d',
    memcpy_at d (index s px ylo pz) od (index other qx qy qz) (n * 1) = Finished d' [] /\
    written d0
      (set_channel s c (set_data (channel_at s c) (Some d') (size_in_bytes (channel_at s c))))
      c val (fun x y z => W x y z \/ (x = px /\ z = pz /\ ylo <= y < ylo + n)).
Proof.
  intros Hc Hdp HW (Hwfs & Hs & Hd & Hoc & Hout & Hin) Hdata Hwfo Hodata Hodp
         Hpx Hpz Hylo Hn Hyn Hqx Hqz Hqy Hqn Hval.
  pose proof (well_formed_spec s Hwfs) as Hwf.
  pose proof (wf_channels s Hwf) as Hlen.
  pose proof (wf_channel_ok s Hwf c Hc) as Hok.
  pose proof (wf_channel_ok other Hwfo c Hc) as Hoko.
  assert (Hdps : depth (channel_at s c) = DEPTH_8_BIT) by (rewrite Hd; exact Hdp).
  destruct (channel_ok_data s _ d Hwf Hok Hdata ltac:(rewrite Hdps; discriminate))
    as (Hld & Hsz & Hbd).
  destruct (channel_ok_data other _ od Hwfo Hoko Hodata ltac:(rewrite Hodp; discriminate))
    as (Hlod & _ & Hbod).
  rewrite Hdps in Hld. rewrite Hodp in Hlod. bytes_per_voxel_values.
  assert (Hvp : forall x y z, validate_pos s x y z = validate_pos d0 x y z)
    by (intros; unfold validate_pos; rewrite Hs; reflexivity).
  assert (Hp0 : validate_pos s px ylo pz = true)
    by (apply validate_pos_intro; rewrite Hs; lia).
  assert (Hq0 : validate_pos other qx qy qz = true) by (apply validate_pos_intro; lia).
  pose proof (index_linear s px ylo pz Hwf Hp0) as Hri.
  pose proof (index_linear other qx qy qz Hwfo Hq0) as Hqi.
  assert (Hrow : forall i, 0 <= i < n ->
             index s px (ylo + i) pz = index s px ylo pz + i /\
             index other qx (qy + i) qz = index other qx qy qz + i).
  { intros i Hi. split.
    - rewrite (index_linear s px (ylo + i) pz Hwf), Hri; [lia|].
      apply validate_pos_intro; rewrite Hs; lia.
    - rewrite (index_linear other qx (qy + i) qz Hwfo), Hqi; [lia|].
      apply validate_pos_intro; lia. }
  pose proof (index_in_volume s px ylo pz Hwf Hp0) as Hrb.
  pose proof (index_in_volume other qx qy qz Hwfo Hq0) as Hqb.
  assert (Hend : index s px ylo pz + n <= get_volume s /\
                 index other qx qy qz + n <= get_volume other).
  { destruct (decide (n = 0)) as [->|Hne]; [lia|].
    destruct (Hrow (n - 1) ltac:(lia)) as (E1 & E2).
    pose proof (index_in_volume s px (ylo + (n - 1)) pz Hwf
                  ltac:(apply validate_pos_intro; rewrite Hs; lia)).
    pose proof (index_in_volume other qx (qy + (n - 1)) qz Hwfo
                  ltac:(apply validate_pos_intro; lia)).
    lia. }
  destruct (memcpy_at_spec d (index s px ylo pz) od (index other qx qy qz) (n * 1))
    as (d' & Hcopy & Hld' & Hbd' & Hload); try lia.
  exists d'. split; [exact Hcopy|].
  set (s' := set_channel s c _).
  assert (Hget : forall x y z, validate_pos d0 x y z = true ->
             get_voxel s' x y z c = load8 d' (index s x y z)).
  { intros x y z Hp. subst s'. rewrite get_voxel_set_channel; try assumption.
    - cbn [set_data data depth]. rewrite Hdps. reflexivity.
    - rewrite Hvp. exact Hp. }
  assert (Hgets : forall x y z, validate_pos d0 x y z = true ->
             get_voxel s x y z c = load8 d (index s x y z)).
  { intros x y z Hp. rewrite get_voxel_in_range, Hdata, Hdps; try assumption.
    - reflexivity.
    - rewrite Hvp. exact Hp. }
  assert (Hkeep : forall x y z, validate_pos d0 x y z = true ->
             ~ (x = px /\ z = pz /\ ylo <= y < ylo + n) ->
             get_voxel s' x y z c = get_voxel s x y z c).
  { intros x y z Hp Hnot. rewrite Hget, Hgets by exact Hp.
    pose proof (index_in_volume s x y z Hwf ltac:(rewrite Hvp; exact Hp)) as Hib.
    rewrite Hload by lia.
    destruct ((index s px ylo pz <=? index s x y z)
              && (index s x y z <? index s px ylo pz + n * 1)) eqn:E; [|reflexivity].
    exfalso. apply Hnot.
    apply andb_true_iff in E as [E1 E2]. apply Z.leb_le in E1. apply Z.ltb_lt in E2.
    remember (index s x y z - index s px ylo pz) as i eqn:Hi.
    destruct (Hrow i ltac:(lia)) as (Ei & _).
    destruct (index_injective s x y z px (ylo + i) pz Hwf) as (Ex & Ey & Ez).
    - rewrite Hvp. exact Hp.
    - apply validate_pos_intro; rewrite Hs; lia.
    - rewrite Ei. lia.
    - lia. }
  unfold written. split_all.
  - subst s'. apply well_formed_set_channel; [exact Hwfs|].
    unfold set_data. rewrite Hsz.
    replace (Z.of_nat (length d)) with (Z.of_nat (length d')) by (rewrite Hld'; reflexivity).
    apply channel_ok_intro; try assumption.
    + rewrite Hdps. discriminate.
    + apply (channel_ok_defval _ _ Hok).
    + rewrite Hdps. bytes_per_voxel_values. rewrite Hld'. exact Hld.
    + apply Hbd'; assumption.
  - exact Hs.
  - intros i. subst s'. destruct (decide (i = c)) as [->|Hne].
    + rewrite channel_at_set_channel_eq by lia. cbn [set_data depth]. apply Hd.
    + rewrite channel_at_set_channel_ne by congruence. apply Hd.
  - intros c' x y z Hne. subst s'. rewrite get_voxel_other_channel by exact Hne.
    apply Hoc. exact Hne.
  - intros x y z Hp Hnot. rewrite Hkeep by tauto. apply Hout; [exact Hp|]. tauto.
  - intros x y z HWr.
    destruct (decide (x = px /\ z = pz /\ ylo <= y < ylo + n)) as [(-> & -> & Hy) | Hnot].
    + assert (Hp : validate_pos d0 px y pz = true) by (apply validate_pos_intro; lia).
      rewrite Hget by exact Hp.
      destruct (Hrow (y - ylo) ltac:(lia)) as (Ei & Eo).
      replace (ylo + (y - ylo)) with y in Ei by lia.
      rewrite Ei. rewrite Hload by lia.
      replace ((index s px ylo pz <=? index s px ylo pz + (y - ylo))
               && (index s px ylo pz + (y - ylo) <? index s px ylo pz + n * 1)) with true
        by (symmetry; apply andb_true_intro; split; [apply Z.leb_le|apply Z.ltb_lt]; lia).
      rewrite Hval by lia.
      rewrite (get_voxel_in_range other), Hodata, Hodp
        by (try assumption; apply validate_pos_intro; lia).
      cbn [read_voxel]. rewrite Eo.
      replace (index s px ylo pz + (y - ylo) - index s px ylo pz) with (y - ylo) by lia.
      rewrite Hdp. symmetry. apply clamp_value_small.
      pose proof (load8_range od (index other qx qy qz + (y - ylo)) Hbod). cbn. lia.
    + destruct HWr as [HWr | HWr]; [|tauto].
      rewrite Hkeep by (try exact Hnot; apply HW; exact HWr). apply Hin. exact HWr.
Qed.

Lemma written_from (d0 d1 d2 : VoxelBuffer) (c : nat) (val val' : Z -> Z -> Z -> Z)
    (W W' : Z -> Z -> Z -> Prop) :
  written d0 d1 c val (fun _ _ _ => False) ->
  written d1 d2 c val' W' ->
  (forall x y z, W x y z <-> W' x y z) ->
  (forall x y z, W x y z -> val x y z = val' x y z) ->
  written d0 d2 c val W.
Proof.
  intros (H1 & H2 & H3 & H4 & H5 & _) (K1 & K2 & K3 & K4 & K5 & K6) HW Hval.
  unfold written. split_all.
  - exact K1.
  - congruence.
  - intros i. rewrite K3. apply H3.
  - intros c' x y z Hne. rewrite K4 by exact Hne. apply H4. exact Hne.
  - intros x y z Hp Hnot. rewrite K5.
    + apply H5; [exact Hp|tauto].
    + unfold validate_pos in *. rewrite H2. exact Hp.
    + intros HW'. apply Hnot, HW. exact HW'.
  - intros x y z Hw. rewrite K6 by (apply HW; exact Hw).
    rewrite H3, Hval by exact Hw. reflexivity.
Qed.

Section CopyArea.

Variable pool_bytes : Z -> nat -> Z.

(** The voxel-by-voxel loops of the copy of an area. *)
Lemma copy_voxels_written (other d0 s : VoxelBuffer) (smin dmin area : Vector3i) (c : nat) :
  WellFormed other -> (c < MAX_CHANNELS)%nat ->
  depth (channel_at d0 c) <> DEPTH_1_BIT ->
  let val := fun x y z =>
               get_voxel other (vx smin + (x - vx dmin)) (vy smin + (y - vy dmin))
                         (vz smin + (z - vz dmin)) c in
  written d0 s c val (fun _ _ _ => False) ->
  0 <= vx dmin -> 0 <= vx area -> vx dmin + vx area <= vx (_size d0) ->
  0 <= vy dmin -> 0 <= vy area -> vy dmin + vy area <= vy (_size d0) ->
  0 <= vz dmin -> 0 <= vz area -> vz dmin + vz area <= vz (_size d0) ->
  exists s',
    for_range 0 (vz area) (fun pz b =>
    for_range 0 (vx area) (fun px b =>
    for_range 0 (vy area) (fun py b =>
      set_voxel_v pool_bytes b
        (get_voxel_v other (Vector3i_add smin (mkVector3i px py pz)) c)
        (Vector3i_add dmin (mkVector3i px py pz)) c) b) b) s = Finished s' [] /\
    written d0 s' c val
      (fun x y z => vx dmin <= x < vx dmin + vx area /\
                    vy dmin <= y < vy dmin + vy area /\
                    vz dmin <= z < vz dmin + vz area).
Proof.
  intros Hother Hc Hdp val Hstart Hx Hax Hbx Hy Hay Hby Hz Haz Hbz.
  assert (Hvalid : forall x y z,
             vx dmin <= x < vx dmin + vx area /\ vy dmin <= y < vy dmin + vy area /\
             vz dmin <= z < vz dmin + vz area ->
             validate_pos d0 x y z = true).
  { intros x y z H. apply validate_pos_intro; lia. }
  apply for_range_rule with
    (P := fun pz d =>
            written d0 d c val
              (fun x y z => vx dmin <= x < vx dmin + vx area /\
                            vy dmin <= y < vy dmin + vy area /\
                            vz dmin <= z < vz dmin + pz)).
  - lia.
  - eapply written_ext; [|exact Hstart]. intros x y z. cbn beta. lia.
  - intros pz d Hpz Hin.
    apply for_range_rule with
      (P := fun px d =>
              written d0 d c val
                (fun x y z =>
                   vx dmin <= x < vx dmin + vx area /\ vy dmin <= y < vy dmin + vy area /\
                   vz dmin <= z < vz dmin + pz
                   \/ (z = vz dmin + pz /\ vx dmin <= x < vx dmin + px /\
                       vy dmin <= y < vy dmin + vy area))).
    + lia.
    + eapply written_ext; [|exact Hin]. intros x y z. cbn beta. lia.
    + intros px d1 Hpx Hin1.
      apply for_range_rule with
        (P := fun py d =>
                written d0 d c val
                  (fun x y z =>
                     (vx dmin <= x < vx dmin + vx area /\ vy dmin <= y < vy dmin + vy area /\
                      vz dmin <= z < vz dmin + pz
                      \/ (z = vz dmin + pz /\ vx dmin <= x < vx dmin + px /\
                          vy dmin <= y < vy dmin + vy area))
                     \/ (z = vz dmin + pz /\ x = vx dmin + px /\
                         vy dmin <= y < vy dmin + py))).
      * lia.
      * eapply written_ext; [|exact Hin1]. intros x y z. cbn beta. lia.
      * intros py d2 Hpy Hin2.
        unfold set_voxel_v, get_voxel_v. cbn [vx vy vz Vector3i_add].
        replace (get_voxel other (vx smin + px) (vy smin + py) (vz smin + pz) c)
          with (val (vx dmin + px) (vy dmin + py) (vz dmin + pz))
          by (unfold val; f_equal; lia).
        pose proof (fun HW => written_set_voxel pool_bytes d0 d2 c val _
                                (vx dmin + px) (vy dmin + py) (vz dmin + pz)
                                Hc Hdp HW Hin2) as Hstep.
        destruct Hstep as (d3 & Hset & Hw3).
        -- intros x y z H. apply Hvalid. lia.
        -- apply Hvalid. lia.
        -- apply get_voxel_nonneg. exact Hother.
        -- exists d3. split; [exact Hset|].
           eapply written_ext; [|exact Hw3]. intros x y z. cbn beta. lia.
      * intros d2 Hd2. eapply written_ext; [|exact Hd2]. intros x y z. cbn beta. lia.
    + intros d1 Hd1. eapply written_ext; [|exact Hd1]. intros x y z. cbn beta. lia.
  - intros d Hd. exact Hd.
Qed.

(** The row-by-row loops of the copy of an area, at depth D8. *)
Lemma copy_rows_written (other d0 s : VoxelBuffer) (smin dmin area : Vector3i) (c : nat)
    (od : Bytes) :
  WellFormed other -> (c < MAX_CHANNELS)%nat ->
  depth (channel_at d0 c) = DEPTH_8_BIT ->
  data (channel_at other c) = Some od -> depth (channel_at other c) = DEPTH_8_BIT ->
  let val := fun x y z =>
               get_voxel other (vx smin + (x - vx dmin)) (vy smin + (y - vy dmin))
                         (vz smin + (z - vz dmin)) c in
  written d0 s c val (fun _ _ _ => False) ->
  has_data (channel_at s c) = true ->
  0 <= vx dmin -> 0 <= vx area -> vx dmin + vx area <= vx (_size d0) ->
  0 <= vy dmin < vy (_size d0) -> 0 <= vy area -> vy dmin + vy area <= vy (_size d0) ->
  0 <= vz dmin -> 0 <= vz area -> vz dmin + vz area <= vz (_size d0) ->
  0 <= vx smin -> vx smin + vx area <= vx (_size other) ->
  0 <= vy smin < vy (_size other) -> vy smin + vy area <= vy (_size other) ->
  0 <= vz smin -> vz smin + vz area <= vz (_size other) ->
  exists s',
    for_range 0 (vz area) (fun pz b =>
    for_range 0 (vx area) (fun px b =>
      let* d' :=
        memcpy_at (default [] (data (channel_at b c)))
          (index b (px + vx dmin) (vy Vector3i_zero + vy dmin) (pz + vz dmin)) od
          (index other (px + vx smin) (vy Vector3i_zero + vy smin) (pz + vz smin))
          (vy area * 1) in
      ret (set_channel b c
             (set_data (channel_at b c) (Some d') (size_in_bytes (channel_at b c))))) b) s
      = Finished s' [] /\
    written d0 s' c val
      (fun x y z => vx dmin <= x < vx dmin + vx area /\
                    vy dmin <= y < vy dmin + vy area /\
                    vz dmin <= z < vz dmin + vz area).
Proof.
  intros Hother Hc Hdp Hod Hodp val Hstart Hhas Hx Hax Hbx Hy Hay Hby Hz Haz Hbz
         Hsx Hsbx Hsy Hsby Hsz Hsbz.
  cbn [vy Vector3i_zero].
  apply for_range_rule with
    (P := fun pz d =>
            has_data (channel_at d c) = true /\
            written d0 d c val
              (fun x y z => vx dmin <= x < vx dmin + vx area /\
                            vy dmin <= y < vy dmin + vy area /\
                            vz dmin <= z < vz dmin + pz)).
  - lia.
  - split; [exact Hhas|].
    eapply written_ext; [|exact Hstart]. intros x y z. cbn beta. lia.
  - intros pz d Hpz (Hh & Hin).
    apply for_range_rule with
      (P := fun px d =>
              has_data (channel_at d c) = true /\
              written d0 d c val
                (fun x y z =>
                   vx dmin <= x < vx dmin + vx area /\ vy dmin <= y < vy dmin + vy area /\
                   vz dmin <= z < vz dmin + pz
                   \/ (z = vz dmin + pz /\ vx dmin <= x < vx dmin + px /\
                       vy dmin <= y < vy dmin + vy area))).
    + lia.
    + split; [exact Hh|].
      eapply written_ext; [|exact Hin]. intros x y z. cbn beta. lia.
    + intros px d1 Hpx (Hh1 & Hin1).
      unfold has_data in Hh1.
      destruct (data (channel_at d1 c)) as [dd|] eqn:Edd; [|discriminate].
      cbn [default from_option id].
      replace (0 + vy dmin) with (vy dmin) by lia.
      replace (0 + vy smin) with (vy smin) by lia.
      pose proof (fun HW => written_copied_row d0 d1 other c val _ (px + vx dmin)
                              (pz + vz dmin) (vy dmin) (px + vx smin) (vy smin)
                              (pz + vz smin) (vy area) dd od
                              Hc Hdp HW Hin1 Edd Hother Hod Hodp) as Hrowstep.
      destruct Hrowstep as (d' & Hcopy & Hw); try assumption; try lia.
      * intros x y z H. apply validate_pos_intro; lia.
      * intros y Hyr. unfold val. f_equal; lia.
      * rewrite Hcopy. cbn [bind ret app]. eexists. split; [reflexivity|]. split.
        -- rewrite channel_at_set_channel_eq; [reflexivity|].
           destruct Hin1 as (Hwf1 & _).
           rewrite (wf_channels _ (well_formed_spec _ Hwf1)). exact Hc.
        -- eapply written_ext; [|exact Hw]. intros x y z. cbn beta. lia.
    + intros d1 (Hh1 & Hd1). split; [exact Hh1|].
      eapply written_ext; [|exact Hd1]. intros x y z. cbn beta. lia.
  - intros d (_ & Hd). exact Hd.
Qed.

End CopyArea.

Lemma Vector3i_eta (v : Vector3i) : mkVector3i (vx v) (vy v) (vz v) = v.
Proof. destruct v; reflexivity. Qed.

Section CopyAreaResult.

Variable pool_bytes : Z -> nat -> Z.

Lemma copy_from_area_result
    (b other : VoxelBuffer) (src_min src_max dst_min : Vector3i) (c : nat) :
  well_formed b = true -> well_formed other = true -> (c < MAX_CHANNELS)%nat ->
  depth (channel_at other c) = depth (channel_at b c) ->
  depth (channel_at b c) <> DEPTH_1_BIT ->
  copy_axis_in_range (vx (_size other)) (vx (_size b)) (vx src_min) (vx src_max) (vx dst_min) ->
  copy_axis_in_range (vy (_size other)) (vy (_size b)) (vy src_min) (vy src_max) (vy dst_min) ->
  copy_axis_in_range (vz (_size other)) (vz (_size b)) (vz src_min) (vz src_max) (vz dst_min) ->
  ~ (Vector3i_sub src_max src_min = _size b /\ Vector3i_sub src_max src_min = _size other) ->
  (has_data (channel_at other c) = true \/ has_data (channel_at b c) = false \/
   defval (channel_at b c) <> defval (channel_at other c)) ->
  exists b',
    copy_from_area pool_bytes b other src_min src_max dst_min c = Finished b' [] /\
    written b b' c
      (fun x y z =>
         get_voxel other (vx src_min + (x - vx dst_min)) (vy src_min + (y - vy dst_min))
                   (vz src_min + (z - vz dst_min)) c)
      (fun x y z =>
         vx dst_min <= x < vx dst_min + (vx src_max - vx src_min) /\
         vy dst_min <= y < vy dst_min + (vy src_max - vy src_min) /\
         vz dst_min <= z < vz dst_min + (vz src_max - vz src_min)).
Proof.
  intros Hwfb Hwfo Hc Hdepth Hdp (Hx1 & Hx2 & Hx3 & Hx4) (Hy1 & Hy2 & Hy3 & Hy4)
         (Hz1 & Hz2 & Hz3 & Hz4) Hnotfull Hcase.
  pose proof (well_formed_spec b Hwfb) as Hwf.
  pose proof (well_formed_spec other Hwfo) as Hother.
  pose proof (wf_channel_ok b Hwf c Hc) as Hok.
  pose proof (wf_channel_ok other Hother c Hc) as Hoko.
  set (val := fun x y z =>
                get_voxel other (vx src_min + (x - vx dst_min))
                          (vy src_min + (y - vy dst_min)) (vz src_min + (z - vz dst_min)) c).
  set (box := fun x y z =>
                vx dst_min <= x < vx dst_min + (vx src_max - vx src_min) /\
                vy dst_min <= y < vy dst_min + (vy src_max - vy src_min) /\
                vz dst_min <= z < vz dst_min + (vz src_max - vz src_min)).
  unfold copy_from_area. rewrite ltb_channels by exact Hc.
  rewrite Hdepth, Depth_eqb_refl. cbn [negb].
  destruct (negb (has_data (channel_at b c)) && negb (has_data (channel_at other c))
            && (defval (channel_at b c) =? defval (channel_at other c))) eqn:Eskip.
  { (* both uniform, with the same value *)
    exists b. split; [reflexivity|].
    apply andb_prop in Eskip. destruct Eskip as [Eskip Edef].
    apply andb_prop in Eskip. destruct Eskip as [Eb Eo].
    apply negb_true_iff in Eb. apply negb_true_iff in Eo. apply Z.eqb_eq in Edef.
    destruct (written_start b c val Hwfb) as (H1 & H2 & H3 & H4 & H5 & _).
    unfold written. split_all; try assumption; [intros; reflexivity|].
    intros x y z _. unfold val. rewrite !get_voxel_uniform by assumption.
    rewrite <- Edef. symmetry. apply clamp_value_small.
    apply (channel_ok_defval _ _ Hok). }
  unfold sort_min_max.
  rewrite !Z.min_l, !Z.max_r by lia. rewrite !Vector3i_eta.
  assert (E1 : clamp_to src_min Vector3i_zero (_size other) = src_min).
  { destruct src_min as [a b0 c0]. unfold clamp_to. cbn in *.
    rewrite !clamp_axis_inside by lia. reflexivity. }
  assert (E2 : clamp_to src_max Vector3i_zero (Vector3i_add (_size other) Vector3i_one)
               = src_max).
  { destruct src_max as [a b0 c0]. unfold clamp_to. cbn in *.
    rewrite !clamp_axis_inside by lia. reflexivity. }
  assert (E3 : clamp_to dst_min Vector3i_zero (_size b) = dst_min).
  { destruct dst_min as [a b0 c0]. unfold clamp_to. cbn in *.
    rewrite !clamp_axis_inside by lia. reflexivity. }
  rewrite E1, E2, E3.
  replace (Vector3i_eqb (Vector3i_sub src_max src_min) (_size b)
           && Vector3i_eqb (Vector3i_sub src_max src_min) (_size other)) with false.
  2:{ symmetry. apply not_true_is_false. intros E. apply Hnotfull.
      apply andb_prop in E. destruct E as [Ea Eb].
      split; apply Vector3i_eqb_eq; assumption. }
  set (area := Vector3i_sub src_max src_min).
  assert (Hax : vx area = vx src_max - vx src_min) by reflexivity.
  assert (Hay : vy area = vy src_max - vy src_min) by reflexivity.
  assert (Haz : vz area = vz src_max - vz src_min) by reflexivity.
  clearbody area.
  (* the destination channel gets a buffer *)
  assert (Hmat : exists b1,
             (if has_data (channel_at b c) then ret b
              else create_channel pool_bytes b c (_size b) (defval (channel_at b c)))
             = Finished b1 [] /\
             has_data (channel_at b1 c) = true /\
             forall val', written b b1 c val' (fun _ _ _ => False)).
  { destruct (has_data (channel_at b c)) eqn:Eh.
    - exists b. split; [reflexivity|]. split; [exact Eh|].
      intros val'. apply written_start. exact Hwfb.
    - destruct (create_channel_written pool_bytes b c val Hwfb Hc Hdp Eh)
        as (b1 & Hrun & Hh & _ & _ & Hw).
      exists b1. split; [exact Hrun|]. split; [exact Hh|].
      intros val'. destruct Hw as (H1 & H2 & H3 & H4 & H5 & _).
      unfold written. split_all; try assumption. intros x y z []. }
  destruct Hmat as (b1 & Hmat & Hh1 & Hw1).
  destruct (data (channel_at other c)) as [od|] eqn:Eod.
  - rewrite Hmat. cbn [bind app].
    destruct (Depth_eqb (depth (channel_at b c)) DEPTH_8_BIT) eqn:E8.
    + apply Depth_eqb_eq in E8.
      destruct (copy_rows_written other b b1 src_min dst_min area c od)
        as (b' & Hrun & Hw); try assumption; try lia.
      * congruence.
      * apply Hw1.
      * exists b'. split; [rewrite Hrun; reflexivity|].
        eapply written_ext; [|exact Hw]. intros x y z. unfold box. cbn beta. lia.
    + destruct (copy_voxels_written pool_bytes other b b1 src_min dst_min area c)
        as (b' & Hrun & Hw); try assumption; try lia.
      * apply Hw1.
      * exists b'. split; [rewrite Hrun; reflexivity|].
        eapply written_ext; [|exact Hw]. intros x y z. unfold box. cbn beta. lia.
  - assert (Huo : has_data (channel_at other c) = false)
      by (unfold has_data; rewrite Eod; reflexivity).
    destruct (defval (channel_at b c) =? defval (channel_at other c)) eqn:Edef.
    + (* excluded: nothing would be copied into the buffer of the destination *)
      apply Z.eqb_eq in Edef. exfalso.
      destruct Hcase as [H | [H | H]]; [congruence| |congruence].
      rewrite H, Huo in Eskip. discriminate.
    + cbn [negb]. rewrite Hmat. cbn [bind app].
      pose proof (Hw1 val) as Hwb1. destruct Hwb1 as (Hwfb1 & Hs1 & Hd1 & _).
      destruct (fill_area_written pool_bytes b1 (defval (channel_at other c)) dst_min
                  (Vector3i_add dst_min area) c Hwfb1 Hc)
        as (b' & Hrun & Hw).
      * apply (channel_ok_defval _ _ Hoko).
      * rewrite Hd1. exact Hdp.
      * exists b'. split; [rewrite Hrun; reflexivity|].
        apply (written_from b b1 b' c val _ box _ (Hw1 val) Hw).
        -- intros x y z. unfold box, in_area. cbn [vx vy vz Vector3i_add].
           rewrite !Z.min_l, !Z.max_r by lia. split.
           ++ intros H. split; [|lia]. apply validate_pos_intro; rewrite Hs1; lia.
           ++ intros [_ H]. lia.
        -- intros x y z _. unfold val. apply get_voxel_uniform; assumption.
Qed.

End CopyAreaResult.

Lemma written_depths (d0 d : VoxelBuffer) (c : nat) (val : Z -> Z -> Z -> Z)
    (W : Z -> Z -> Z -> Prop) :
  written d0 d c val W -> forall c', get_channel_depth d c' = get_channel_depth d0 c'.
Proof.
  intros (_ & _ & Hd & _) c'. unfold get_channel_depth. rewrite Hd. reflexivity.
Qed.

Section AreaTheorems.

Variable pool_bytes : Z -> nat -> Z.

(** X20.  [set_voxel] then [get_voxel], at a depth other than D1 and a
    position in range: the position reads the value clamped to the depth of
    the channel, every other position of the channel and every other channel
    read as before, and size and depths are kept. *)
Theorem set_voxel_round_trip (b : VoxelBuffer) (v x y z : Z) (c : nat) :
  well_formed b = true -> (c < MAX_CHANNELS)%nat ->
  validate_pos b x y z = true -> 0 <= v ->
  depth (channel_at b c) <> DEPTH_1_BIT ->
  exists b',
    set_voxel pool_bytes b v x y z c = Finished b' [] /\
    well_formed b' = true /\
    _size b' = _size b /\
    (forall c', get_channel_depth b' c' = get_channel_depth b c') /\
    get_voxel b' x y z c = clamp_value_for_depth v (depth (channel_at b c)) /\
    (forall x' y' z',
        validate_pos b x' y' z' = true -> (x', y', z') <> (x, y, z) ->
        get_voxel b' x' y' z' c = get_voxel b x' y' z' c) /\
    (forall c' x' y' z', c' <> c -> get_voxel b' x' y' z' c' = get_voxel b x' y' z' c').
Proof.
  intros Hwf Hc Hp Hv Hdp.
  destruct (set_get_voxel_whole_bytes pool_bytes b v x y z c Hwf Hc Hp Hv Hdp)
    as (b' & Hrun & Hwf' & Hget & Hpos & Hchan & Hs & Hd).
  exists b'. split_all; try assumption.
  intros c'. unfold get_channel_depth. rewrite Hd. reflexivity.
Qed.

(** X21.  [fill_area(v, min, max, c)] on a well-formed block, at a depth
    other than D1: the corners may come in any order; the positions of the
    block between them (upper corner excluded) read [v] clamped to the
    depth, all other voxels of the block are unchanged. *)
Theorem fill_area_fills_box (b : VoxelBuffer) (v : Z) (min max : Vector3i) (c : nat) :
  well_formed b = true -> (c < MAX_CHANNELS)%nat -> 0 <= v ->
  depth (channel_at b c) <> DEPTH_1_BIT ->
  exists b',
    fill_area pool_bytes b v min max c = Finished b' [] /\
    well_formed b' = true /\
    _size b' = _size b /\
    (forall c', get_channel_depth b' c' = get_channel_depth b c') /\
    (forall c' x y z, c' <> c -> get_voxel b' x y z c' = get_voxel b x y z c') /\
    (forall x y z, validate_pos b x y z = true -> in_area min max x y z ->
       get_voxel b' x y z c = clamp_value_for_depth v (depth (channel_at b c))) /\
    (forall x y z, validate_pos b x y z = true -> ~ in_area min max x y z ->
       get_voxel b' x y z c = get_voxel b x y z c).
Proof.
  intros Hwf Hc Hv Hdp.
  destruct (fill_area_written pool_bytes b v min max c Hwf Hc Hv Hdp) as (b' & Hrun & Hw).
  exists b'. split; [exact Hrun|].
  pose proof (written_depths _ _ _ _ _ Hw) as Hdepths.
  destruct Hw as (H1 & H2 & H3 & H4 & H5 & H6).
  split_all; try assumption.
  - intros x y z Hp Hin. apply H6. split; assumption.
  - intros x y z Hp Hout. apply H5; [exact Hp|]. tauto.
Qed.

(** X22.  The copy of an area, [copy_from(other, src_min, src_max, dst_min,
    c)], between channels of the same depth other than D1, with ranges that
    lie in the two blocks and are not the whole of both: the destination
    range reads the voxels of the source range, position by position, and
    the rest of the destination is unchanged.  (The case left out by the
    last hypothesis is the one of the next theorem.) *)
Theorem copy_from_area_copies_box
    (b other : VoxelBuffer) (src_min src_max dst_min : Vector3i) (c : nat) :
  well_formed b = true -> well_formed other = true -> (c < MAX_CHANNELS)%nat ->
  depth (channel_at other c) = depth (channel_at b c) ->
  depth (channel_at b c) <> DEPTH_1_BIT ->
  copy_axis_in_range (vx (_size other)) (vx (_size b)) (vx src_min) (vx src_max) (vx dst_min) ->
  copy_axis_in_range (vy (_size other)) (vy (_size b)) (vy src_min) (vy src_max) (vy dst_min) ->
  copy_axis_in_range (vz (_size other)) (vz (_size b)) (vz src_min) (vz src_max) (vz dst_min) ->
  ~ (Vector3i_sub src_max src_min = _size b /\ Vector3i_sub src_max src_min = _size other) ->
  (get_channel_compression other c = COMPRESSION_NONE \/
   get_channel_compression b c = COMPRESSION_UNIFORM \/
   defval (channel_at b c) <> defval (channel_at other c)) ->
  exists b',
    copy_from_area pool_bytes b other src_min src_max dst_min c = Finished b' [] /\
    well_formed b' = true /\
    _size b' = _size b /\
    (forall c', get_channel_depth b' c' = get_channel_depth b c') /\
    (forall c' x y z, c' <> c -> get_voxel b' x y z c' = get_voxel b x y z c') /\
    forall x y z, validate_pos b x y z = true ->
      get_voxel b' x y z c =
        if (vx dst_min <=? x) && (x <? vx dst_min + (vx src_max - vx src_min))
           && (vy dst_min <=? y) && (y <? vy dst_min + (vy src_max - vy src_min))
           && (vz dst_min <=? z) && (z <? vz dst_min + (vz src_max - vz src_min))
        then clamp_value_for_depth
               (get_voxel other (vx src_min + (x - vx dst_min))
                  (vy src_min + (y - vy dst_min)) (vz src_min + (z - vz dst_min)) c)
               (depth (channel_at b c))
        else get_voxel b x y z c.
Proof.
  intros Hwf Hwfo Hc Hdepth Hdp Hx Hy Hz Hnotfull Hcase.
  destruct (copy_from_area_result pool_bytes b other src_min src_max dst_min c
              Hwf Hwfo Hc Hdepth Hdp Hx Hy Hz Hnotfull) as (b' & Hrun & Hw).
  { unfold get_channel_compression in Hcase. rewrite ltb_channels in Hcase by exact Hc.
    cbn [negb] in Hcase. unfold has_data.
    destruct (data (channel_at other c)), (data (channel_at b c));
      destruct Hcase as [H | [H | H]]; try discriminate; auto. }
  exists b'. split; [exact Hrun|].
  pose proof (written_depths _ _ _ _ _ Hw) as Hdepths.
  destruct Hw as (H1 & H2 & H3 & H4 & H5 & H6).
  split_all; try assumption.
  intros x y z Hp.
  destruct ((vx dst_min <=? x) && (x <? vx dst_min + (vx src_max - vx src_min))
            && (vy dst_min <=? y) && (y <? vy dst_min + (vy src_max - vy src_min))
            && (vz dst_min <=? z) && (z <? vz dst_min + (vz src_max - vz src_min))) eqn:E.
  - rewrite !andb_true_iff, !Z.leb_le, !Z.ltb_lt in E. apply H6. lia.
  - apply H5; [exact Hp|]. intros Hbox.
    apply not_true_iff_false in E. apply E.
    rewrite !andb_true_iff, !Z.leb_le, !Z.ltb_lt. lia.
Qed.

(** X23.  The copy of an area from a uniform source channel whose [defval]
    is the [defval] of the destination channel.  Unless the range, sorted
    and clamped, is the whole of both blocks, the call changes nothing, also
    when the destination channel is materialised and holds other voxels: the
    test compares the two [defval]s and ignores the buffer of the
    destination.  When the range is the whole of both blocks the call is the
    full copy of the channel, which frees the buffer of the destination:
    every voxel then reads the [defval]. *)
Theorem copy_from_area_same_defval
    (b other : VoxelBuffer) (src_min src_max dst_min : Vector3i) (c : nat) :
  (c < MAX_CHANNELS)%nat ->
  depth (channel_at other c) = depth (channel_at b c) ->
  get_channel_compression other c = COMPRESSION_UNIFORM ->
  defval (channel_at b c) = defval (channel_at other c) ->
  exists b',
    copy_from_area pool_bytes b other src_min src_max dst_min c = Finished b' [] /\
    (copies_whole_blocks b other src_min src_max = false -> b' = b) /\
    (copies_whole_blocks b other src_min src_max = true ->
     get_channel_compression b' c = COMPRESSION_UNIFORM /\
     (forall x y z, get_voxel b' x y z c = defval (channel_at b c)) /\
     (forall c', c' <> c -> channel_at b' c' = channel_at b c')).
Proof.
  intros Hc Hdepth Hcomp Hdef.
  unfold get_channel_compression in Hcomp. rewrite ltb_channels in Hcomp by exact Hc.
  cbn [negb] in Hcomp.
  destruct (data (channel_at other c)) eqn:Eod; [discriminate|].
  assert (Huniform : forall b1 : VoxelBuffer,
             data (channel_at b1 c) = None ->
             get_channel_compression b1 c = COMPRESSION_UNIFORM /\
             forall x y z, get_voxel b1 x y z c = defval (channel_at b1 c)).
  { intros b1 E1. split.
    - unfold get_channel_compression. rewrite ltb_channels by exact Hc. cbn [negb].
      rewrite E1. reflexivity.
    - intros x y z. apply get_voxel_uniform; [exact Hc|]. unfold has_data. rewrite E1.
      reflexivity. }
  unfold copy_from_area, copies_whole_blocks. rewrite ltb_channels by exact Hc.
  rewrite Hdepth, Depth_eqb_refl.
  replace (defval (channel_at b c) =? defval (channel_at other c)) with true
    by (symmetry; apply Z.eqb_eq; exact Hdef).
  cbn [negb].
  unfold has_data at 2. rewrite Eod. cbn [negb andb].
  destruct (has_data (channel_at b c)) eqn:Eh; cbn [negb andb].
  2:{ exists b. split; [reflexivity|]. split; [reflexivity|]. intros _.
      unfold has_data in Eh. destruct (data (channel_at b c)) eqn:Ed; [discriminate|].
      destruct (Huniform b Ed) as (H1 & H2).
      split; [exact H1|]. split; [exact H2 | reflexivity]. }
  assert (Hlen : (c < length (_channels b))%nat).
  { unfold has_data, channel_at in Eh.
    destruct (_channels b !! c) eqn:El; [exact (lookup_lt_Some _ _ _ El)|].
    discriminate Eh. }
  destruct (sort_min_max src_min src_max) as [smin smax].
  destruct (Vector3i_eqb _ (_size b) && Vector3i_eqb _ (_size other)) eqn:Ew.
  - apply andb_prop in Ew. destruct Ew as [Ea Eb].
    apply Vector3i_eqb_eq in Ea, Eb.
    unfold copy_from_channel. rewrite ltb_channels by exact Hc.
    rewrite <- Eb, Ea, Vector3i_eqb_refl, Hdepth, Depth_eqb_refl, Eod, Eh.
    cbn [negb]. unfold delete_channel.
    unfold has_data in Eh. destruct (data (channel_at b c)) eqn:Ed; [|discriminate].
    cbn [bind ret app]. rewrite channel_at_set_channel_eq by exact Hlen.
    cbn [set_data data defval depth size_in_bytes].
    eexists. split; [reflexivity|]. split; [discriminate|]. intros _.
    assert (E1 : data (channel_at
                   (set_channel (set_channel b c (mkChannel None (defval (channel_at b c))
                                                    (depth (channel_at b c)) 0)) c
                      (mkChannel None (defval (channel_at other c))
                         (depth (channel_at b c)) 0)) c) = None).
    { rewrite channel_at_set_channel_eq by (rewrite length_set_channel; exact Hlen).
      reflexivity. }
    destruct (Huniform _ E1) as (H1 & H2). split; [exact H1|]. split.
    + intros x y z. rewrite H2.
      rewrite channel_at_set_channel_eq by (rewrite length_set_channel; exact Hlen).
      cbn [defval]. symmetry. exact Hdef.
    + intros c' Hne. rewrite !channel_at_set_channel_ne by congruence. reflexivity.
  - exists b. split; [reflexivity|]. split; [reflexivity|]. discriminate.
Qed.

End AreaTheorems.

(** ** At given blocks *)

Lemma type_channel : (CHANNEL_TYPE < MAX_CHANNELS)%nat.
Proof. unfold CHANNEL_TYPE, MAX_CHANNELS. lia. Qed.

(** The 27 voxels of a 3x3x3 volume at depth D1. *)
Lemma get_size_in_bytes_for_volume_fits_witness :
  exists n,
    get_size_in_bytes_for_volume (mkVector3i 3 3 3) DEPTH_1_BIT = Finished n [] /\
    27 <= 8 * n < 35.
Proof.
  exact (get_size_in_bytes_for_volume_fits (mkVector3i 3 3 3) DEPTH_1_BIT
           ltac:(cbn; lia) ltac:(cbn; lia)).
Defined.

(** [fill] of the ramp block with 300 reads 255, the clamped value. *)
Lemma fill_reads_value_witness :
  exists b',
    fill pool_0xAA block_8_bit_ramp 300 CHANNEL_TYPE = Finished b' [] /\
    get_voxel b' 1 0 1 CHANNEL_TYPE = 255.
Proof.
  destruct (fill_reads_value pool_0xAA block_8_bit_ramp 300 CHANNEL_TYPE
              eq_refl ltac:(unfold CHANNEL_TYPE, MAX_CHANNELS; lia) ltac:(lia)
              ltac:(discriminate))
    as (b' & Hrun & _ & _ & _ & _ & Hread & _).
  exists b'. split; [exact Hrun|]. exact (Hread 1 0 1 eq_refl).
Defined.

(** [clear_channel] of the channel of the ramp block. *)
Lemma clear_channel_reads_value_witness :
  exists b',
    clear_channel block_8_bit_ramp CHANNEL_TYPE 9 = Finished b' [] /\
    get_channel_compression b' CHANNEL_TYPE = COMPRESSION_UNIFORM /\
    get_voxel b' 1 0 1 CHANNEL_TYPE = 9.
Proof.
  destruct (clear_channel_reads_value block_8_bit_ramp CHANNEL_TYPE 9
              eq_refl ltac:(unfold CHANNEL_TYPE, MAX_CHANNELS; lia) ltac:(lia))
    as (b' & Hrun & _ & _ & Hc & _ & Hread & _).
  exists b'. split; [exact Hrun|]. split; [exact Hc|]. exact (Hread 1 0 1).
Defined.

(** [clear] of the ramp block: the channel reads its [defval] 0. *)
Lemma clear_frees_every_channel_witness :
  exists b',
    clear block_8_bit_ramp = Finished b' [] /\
    get_channel_compression b' CHANNEL_TYPE = COMPRESSION_UNIFORM /\
    get_voxel b' 1 0 1 CHANNEL_TYPE = 0.
Proof.
  destruct (clear_frees_every_channel block_8_bit_ramp eq_refl) as (b' & Hrun & _ & _ & H).
  destruct (H CHANNEL_TYPE ltac:(unfold CHANNEL_TYPE, MAX_CHANNELS; lia))
    as (Hc & _ & Hread).
  exists b'. split; [exact Hrun|]. split; [exact Hc|]. exact (Hread 1 0 1).
Defined.

(** New default values for the ramp block: the materialised channel keeps
    its voxels, a uniform one reads the new value, clamped. *)
Lemma set_default_values_keeps_voxels_witness :
  get_voxel (set_default_values block_8_bit_ramp [9; 300; 9; 9; 9; 9; 9; 9]) 1 0 1 CHANNEL_TYPE
    = 7 /\
  get_voxel (set_default_values block_8_bit_ramp [9; 300; 9; 9; 9; 9; 9; 9]) 1 0 1 CHANNEL_SDF
    = 255.
Proof.
  destruct (set_default_values_keeps_voxels block_8_bit_ramp [9; 300; 9; 9; 9; 9; 9; 9]
              eq_refl ltac:(repeat constructor; lia)) as (_ & _ & H).
  split.
  - destruct (H CHANNEL_TYPE ltac:(unfold CHANNEL_TYPE, MAX_CHANNELS; lia)) as (_ & _ & Hread).
    exact (Hread 1 0 1 eq_refl).
  - destruct (H CHANNEL_SDF ltac:(unfold CHANNEL_SDF, MAX_CHANNELS; lia)) as (_ & _ & Hread).
    exact (Hread 1 0 1 eq_refl).
Defined.

(** Decompressing the SDF channel of a new block. *)
Lemma decompress_channel_keeps_voxels_witness :
  exists b',
    decompress_channel pool_0xAA (fresh_block 2 2 2) CHANNEL_SDF = Finished b' [] /\
    get_channel_compression b' CHANNEL_SDF = COMPRESSION_NONE /\
    get_voxel b' 1 0 1 CHANNEL_SDF = 255.
Proof.
  destruct (decompress_channel_keeps_voxels pool_0xAA (fresh_block 2 2 2) CHANNEL_SDF
              eq_refl ltac:(unfold CHANNEL_SDF, MAX_CHANNELS; lia) ltac:(discriminate))
    as (b' & Hrun & _ & _ & Hc & _ & Hread).
  exists b'. split; [exact Hrun|]. split; [exact Hc|].
  rewrite Hread. reflexivity.
Defined.

(** Asking for depth D16 on the ramp block: the depth stays D8. *)
Lemma set_channel_depth_keeps_depth_witness :
  exists b' log,
    set_channel_depth block_8_bit_ramp CHANNEL_TYPE DEPTH_16_BIT = Finished b' log /\
    get_channel_depth b' CHANNEL_TYPE = DEPTH_8_BIT.
Proof.
  destruct (set_channel_depth_keeps_depth block_8_bit_ramp CHANNEL_TYPE DEPTH_16_BIT
              eq_refl ltac:(unfold CHANNEL_TYPE, MAX_CHANNELS; lia))
    as (b' & log & Hrun & Hd & _).
  exists b', log. split; [exact Hrun|]. rewrite Hd. reflexivity.
Defined.

(** The ramp block, 2x2x2, re-created at 4x4x4: its buffer has 8 bytes. *)
Lemma create_resize_keeps_old_volume_witness :
  exists b',
    create pool_0xAA block_8_bit_ramp 4 4 4 = Finished b' [] /\
    _size b' = mkVector3i 4 4 4 /\
    get_channel_compression b' CHANNEL_TYPE = COMPRESSION_NONE /\
    forall d, data (channel_at b' CHANNEL_TYPE) = Some d -> Z.of_nat (length d) = 8.
Proof.
  destruct (create_resize_keeps_old_volume pool_0xAA block_8_bit_ramp 4 4 4
              eq_refl ltac:(lia) ltac:(lia) ltac:(lia) ltac:(discriminate))
    as (b' & Hrun & Hs & H).
  { intros i Hi. unfold MAX_CHANNELS in Hi.
    do 8 (destruct i as [|i]; [discriminate|]). lia. }
  destruct (H CHANNEL_TYPE ltac:(unfold CHANNEL_TYPE, MAX_CHANNELS; lia))
    as (Hc & _ & _ & Hd).
  exists b'. split; [exact Hrun|]. split; [exact Hs|]. split; [exact Hc|].
  intros d Ed. exact (proj1 (Hd d Ed)).
Defined.

Lemma all_channels_8_bit (b : VoxelBuffer) :
  forallb (fun ch => Depth_eqb (depth ch) DEPTH_8_BIT) (_channels b) = true ->
  length (_channels b) = MAX_CHANNELS ->
  forall i, (i < MAX_CHANNELS)%nat -> depth (channel_at b i) = DEPTH_8_BIT.
Proof.
  intros Hall Hlen i Hi. unfold channel_at.
  destruct (_channels b !! i) as [ch|] eqn:E.
  - apply Depth_eqb_eq. exact (forallb_lookup _ _ _ _ Hall E).
  - apply lookup_ge_None in E. lia.
Qed.

(** The block of sevens is uniform, and its voxels are equal. *)
Lemma is_uniform_exact_witness :
  is_uniform block_8_bit_sevens CHANNEL_TYPE = true /\
  get_voxel block_8_bit_sevens 1 0 1 CHANNEL_TYPE
    = get_voxel block_8_bit_sevens 0 0 0 CHANNEL_TYPE.
Proof.
  split; [reflexivity|].
  exact (proj1 (is_uniform_exact block_8_bit_sevens CHANNEL_TYPE eq_refl type_channel
                  ltac:(discriminate)) eq_refl 1 0 1 eq_refl).
Defined.

(** Compressing the block of sevens keeps its voxels. *)
Lemma compress_uniform_channels_lossless_8_bit_witness :
  exists b',
    compress_uniform_channels block_8_bit_sevens = Finished b' [] /\
    get_voxel b' 1 0 1 CHANNEL_TYPE = get_voxel block_8_bit_sevens 1 0 1 CHANNEL_TYPE.
Proof.
  destruct (compress_uniform_channels_lossless_8_bit block_8_bit_sevens eq_refl)
    as (b' & Hrun & _ & _ & _ & Hread).
  exists b'. split; [exact Hrun|]. exact (Hread CHANNEL_TYPE 1 0 1 eq_refl eq_refl).
Defined.

(** Decompressing the SDF channel of a new block, then compressing. *)
Lemma compress_after_decompress_8_bit_witness :
  exists b1 b2,
    decompress_channel pool_0xAA (fresh_block 2 2 2) CHANNEL_SDF = Finished b1 [] /\
    compress_uniform_channels b1 = Finished b2 [] /\
    compress_uniform_channels (fresh_block 2 2 2) = Finished b2 [].
Proof.
  exact (compress_after_decompress_8_bit pool_0xAA (fresh_block 2 2 2) CHANNEL_SDF
           eq_refl ltac:(unfold CHANNEL_SDF, MAX_CHANNELS; lia) eq_refl).
Defined.

(** Two blocks that differ in the [defval] of a materialised channel only:
    [equals] is true, and the voxels agree. *)
Lemma equals_true_same_voxels_witness :
  get_voxel block_8_bit_ramp 1 0 1 CHANNEL_TYPE
    = get_voxel (set_channel (fresh_block 2 2 2) CHANNEL_TYPE
                   (mkChannel (Some [1; 2; 3; 4; 5; 6; 7; 8]) 5 DEPTH_8_BIT 8))
        1 0 1 CHANNEL_TYPE.
Proof.
  exact (proj2 (proj2 (proj2
           (equals_true_same_voxels block_8_bit_ramp
              (set_channel (fresh_block 2 2 2) CHANNEL_TYPE
                 (mkChannel (Some [1; 2; 3; 4; 5; 6; 7; 8]) 5 DEPTH_8_BIT 8))
              eq_refl eq_refl eq_refl))) CHANNEL_TYPE 1 0 1 eq_refl).
Defined.

(** A new block and the same block with its SDF channel decompressed. *)
Lemma equals_tells_compression_apart_witness :
  exists b',
    decompress_channel pool_0xAA (fresh_block 2 2 2) CHANNEL_SDF = Finished b' [] /\
    equals b' (fresh_block 2 2 2) = Finished false [].
Proof.
  destruct (equals_tells_compression_apart pool_0xAA (fresh_block 2 2 2) CHANNEL_SDF
              eq_refl ltac:(unfold CHANNEL_SDF, MAX_CHANNELS; lia) ltac:(discriminate)
              eq_refl) as (b' & Hrun & _ & Heq).
  exists b'. split; [exact Hrun | exact Heq].
Defined.

(** A copy from a 4x4x4 block into a 2x2x2 block. *)
Lemma copy_from_size_mismatch_witness :
  copy_from pool_0xAA (fresh_block 2 2 2) (fresh_block 4 4 4)
    = Finished (fresh_block 2 2 2) (replicate MAX_CHANNELS ERR_FAIL_COND).
Proof.
  exact (copy_from_size_mismatch pool_0xAA (fresh_block 2 2 2) (fresh_block 4 4 4)
           ltac:(discriminate)).
Defined.

(** The ramp block copied over the block of sevens. *)
Lemma copy_from_8_bit_witness :
  copy_from pool_0xAA block_8_bit_sevens block_8_bit_ramp = Finished block_8_bit_ramp [].
Proof.
  apply (copy_from_8_bit pool_0xAA block_8_bit_sevens block_8_bit_ramp eq_refl eq_refl eq_refl).
  intros i Hi.
  rewrite (all_channels_8_bit block_8_bit_sevens eq_refl eq_refl i Hi).
  rewrite (all_channels_8_bit block_8_bit_ramp eq_refl eq_refl i Hi).
  split; [reflexivity|]. intros _. reflexivity.
Defined.

(** The block of sevens copied over the ramp block, and compressed. *)
Lemma copy_from_commutes_with_compress_8_bit_witness :
  exists r,
    (let* a' := copy_from pool_0xAA block_8_bit_ramp block_8_bit_sevens in
     compress_uniform_channels a') = Finished r [] /\
    (let* b' := compress_uniform_channels block_8_bit_sevens in
     copy_from pool_0xAA block_8_bit_ramp b') = Finished r [].
Proof.
  apply (copy_from_commutes_with_compress_8_bit pool_0xAA block_8_bit_ramp block_8_bit_sevens
           eq_refl eq_refl eq_refl).
  intros i Hi. split.
  - exact (all_channels_8_bit block_8_bit_ramp eq_refl eq_refl i Hi).
  - exact (all_channels_8_bit block_8_bit_sevens eq_refl eq_refl i Hi).
Defined.

(** Writing 300 at (1,0,1) of a new block: 255 there, 0 next to it. *)
Lemma set_voxel_round_trip_witness :
  exists b',
    set_voxel pool_0xAA (fresh_block 2 2 2) 300 1 0 1 CHANNEL_TYPE = Finished b' [] /\
    get_voxel b' 1 0 1 CHANNEL_TYPE = 255 /\
    get_voxel b' 0 0 1 CHANNEL_TYPE = 0.
Proof.
  destruct (set_voxel_round_trip pool_0xAA (fresh_block 2 2 2) 300 1 0 1 CHANNEL_TYPE
              eq_refl type_channel eq_refl ltac:(lia) ltac:(discriminate))
    as (b' & Hrun & _ & _ & _ & Hget & Hother & _).
  exists b'. split; [exact Hrun|]. split; [exact Hget|].
  exact (Hother 0 0 1 eq_refl ltac:(discriminate)).
Defined.

(** An area given by corners in the wrong order and beyond the block:
    the positions with x = 0 are filled, those with x = 1 are not. *)
Lemma fill_area_fills_box_witness :
  exists b',
    fill_area pool_0xAA block_8_bit_ramp 9 (mkVector3i 1 2 0) (mkVector3i 0 0 5) CHANNEL_TYPE
      = Finished b' [] /\
    get_voxel b' 0 1 1 CHANNEL_TYPE = 9 /\
    get_voxel b' 1 1 1 CHANNEL_TYPE = 8.
Proof.
  destruct (fill_area_fills_box pool_0xAA block_8_bit_ramp 9 (mkVector3i 1 2 0)
              (mkVector3i 0 0 5) CHANNEL_TYPE eq_refl type_channel ltac:(lia)
              ltac:(discriminate))
    as (b' & Hrun & _ & _ & _ & _ & Hin & Hout).
  exists b'. split; [exact Hrun|]. split.
  - apply (Hin 0 1 1 eq_refl). unfold in_area. cbn. lia.
  - apply (Hout 1 1 1 eq_refl). unfold in_area. cbn. lia.
Defined.

(** An area without height. *)
Lemma fill_area_empty_witness :
  fill_area pool_0xAA block_8_bit_ramp 9 (mkVector3i 0 1 0) (mkVector3i 2 1 2) CHANNEL_TYPE
    = Finished block_8_bit_ramp [].
Proof.
  apply (fill_area_empty pool_0xAA block_8_bit_ramp 9 (mkVector3i 0 1 0) (mkVector3i 2 1 2)
           CHANNEL_TYPE type_channel).
  right. left. reflexivity.
Defined.

(** A 1x2x2 part of the ramp block copied into a new 4x4x4 block at
    (1,1,1). *)
Lemma copy_from_area_copies_box_witness :
  exists b',
    copy_from_area pool_0xAA (fresh_block 4 4 4) block_8_bit_ramp
      (mkVector3i 0 0 0) (mkVector3i 1 2 2) (mkVector3i 1 1 1) CHANNEL_TYPE
      = Finished b' [] /\
    get_voxel b' 1 2 2 CHANNEL_TYPE = 6 /\
    get_voxel b' 2 2 2 CHANNEL_TYPE = 0.
Proof.
  destruct (copy_from_area_copies_box pool_0xAA (fresh_block 4 4 4) block_8_bit_ramp
              (mkVector3i 0 0 0) (mkVector3i 1 2 2) (mkVector3i 1 1 1) CHANNEL_TYPE
              eq_refl eq_refl type_channel eq_refl ltac:(discriminate))
    as (b' & Hrun & _ & _ & _ & _ & Hread).
  - unfold copy_axis_in_range. cbn. lia.
  - unfold copy_axis_in_range. cbn. lia.
  - unfold copy_axis_in_range. cbn. lia.
  - intros [H _]. discriminate H.
  - left. reflexivity.
  - exists b'. split; [exact Hrun|]. split.
    + exact (Hread 1 2 2 eq_refl).
    + exact (Hread 2 2 2 eq_refl).
Defined.

(** A uniform source of [defval] 0 copied over the ramp block, whose
    [defval] is 0 too: with the whole of both blocks as the range the ramp
    is lost, with a part of a larger source it stays. *)
Lemma copy_from_area_same_defval_witness :
  (exists b',
     copy_from_area pool_0xAA block_8_bit_ramp (fresh_block 2 2 2)
       (mkVector3i 0 0 0) (mkVector3i 2 2 2) (mkVector3i 0 0 0) CHANNEL_TYPE
       = Finished b' [] /\
     get_voxel block_8_bit_ramp 1 1 1 CHANNEL_TYPE = 8 /\
     get_voxel b' 1 1 1 CHANNEL_TYPE = 0) /\
  copy_from_area pool_0xAA block_8_bit_ramp (fresh_block 4 4 4)
    (mkVector3i 0 0 0) (mkVector3i 1 1 1) (mkVector3i 0 0 0) CHANNEL_TYPE
    = Finished block_8_bit_ramp [].
Proof.
  split.
  - destruct (copy_from_area_same_defval pool_0xAA block_8_bit_ramp (fresh_block 2 2 2)
                (mkVector3i 0 0 0) (mkVector3i 2 2 2) (mkVector3i 0 0 0) CHANNEL_TYPE
                type_channel eq_refl eq_refl eq_refl) as (b' & Hrun & _ & Hwhole).
    exists b'. split; [exact Hrun|]. split; [reflexivity|].
    exact (proj1 (proj2 (Hwhole eq_refl)) 1 1 1).
  - destruct (copy_from_area_same_defval pool_0xAA block_8_bit_ramp (fresh_block 4 4 4)
                (mkVector3i 0 0 0) (mkVector3i 1 1 1) (mkVector3i 0 0 0) CHANNEL_TYPE
                type_channel eq_refl eq_refl eq_refl) as (b' & Hrun & Hpart & _).
    rewrite Hrun. f_equal. exact (Hpart eq_refl).
Defined.

(** The ramp block downscaled into a new block of its size: one voxel is
    written, the one of the same position. *)
Lemma downscale_to_result_witness :
  exists dst',
    downscale_to pool_0xAA block_8_bit_ramp (fresh_block 2 2 2)
      (mkVector3i 0 0 0) (mkVector3i 2 2 2) (mkVector3i 0 0 0) = Finished dst' [] /\
    get_voxel dst' 0 0 0 CHANNEL_TYPE = 1 /\
    get_voxel dst' 1 0 1 CHANNEL_TYPE = 0.
Proof.
  destruct (downscale_to_result pool_0xAA block_8_bit_ramp (fresh_block 2 2 2)
              (mkVector3i 0 0 0) (mkVector3i 2 2 2) (mkVector3i 0 0 0) eq_refl eq_refl)
    as (dst' & Hrun & _ & _ & _ & Hread).
  - intros i Hi.
    rewrite (all_channels_8_bit (fresh_block 2 2 2) eq_refl eq_refl i Hi). discriminate.
  - vm_compute. repeat split; (reflexivity || discriminate).
  - vm_compute. repeat split; (reflexivity || discriminate).
  - vm_compute. repeat split; (reflexivity || discriminate).
  - exists dst'. split; [exact Hrun|]. split.
    + exact (Hread CHANNEL_TYPE 0 0 0 type_channel eq_refl).
    + exact (Hread CHANNEL_TYPE 1 0 1 type_channel eq_refl).
Defined.

(** The raw value 200 decodes to 0, with any decoding of the wider
    depths. *)
Lemma raw_voxel_to_real_8_bit_witness :
  raw_voxel_to_real (fun _ => real_of_Z 0) (fun z => z) 200 DEPTH_8_BIT = Some 0.
Proof.
  exact (raw_voxel_to_real_8_bit (fun _ => real_of_Z 0) (fun z => z) 200 ltac:(lia)).
Defined.

(** * The blocks of a program *)

(** ** Depths *)











Section Depths.

Variable pool_bytes : Z -> nat -> Z.























End Depths.

Section ProgramBlocks.

Variable pool_bytes : Z -> nat -> Z.





End ProgramBlocks.










(** * The life cycle of the task *)

Section TaskLifecycle.

Context {VoxelBufferInternal InstanceBlockData VolumeID VoxelData : Type}.
Context {PriorityDependency VoxelGenerator Callback UserData : Type}.
Variable new_block : Z -> VoxelBufferInternal.

Abbreviation Task :=
  (Task VoxelBufferInternal InstanceBlockData VolumeID VoxelData PriorityDependency).
Abbreviation World :=
  (World VoxelBufferInternal InstanceBlockData VolumeID VoxelGenerator Callback UserData).
Abbreviation VoxelStream := (VoxelStream VoxelBufferInternal InstanceBlockData).
Abbreviation Event :=
  (Event VoxelBufferInternal InstanceBlockData VolumeID VoxelData PriorityDependency
         VoxelGenerator Callback UserData).

(** [run] on a task that has a dependency with a stream, no voxels and no
    instances yet: the voxel query comes first, then what the dispatch on
    its result does, then at most one instance query; [_has_run] is set. *)
Lemma run_shape (w : World) (t : Task) (dep : DependencyRef) (s : VoxelStream) :
  _stream_dependency t = Some dep ->
  stream (dependencies w dep) = Some s ->
  _voxels t = None -> _instances t = None ->
  exists t1 ev1 log1 t' rest log2,
    run_dispatch Callback UserData (dependencies w dep)
      (set_voxels t (Some (fst (voxel_query new_block s t)))) (snd (voxel_query new_block s t))
      = Finished (t1, ev1) log1 /\
    run new_block w t
      = Finished (t', StreamLoadVoxelBlock (origin_in_voxels t) (_lod_index t)
                      :: ev1 ++ rest) (log1 ++ log2) /\
    same_but_instances t1 t' /\ _has_run t' = true /\
    (rest = [] \/ rest = [StreamLoadInstanceBlocks (_lod_index t) (_position t)]) /\
    (log2 = [] \/ log2 = [ERR_PRINT]).
Proof.
  intros Hdep Hs Hv Hi. unfold run, voxel_query. rewrite Hdep, Hs, Hv. cbn [is_null negb].
  destruct (load_voxel_block s _ _ _) as [voxels r] eqn:E. cbn [fst snd].
  assert (Hd : exists t1 ev1 log1,
             run_dispatch Callback UserData (dependencies w dep)
               (set_voxels t (Some voxels)) r = Finished (t1, ev1) log1 /\
             _request_instances t1 = _request_instances t /\
             _instances t1 = None /\ _lod_index t1 = _lod_index t /\
             _position t1 = _position t).
  { unfold run_dispatch. destruct r; cbn.
    - do 3 eexists. split; [reflexivity|]. cbn. auto.
    - destruct (_generate_cache_data t); [destruct (generator _)|];
        do 3 eexists; (split; [reflexivity|]); cbn; auto.
    - do 3 eexists. split; [reflexivity|]. cbn. auto. }
  destruct Hd as (t1 & ev1 & log1 & Hd & Hr1 & Hi1 & Hl1 & Hp1).
  exists t1, ev1, log1. rewrite Hd. cbn [bind]. rewrite Hr1, Hi1, Hl1, Hp1.
  cbn [is_null negb].
  destruct (_request_instances t && supports_instance_blocks s).
  - destruct (load_instance_blocks s _ _) as [idata ires].
    destruct (Result_eqb ires RESULT_ERROR); cbn [bind fail_with ret app];
      [|destruct (Result_eqb r RESULT_BLOCK_FOUND)]; cbn [bind fail_with ret app];
      do 3 eexists; (split; [reflexivity|]);
      (split; [reflexivity|]);
      (split; [unfold same_but_instances; cbn; tauto|]);
      (split; [reflexivity|]); (split; [right; reflexivity|]); auto.
  - cbn [bind fail_with ret app]. exists (set_has_run t1 true), [], [].
    split; [reflexivity|]. rewrite !app_nil_r.
    split; [reflexivity|].
    split; [unfold same_but_instances; cbn; tauto|].
    split; [reflexivity|]. auto.
Qed.

Lemma apply_result_emits (w : World) (t : Task) (dep : DependencyRef) (f : Callback) :
  _stream_dependency t = Some dep ->
  is_volume_valid w (_volume_id t) = true ->
  valid (dependencies w dep) = true ->
  _requested_generator_task t = false ->
  data_output_callback (get_volume_callbacks w (_volume_id t)) = Some f ->
  apply_result w t
    = Finished (set_instances t None,
                [DataOutputCallback f (callbacks_data (get_volume_callbacks w (_volume_id t)))
                   (mkBlockDataOutput (_voxels t) (_instances t) (_position t) (_lod_index t)
                      (negb (_has_run t)) (_max_lod_hint t) false TYPE_LOADED)]) [].
Proof.
  intros Hdep Hvol Hvalid Hreq Hcb. unfold apply_result.
  rewrite Hvol, Hdep, Hvalid, Hreq. cbn [andb negb _volume_id set_instances].
  rewrite Hcb. reflexivity.
Qed.

(** X24.  [run] on a task without voxels whose stream answers the voxel
    query (issued at the origin computed in 32 bits, for a lod index below
    32) with anything but BLOCK_NOT_FOUND: the task holds the block of the
    query (also after RESULT_ERROR, which is printed), [_has_run] is set,
    [run] itself calls no callback, and [apply_result] then calls the
    callback of the volume once, with that block, the position and the lod
    of the task, and [dropped] false. *)
Theorem run_keeps_block_unless_not_found
    (w : World) (t : Task) (dep : DependencyRef) (s : VoxelStream) (f : Callback) :
  _stream_dependency t = Some dep ->
  stream (dependencies w dep) = Some s ->
  _voxels t = None -> _instances t = None ->
  _requested_generator_task t = false ->
  0 <= _lod_index t < 32 ->
  snd (voxel_query new_block s t) <> RESULT_BLOCK_NOT_FOUND ->
  is_volume_valid w (_volume_id t) = true ->
  valid (dependencies w dep) = true ->
  data_output_callback (get_volume_callbacks w (_volume_id t)) = Some f ->
  exists t' ev log t'' o,
    run new_block w t = Finished (t', ev) log /\
    _voxels t' = Some (fst (voxel_query new_block s t)) /\
    _has_run t' = true /\
    outputs ev = [] /\
    (snd (voxel_query new_block s t) = RESULT_ERROR -> In ERR_PRINT log) /\
    apply_result w t'
      = Finished (t'', [DataOutputCallback f
                          (callbacks_data (get_volume_callbacks w (_volume_id t))) o]) [] /\
    o_voxels o = Some (fst (voxel_query new_block s t)) /\
    o_instances o = _instances t' /\
    o_position o = _position t /\ o_lod_index o = _lod_index t /\
    o_dropped o = false.
Proof.
  intros Hdep Hs Hv Hi Hreq _ Hres Hvol Hvalid Hcb.
  destruct (run_shape w t dep s Hdep Hs Hv Hi)
    as (t1 & ev1 & log1 & t' & rest & log2 & Hd & Hrun & Hsame & Hhas & Hrest & Hlog).
  assert (H1 : t1 = set_voxels t (Some (fst (voxel_query new_block s t))) /\ ev1 = [] /\
               (snd (voxel_query new_block s t) = RESULT_ERROR -> In ERR_PRINT log1)).
  { unfold run_dispatch in Hd. destruct (snd (voxel_query new_block s t)); try congruence.
    - injection Hd as <- <- <-. split_all; try reflexivity. intros _. left. reflexivity.
    - injection Hd as <- <- <-. split_all; try reflexivity. discriminate. }
  destruct H1 as (-> & -> & Herr).
  destruct Hsame as (Hv' & Hreq' & _ & Hdep' & Hvid' & Hpos' & Hlod' & _).
  cbn [set_voxels _voxels _requested_generator_task _stream_dependency _volume_id _position
       _lod_index] in *.
  pose proof (apply_result_emits w t' dep f) as Happly.
  rewrite Hvid' in Happly.
  specialize (Happly ltac:(congruence) Hvol Hvalid ltac:(congruence) Hcb).
  do 5 eexists. split; [exact Hrun|]. split; [exact Hv'|]. split; [exact Hhas|].
  split.
  { cbn [app outputs flat_map]. destruct Hrest as [-> | ->]; reflexivity. }
  split; [intros E; apply in_or_app; left; apply Herr; exact E|].
  split; [exact Happly|]. cbn [o_voxels o_instances o_position o_lod_index o_dropped].
  rewrite Hhas. split_all; try reflexivity; assumption.
Qed.

(** X25.  [run] when the stream answers BLOCK_NOT_FOUND to the voxel query
    (issued at the origin computed in 32 bits, for a lod index below 32),
    caching is enabled and the dependency has a generator: a generator task
    is pushed right after the voxel query, with the block, the position, the
    lod, the block size and the dependencies of the task;
    [_requested_generator_task] is set, and [apply_result] then emits
    nothing, in whatever world. *)
Theorem run_delegates_to_generator
    (w : World) (t : Task) (dep : DependencyRef) (s : VoxelStream) (g : VoxelGenerator) :
  _stream_dependency t = Some dep ->
  stream (dependencies w dep) = Some s ->
  _voxels t = None -> _instances t = None ->
  0 <= _lod_index t < 32 ->
  snd (voxel_query new_block s t) = RESULT_BLOCK_NOT_FOUND ->
  _generate_cache_data t = true ->
  generator (dependencies w dep) = Some g ->
  exists t' rest log,
    run new_block w t
      = Finished (t', StreamLoadVoxelBlock (origin_in_voxels t) (_lod_index t)
                      :: PushAsyncTask g
                           (mkBlockTaskParams (Some (fst (voxel_query new_block s t))) (_volume_id t)
                              (_position t) (_lod_index t) (_block_size t)
                              (_stream_dependency t) (_priority_dependency t)
                              (_generator_use_gpu t) (_voxel_data t))
                      :: rest) log /\
    (rest = [] \/ rest = [StreamLoadInstanceBlocks (_lod_index t) (_position t)]) /\
    _requested_generator_task t' = true /\
    _voxels t' = Some (fst (voxel_query new_block s t)) /\
    forall (w' : World),
      snd (result (t', []) (apply_result w' t')) = [].
Proof.
  intros Hdep Hs Hv Hi _ Hres Hgen Hg.
  destruct (run_shape w t dep s Hdep Hs Hv Hi)
    as (t1 & ev1 & log1 & t' & rest & log2 & Hd & Hrun & Hsame & Hhas & Hrest & Hlog).
  unfold run_dispatch in Hd. rewrite Hres in Hd.
  cbn [_generate_cache_data set_voxels] in Hd. rewrite Hgen, Hg in Hd.
  injection Hd as <- <- <-.
  destruct Hsame as (Hv' & Hreq' & _ & Hdep' & _).
  cbn [set_voxels set_requested_generator_task _voxels _requested_generator_task
       _stream_dependency] in *.
  exists t', rest, ([] ++ log2). split; [exact Hrun|]. split; [exact Hrest|].
  split; [exact Hreq'|]. split; [exact Hv'|].
  intros w'. unfold apply_result. rewrite Hreq', Hdep', Hdep.
  destruct (is_volume_valid w' (_volume_id t')); [|reflexivity].
  rewrite andb_false_r. reflexivity.
Qed.

Lemma run_dispatch_result (sd : StreamingDependency VoxelBufferInternal InstanceBlockData
                                   VoxelGenerator) (t0 : Task) (r : Result) :
  exists t1 ev1 log1,
    run_dispatch Callback UserData sd t0 r = Finished (t1, ev1) log1 /\
    outputs ev1 = [] /\
    _too_far t1 = _too_far t0 /\ _stream_dependency t1 = _stream_dependency t0.
Proof.
  unfold run_dispatch. destruct r; cbn.
  - do 3 eexists. split; [reflexivity|]. cbn. auto.
  - destruct (_generate_cache_data t0); [destruct (generator _)|];
      do 3 eexists; (split; [reflexivity|]); cbn; auto.
  - do 3 eexists. split; [reflexivity|]. cbn. auto.
Qed.

(** What [run] returns, whatever the task and the world: no callback of a
    volume among its events, [_too_far] and the dependency as they were. *)
Lemma run_result (w : World) (t : Task) :
  let r := result (t, []) (run new_block w t) in
  outputs (snd r) = [] /\
  _too_far (fst r) = _too_far t /\ _stream_dependency (fst r) = _stream_dependency t.
Proof.
  cbn zeta. unfold run.
  destruct (_stream_dependency t) as [dep|] eqn:Hdep; [|cbn; auto].
  destruct (stream (dependencies w dep)) as [s|]; [|cbn; auto].
  destruct (_voxels t); cbn [is_null negb]; [cbn; auto|].
  destruct (load_voxel_block s _ _ _) as [voxels r].
  destruct (run_dispatch_result (dependencies w dep) (set_voxels t (Some voxels)) r)
    as (t1 & ev1 & log1 & -> & Hev & Hfar & Hsd).
  cbn [set_voxels _too_far _stream_dependency] in Hfar, Hsd. cbn [bind].
  unfold outputs in *.
  destruct (_request_instances t1 && supports_instance_blocks s).
  - destruct (_instances t1); cbn [is_null negb].
    + cbn [fail_with result fst snd flat_map app]. rewrite Hev. split_all; congruence.
    + destruct (load_instance_blocks s _ _) as [idata ires].
      destruct (Result_eqb ires RESULT_ERROR); [|destruct (Result_eqb r RESULT_BLOCK_FOUND)];
        cbn [bind fail_with ret result fst snd app set_has_run set_instances
             _too_far _stream_dependency];
        change (flat_map ?f (?x :: ?l ++ ?l')) with (flat_map f ((x :: l) ++ l'));
        rewrite flat_map_app; cbn [flat_map app]; rewrite Hev; split_all;
        try reflexivity; congruence.
  - cbn [ret result fst snd flat_map app set_has_run _too_far _stream_dependency].
    rewrite Hev. split_all; congruence.
Qed.

Lemma apply_result_result (w : World) (t : Task) :
  let r := result (t, []) (apply_result w t) in
  (length (snd r) <= 1)%nat /\ length (outputs (snd r)) = length (snd r) /\
  _too_far (fst r) = _too_far t /\ _stream_dependency (fst r) = _stream_dependency t.
Proof.
  cbn zeta. unfold apply_result.
  destruct (is_volume_valid w (_volume_id t)); [|cbn; auto].
  destruct (_stream_dependency t) eqn:Hdep; [|cbn; auto].
  destruct (valid _ && negb _); [|cbn; auto].
  cbn [_volume_id set_instances].
  destruct (data_output_callback _); cbn; auto.
Qed.

(** X26.  Whatever the task and the world: [run] never calls the callback
    of a volume, and [apply_result] emits at most one event, which is such a
    call. *)
Theorem task_event_discipline (w : World) (t : Task) :
  outputs (snd (result (t, []) (run new_block w t))) = [] /\
  (length (snd (result (t, []) (apply_result w t))) <= 1)%nat /\
  length (outputs (snd (result (t, []) (apply_result w t))))
    = length (snd (result (t, []) (apply_result w t))).
Proof.
  split; [apply run_result|]. split; apply apply_result_result.
Qed.

(** X27.  When [apply_result] calls the callback, the bundle holds the
    instances and the voxels of the task; the instances are moved (the task
    holds none afterwards) and the voxels are shared: a second
    [apply_result] would hand over the same voxels and no instances. *)
Theorem apply_result_hands_instances_over_once
    (w : World) (t t' : Task) (f : Callback) (u : UserData)
    (o : BlockDataOutput VoxelBufferInternal InstanceBlockData) (log : list LogEntry) :
  apply_result w t = Finished (t', [DataOutputCallback f u o]) log ->
  o_instances o = _instances t /\ o_voxels o = _voxels t /\
  _instances t' = None /\ _voxels t' = _voxels t /\
  forall (w2 : World) t2 ev2 log2,
    apply_result w2 t' = Finished (t2, ev2) log2 ->
    forall o2, In o2 (outputs ev2) -> o_instances o2 = None /\ o_voxels o2 = _voxels t.
Proof.
  unfold apply_result at 1.
  destruct (is_volume_valid w (_volume_id t)); [|discriminate].
  destruct (_stream_dependency t); [|discriminate].
  destruct (valid _ && negb _); [|discriminate].
  cbn [_volume_id set_instances].
  destruct (data_output_callback _); [|discriminate].
  intros [= <- <- <- <- <-]. cbn [o_instances o_voxels _instances _voxels].
  split_all; try reflexivity.
  intros w2 t2 ev2 log2. unfold apply_result.
  cbn [_volume_id _stream_dependency _requested_generator_task _voxels _instances
       _position _lod_index _has_run _max_lod_hint set_instances].
  destruct (is_volume_valid w2 (_volume_id t)).
  - destruct (_stream_dependency t); [|discriminate].
    destruct (valid _ && negb _).
    + destruct (data_output_callback _); [|discriminate].
      intros [= <- <- <-] o2 [<- | []]. split; reflexivity.
    + intros [= <- <- <-] o2 [].
  - intros [= <- <- <-] o2 [].
Qed.

Section Priority.

Context {TaskPriority : Type}.
Variable evaluate : PriorityDependency -> Z -> Z -> TaskPriority * real_t.
Variable drop_distance_squared : PriorityDependency -> real_t.
Variable TASK_PRIORITY_LOAD_BAND2 : Z.

(** X28.  [get_priority] returns the priority that [evaluate] computes
    and records whether the distance exceeds the drop distance;
    [is_cancelled] then answers: the dependency is invalid, or the task is
    too far.  Neither [run] nor [apply_result] changes that answer. *)
Theorem cancellation_follows_get_priority (w : World) (t : Task) (dep : DependencyRef) :
  _stream_dependency t = Some dep ->
  let t1 := fst (get_priority evaluate drop_distance_squared TASK_PRIORITY_LOAD_BAND2 t) in
  let too_far :=
    real_gt (snd (evaluate (_priority_dependency t) (_lod_index t) TASK_PRIORITY_LOAD_BAND2))
            (drop_distance_squared (_priority_dependency t)) in
  is_cancelled w t1 = Finished (negb (valid (dependencies w dep)) || too_far) [] /\
  is_cancelled w (fst (result (t1, []) (run new_block w t1))) = is_cancelled w t1 /\
  is_cancelled w (fst (result (t1, []) (apply_result w t1))) = is_cancelled w t1 /\
  snd (get_priority evaluate drop_distance_squared TASK_PRIORITY_LOAD_BAND2 t)
    = fst (evaluate (_priority_dependency t) (_lod_index t) TASK_PRIORITY_LOAD_BAND2).
Proof.
  intros Hdep. cbn zeta.
  split_all.
  - unfold get_priority. destruct (evaluate _ _ _) as [p d]. cbn [fst snd].
    unfold is_cancelled. cbn [set_too_far _stream_dependency _too_far _priority_dependency].
    rewrite Hdep. reflexivity.
  - unfold is_cancelled. destruct (run_result w
      (fst (get_priority evaluate drop_distance_squared TASK_PRIORITY_LOAD_BAND2 t)))
      as (_ & -> & ->). reflexivity.
  - unfold is_cancelled. destruct (apply_result_result w
      (fst (get_priority evaluate drop_distance_squared TASK_PRIORITY_LOAD_BAND2 t)))
      as (_ & _ & -> & ->). reflexivity.
  - unfold get_priority. destruct (evaluate _ _ _) as [p d]. reflexivity.
Qed.

End Priority.

End TaskLifecycle.

(** ** At given tasks *)

(** A stream that has the block. *)
Lemma run_keeps_block_unless_not_found_witness :
  exists t' ev log t'' o,
    run block_of_size (world_with stream_with_voxels None true) (task_with false false)
      = Finished (t', ev) log /\
    apply_result (world_with stream_with_voxels None true) t'
      = Finished (t'', [DataOutputCallback 1%nat 2%nat o]) [] /\
    o_voxels o = Some 16 /\ o_dropped o = false.
Proof.
  destruct (run_keeps_block_unless_not_found block_of_size
              (world_with stream_with_voxels None true) (task_with false false)
              0%nat stream_with_voxels 1%nat
              eq_refl eq_refl eq_refl eq_refl eq_refl ltac:(cbn; lia) ltac:(discriminate)
              eq_refl eq_refl eq_refl)
    as (t' & ev & log & t'' & o & Hrun & _ & _ & _ & _ & Happly & Hv & _ & _ & _ & Hd).
  exists t', ev, log, t'', o. split; [exact Hrun|]. split; [exact Happly|].
  split; [exact Hv | exact Hd].
Defined.

(** A stream that misses the block of the origin -2^31, with caching and a
    generator. *)
Lemma run_delegates_to_generator_witness :
  exists t' rest log,
    run block_of_size (world_with stream_of_positive_origins (Some 5%nat) true)
        (task_far true)
      = Finished (t', StreamLoadVoxelBlock (mkVector3i (-2147483648) 0 0) 0
                      :: PushAsyncTask 5%nat
                           (mkBlockTaskParams (Some 16) 0%nat (mkVector3i (2 ^ 27) 0 0) 0 16
                              (Some 0%nat) tt false None)
                      :: rest) log /\
    _requested_generator_task t' = true /\
    snd (result (t', [])
           (apply_result (world_with stream_of_positive_origins (Some 5%nat) true) t'))
      = [].
Proof.
  destruct (run_delegates_to_generator block_of_size
              (world_with stream_of_positive_origins (Some 5%nat) true) (task_far true)
              0%nat stream_of_positive_origins 5%nat
              eq_refl eq_refl eq_refl eq_refl ltac:(cbn; lia) eq_refl eq_refl eq_refl)
    as (t' & rest & log & Hrun & _ & Hreq & _ & Hnone).
  exists t', rest, log. split; [exact Hrun|]. split; [exact Hreq|]. apply Hnone.
Defined.

(** A task that holds a block and instances. *)
Lemma apply_result_hands_instances_over_once_witness :
  exists t' o,
    apply_result (world_with stream_with_voxels None true)
      (set_instances (set_voxels (task_with true false) (Some 16)) (Some 7%nat))
      = Finished (t', [DataOutputCallback 1%nat 2%nat o]) [] /\
    o_instances o = Some 7%nat /\ _instances t' = None.
Proof.
  do 2 eexists. split; [reflexivity|].
  destruct (apply_result_hands_instances_over_once
              (world_with stream_with_voxels None true)
              (set_instances (set_voxels (task_with true false) (Some 16)) (Some 7%nat))
              _ 1%nat 2%nat _ [] eq_refl) as (Ho & _ & Hi & _).
  split; [exact Ho | exact Hi].
Defined.

(** A task at squared distance 4 with drop distance 1 is cancelled. *)
Lemma cancellation_follows_get_priority_witness :
  is_cancelled (world_with stream_with_voxels None true)
    (fst (get_priority (fun (_ : unit) _ _ => (tt, real_of_Z 4)) (fun _ => real_of_Z 1) 0
            (task_with false false)))
    = Finished true [].
Proof.
  exact (proj1 (cancellation_follows_get_priority block_of_size
                  (fun (_ : unit) _ _ => (tt, real_of_Z 4)) (fun _ => real_of_Z 1) 0
                  (world_with stream_with_voxels None true) (task_with false false)
                  0%nat eq_refl)).
Defined.
